(** * clitools: the image transformation pipeline of internal/image/processor.go

    A shallow embedding of the Go code of [Processor]: the transparent-bounds
    cropper ([cropTransparentAreas]), the scale arithmetic and algorithm
    dispatch of [ScaleImage], the scale clamp and point-sampling pass of
    [loadSVGWithScale], the fixed-scale loader [loadSVG], the JPEG quality
    conversion of [saveImage], the optimizer ([OptimizeImage],
    [OptimizeImageWithScale], [saveAsWebP]), and the two commands of
    cmd/image.go around them.

    Go's [int] is the 64-bit signed integer, modelled as [Z] with the
    wrap-around written out; [uint8]/[uint16]/[uint32] channel values are [Z]
    with explicit masks; [float32] and [float64] are IEEE-754 binary32 and
    binary64 values ([spec_float] with the precision and exponent range of
    each format); strings are [string]; the pixel store of an [*image.RGBA]
    is its byte slice [Pix] with [Stride] and [Rect], as in the standard
    library. *)

From Stdlib Require Import ZArith Lia Bool List String Ascii QArith Qround.
From Stdlib Require Import Floats.SpecFloat.
From stdpp Require Import base list list_numbers.

Local Open Scope Z_scope.

(** ** Machine integers *)

Module GoInt.

Definition minInt : Z := - 2 ^ 63.
Definition maxInt : Z := 2 ^ 63 - 1.

(** Two's-complement wrap-around of a 64-bit [int]. *)
Definition wrap (z : Z) : Z := (z + 2 ^ 63) mod 2 ^ 64 - 2 ^ 63.

Definition in_range (z : Z) : Prop := minInt <= z <= maxInt.

Definition add (a b : Z) : Z := wrap (a + b).
Definition sub (a b : Z) : Z := wrap (a - b).
Definition mul (a b : Z) : Z := wrap (a * b).

(** [uint8(v)], [uint32(v)] conversions. *)
Definition uint8 (v : Z) : Z := v mod 256.
Definition uint32 (v : Z) : Z := v mod 2 ^ 32.

Definition is_uint8 (v : Z) : Prop := 0 <= v < 256.
Definition is_uint16 (v : Z) : Prop := 0 <= v < 65536.
Definition is_uint32 (v : Z) : Prop := 0 <= v < 2 ^ 32.

End GoInt.

(** ** Package image/color *)

Module color.

(** The dynamic type behind a [color.Color] interface value.  [Other] is
    any implementation besides the listed ones (YCbCr, CMYK, a palette
    entry, ...), given by the four values its [RGBA()] method returns. *)
Inductive Color : Type :=
| RGBA (R G B A : Z)      (* uint8 fields, alpha-premultiplied *)
| NRGBA (R G B A : Z)     (* uint8 fields, not premultiplied *)
| RGBA64 (R G B A : Z)    (* uint16 fields, alpha-premultiplied *)
| NRGBA64 (R G B A : Z)   (* uint16 fields, not premultiplied *)
| Gray (Y : Z)            (* uint8 *)
| Other (r g b a : Z).    (* uint32 results of RGBA() *)

(** Field ranges of each dynamic type. *)
Definition valid (c : Color) : Prop :=
  match c with
  | RGBA R G B A | NRGBA R G B A =>
      GoInt.is_uint8 R /\ GoInt.is_uint8 G /\ GoInt.is_uint8 B /\ GoInt.is_uint8 A
  | RGBA64 R G B A | NRGBA64 R G B A =>
      GoInt.is_uint16 R /\ GoInt.is_uint16 G /\ GoInt.is_uint16 B /\ GoInt.is_uint16 A
  | Gray Y => GoInt.is_uint8 Y
  | Other r g b a =>
      GoInt.is_uint32 r /\ GoInt.is_uint32 g /\ GoInt.is_uint32 b /\ GoInt.is_uint32 a
  end.

(** [v |= v << 8] on a uint32 holding a uint8. *)
Definition dup8 (v : Z) : Z := GoInt.uint32 (Z.lor v (Z.shiftl v 8)).

(** [r = uint32(c.R); r |= r << 8; r *= uint32(c.A); r /= 0xff] *)
Definition nrgba_chan (v a : Z) : Z := GoInt.uint32 (dup8 v * a) / 255.

(** [r = uint32(c.R); r *= uint32(c.A); r /= 0xffff] *)
Definition nrgba64_chan (v a : Z) : Z := GoInt.uint32 (v * a) / 65535.

(** The method [RGBA() (r, g, b, a uint32)]. *)
Definition RGBA_of (c : Color) : Z * Z * Z * Z :=
  match c with
  | RGBA R G B A => (dup8 R, dup8 G, dup8 B, dup8 A)
  | NRGBA R G B A => (nrgba_chan R A, nrgba_chan G A, nrgba_chan B A, dup8 A)
  | RGBA64 R G B A => (R, G, B, A)
  | NRGBA64 R G B A => (nrgba64_chan R A, nrgba64_chan G A, nrgba64_chan B A, A)
  | Gray Y => (dup8 Y, dup8 Y, dup8 Y, 65535)
  | Other r g b a => (r, g, b, a)
  end.

Definition is_RGBA (c : Color) : bool :=
  match c with RGBA _ _ _ _ => true | _ => false end.

(** [color.RGBAModel.Convert]: a [color.RGBA] is returned as it is, any
    other colour is reduced to the high bytes of its [RGBA()] values. *)
Definition rgbaModel (c : Color) : Color :=
  match c with
  | RGBA _ _ _ _ => c
  | _ =>
      let '(r, g, b, a) := RGBA_of c in
      RGBA (GoInt.uint8 (Z.shiftr r 8)) (GoInt.uint8 (Z.shiftr g 8))
           (GoInt.uint8 (Z.shiftr b 8)) (GoInt.uint8 (Z.shiftr a 8))
  end.

(** The zero value [color.RGBA{}]. *)
Definition transparent : Color := RGBA 0 0 0 0.

End color.

(** ** Package image *)

Module image.

Record Point : Type := Pt { X : Z; Y : Z }.
Record Rectangle : Type := Rectangle_ { Min : Point; Max : Point }.

(** [image.Rect]: the corners are put in canonical order. *)
Definition Rect (x0 y0 x1 y1 : Z) : Rectangle :=
  let '(x0, x1) := if x0 >? x1 then (x1, x0) else (x0, x1) in
  let '(y0, y1) := if y0 >? y1 then (y1, y0) else (y0, y1) in
  Rectangle_ (Pt x0 y0) (Pt x1 y1).

Definition Dx (r : Rectangle) : Z := GoInt.sub (X (Max r)) (X (Min r)).
Definition Dy (r : Rectangle) : Z := GoInt.sub (Y (Max r)) (Y (Min r)).

(** [Point.In] *)
Definition In (x y : Z) (r : Rectangle) : bool :=
  (X (Min r) <=? x) && (x <? X (Max r)) && (Y (Min r) <=? y) && (y <? Y (Max r)).

(** The interface [image.Image], as the record of the two methods the
    processor calls. *)
Record Image : Type := Image_ { Bounds : Rectangle; At : Z -> Z -> color.Color }.

(** The struct [image.RGBA]. *)
Record RGBA : Type := RGBA_ { Pix : list Z; Stride : Z; RGBA_Rect : Rectangle }.

(** [mul3NonNeg(x, y, z)]: the product, or -1 when an operand is negative
    or the computation overflows: the high word of [bits.Mul64(x, y)] is
    not zero, the high word of [bits.Mul64(lo, z)] is not zero, or the low
    word does not fit a non-negative [int]. *)
Definition mul3NonNeg (x y z : Z) : Z :=
  if (x <? 0) || (y <? 0) || (z <? 0) then -1
  else if 2 ^ 64 <=? x * y then -1
  else if 2 ^ 64 <=? x * y * z then -1
  else if x * y * z >? GoInt.maxInt then -1
  else x * y * z.

(** [image.NewRGBA]; [None] is the panic on huge or negative dimensions. *)
Definition NewRGBA (r : Rectangle) : option RGBA :=
  let n := mul3NonNeg 4 (Dx r) (Dy r) in
  if n <? 0 then None
  else Some (RGBA_ (replicate (Z.to_nat n) 0) (GoInt.mul 4 (Dx r)) r).

Definition PixOffset (p : RGBA) (x y : Z) : Z :=
  (y - Y (Min (RGBA_Rect p))) * Stride p + (x - X (Min (RGBA_Rect p))) * 4.

Definition byte_at (l : list Z) (i : Z) : Z := default 0 (l !! Z.to_nat i).

(** The method [At] of [image.RGBA]. *)
Definition RGBA_At (p : RGBA) (x y : Z) : color.Color :=
  if In x y (RGBA_Rect p) then
    let i := PixOffset p x y in
    color.RGBA (byte_at (Pix p) i) (byte_at (Pix p) (i + 1))
               (byte_at (Pix p) (i + 2)) (byte_at (Pix p) (i + 3))
  else color.transparent.

(** The method [Set] of [image.RGBA]. *)
Definition RGBA_Set (p : RGBA) (x y : Z) (c : color.Color) : RGBA :=
  if In x y (RGBA_Rect p) then
    let i := PixOffset p x y in
    match color.rgbaModel c with
    | color.RGBA r g b a =>
        RGBA_ (<[Z.to_nat (i + 3) := a]>
               (<[Z.to_nat (i + 2) := b]>
                (<[Z.to_nat (i + 1) := g]>
                 (<[Z.to_nat i := r]> (Pix p)))))
              (Stride p) (RGBA_Rect p)
    | _ => p
    end
  else p.

(** An [*image.RGBA] seen through the [image.Image] interface. *)
Definition of_RGBA (p : RGBA) : Image := Image_ (RGBA_Rect p) (RGBA_At p).

(** The layout invariant [NewRGBA] establishes and [Set] keeps. *)
Definition wf (p : RGBA) : Prop :=
  let r := RGBA_Rect p in
  X (Min r) <= X (Max r) /\ Y (Min r) <= Y (Max r) /\
  Stride p = 4 * (X (Max r) - X (Min r)) /\
  Z.of_nat (length (Pix p)) = Stride p * (Y (Max r) - Y (Min r)).

End image.

(** ** Loops *)

(** [for v := lo; v < hi; v++ { s = body v s }] *)
Definition for_lt {S : Type} (lo hi : Z) (body : Z -> S -> S) (s : S) : S :=
  fold_left (fun acc v => body v acc) (seqZ lo (hi - lo)) s.

(** [for v := lo; v <= hi; v++ { s = body v s }], for [hi] below the largest
    [int] (the loops of the processor run to a coordinate inside the image
    bounds). *)
Definition for_le {S : Type} (lo hi : Z) (body : Z -> S -> S) (s : S) : S :=
  fold_left (fun acc v => body v acc) (seqZ lo (hi - lo + 1)) s.

(** ** Bounds detector and cropper: [cropTransparentAreas] *)

Module Cropper.
Import image.

(** The local variables of the scan. *)
Record scan : Type :=
  Scan { minX : Z; minY : Z; maxX : Z; maxY : Z; foundContent : bool }.

(** [a > 0 || r > 0 || g > 0 || b > 0] on the results of [RGBA()]. *)
Definition is_content (c : color.Color) : bool :=
  let '(r, g, b, a) := color.RGBA_of c in
  (a >? 0) || (r >? 0) || (g >? 0) || (b >? 0).

(** The body of the inner scanning loop at pixel [(x, y)]. *)
Definition scan_pixel (img : Image) (y x : Z) (s : scan) : scan :=
  if is_content (At img x y) then
    let minX' := if x <? minX s then x else minX s in
    let maxX' := if x >? maxX s then x else maxX s in
    let minY' := if y <? minY s then y else minY s in
    let maxY' := if y >? maxY s then y else maxY s in
    Scan minX' minY' maxX' maxY' true
  else s.

Definition scan_init (bounds : Rectangle) : scan :=
  Scan (X (Max bounds)) (Y (Max bounds)) (X (Min bounds)) (Y (Min bounds)) false.

(** The two nested scanning loops. *)
Definition scan_image (img : Image) : scan :=
  let bounds := Bounds img in
  for_lt (Y (Min bounds)) (Y (Max bounds))
    (fun y => for_lt (X (Min bounds)) (X (Max bounds)) (scan_pixel img y))
    (scan_init bounds).

(** The two nested copying loops. *)
Definition copy_rect (img : Image) (s : scan) (croppedImg : RGBA) : RGBA :=
  for_le (minY s) (maxY s)
    (fun y => for_le (minX s) (maxX s)
       (fun x p => RGBA_Set p (GoInt.sub x (minX s)) (GoInt.sub y (minY s)) (At img x y)))
    croppedImg.

(** [cropTransparentAreas]; [None] is a panic of [image.NewRGBA]. *)
Definition cropTransparentAreas (img : Image) : option RGBA :=
  let s := scan_image img in
  if negb (foundContent s) then NewRGBA (Rect 0 0 1 1)
  else
    let croppedBounds :=
      Rect 0 0 (GoInt.add (GoInt.sub (maxX s) (minX s)) 1)
               (GoInt.add (GoInt.sub (maxY s) (minY s)) 1) in
    match NewRGBA croppedBounds with
    | None => None
    | Some croppedImg => Some (copy_rect img s croppedImg)
    end.

(** A decoded buffer: canonical bounds inside the [int] range whose pixel
    store of four bytes per pixel is addressable. *)
Definition valid_buffer (img : Image) : Prop :=
  let b := Bounds img in
  GoInt.in_range (X (Min b)) /\ GoInt.in_range (Y (Min b)) /\
  GoInt.in_range (X (Max b)) /\ GoInt.in_range (Y (Max b)) /\
  X (Min b) <= X (Max b) /\ Y (Min b) <= Y (Max b) /\
  4 * (X (Max b) - X (Min b)) * (Y (Max b) - Y (Min b)) <= GoInt.maxInt.

(** A content pixel of [img] inside its bounds. *)
Definition content_at (img : Image) (x y : Z) : Prop :=
  In x y (Bounds img) = true /\ is_content (At img x y) = true.

(** [(x0, y0, x1, y1)] is the smallest inclusive rectangle around the
    content pixels of [img]. *)
Definition bounding_rect (img : Image) (x0 y0 x1 y1 : Z) : Prop :=
  (forall x y, content_at img x y -> x0 <= x <= x1 /\ y0 <= y <= y1) /\
  (exists y, content_at img x0 y) /\ (exists y, content_at img x1 y) /\
  (exists x, content_at img x y0) /\ (exists x, content_at img x y1).

(** What the scan has established once the pixels satisfying [Q] have been
    visited: without content the variables are untouched, with content they
    are the tight bounds of the visited content pixels. *)
Definition scan_inv (img : Image) (Q : Z -> Z -> Prop) (s : scan) : Prop :=
  (foundContent s = false ->
     s = scan_init (Bounds img) /\
     forall x y, Q x y -> is_content (At img x y) = false) /\
  (foundContent s = true ->
     (forall x y, Q x y -> is_content (At img x y) = true ->
                  minX s <= x <= maxX s /\ minY s <= y <= maxY s) /\
     (exists y, Q (minX s) y /\ is_content (At img (minX s) y) = true) /\
     (exists y, Q (maxX s) y /\ is_content (At img (maxX s) y) = true) /\
     (exists x, Q x (minY s) /\ is_content (At img x (minY s)) = true) /\
     (exists x, Q x (maxY s) /\ is_content (At img x (maxY s)) = true)).

(** The pixels visited before the scan reaches [(x, y)] in row-major
    order. *)
Definition scanned_before (b : Rectangle) (y x px py : Z) : Prop :=
  In px py b = true /\ (py < y \/ (py = y /\ px < x)).

(** The state of the destination [p], allocated as [p0], once the source
    pixels of the rectangle satisfying [Q] have been copied. *)
Definition copied (img : Image) (s : scan) (Q : Z -> Z -> Prop)
    (p0 p : RGBA) : Prop :=
  wf p /\ RGBA_Rect p = RGBA_Rect p0 /\ Stride p = Stride p0 /\
  forall x y, minX s <= x <= maxX s -> minY s <= y <= maxY s -> Q x y ->
    RGBA_At p (x - minX s) (y - minY s) = color.rgbaModel (At img x y).

(** An image given by rows of colours, with its origin at (0, 0). *)
Definition of_rows (w : Z) (rows : list (list color.Color)) : Image :=
  Image_ (Rect 0 0 w (Z.of_nat (length rows)))
         (fun x y =>
            if (0 <=? x) && (0 <=? y) then
              default color.transparent
                (default [] (rows !! Z.to_nat y) !! Z.to_nat x)
            else color.transparent).

(** Crop copies the pixels of the content rectangle unchanged: every
    output pixel has the channel values of the input pixel it comes from. *)
Definition copies_verbatim (img : Image) : Prop :=
  forall x0 y0 x1 y1 out,
    bounding_rect img x0 y0 x1 y1 -> cropTransparentAreas img = Some out ->
    forall x y, x0 <= x <= x1 -> y0 <= y <= y1 ->
      color.RGBA_of (RGBA_At out (x - x0) (y - y0)) = color.RGBA_of (At img x y).

(** Cropping the result of a crop changes nothing. *)
Definition crop_idempotent_on (img : Image) : Prop :=
  forall out,
    cropTransparentAreas img = Some out ->
    cropTransparentAreas (of_RGBA out) = Some out.

(** The 8-bit conversion of the destination keeps content-ness of the
    pixels of [img]. *)
Definition content_stable (img : Image) : Prop :=
  forall x y, In x y (Bounds img) = true ->
    is_content (color.rgbaModel (At img x y)) = is_content (At img x y).

(** The channel values a pixel stores (red, green, blue, alpha), as the
    specification reads them; a gray pixel is opaque. *)
Definition channels (c : color.Color) : Z * Z * Z * Z :=
  match c with
  | color.RGBA R G B A | color.NRGBA R G B A
  | color.RGBA64 R G B A | color.NRGBA64 R G B A => (R, G, B, A)
  | color.Gray Y => (Y, Y, Y, 255)
  | color.Other r g b a => (r, g, b, a)
  end.

(** The alpha channel of a pixel. *)
Definition alpha (c : color.Color) : Z :=
  let '(_, _, _, a) := channels c in a.

(** The content test in the words of the specification: the alpha channel
    of the pixel is above zero, or one of its red, green and blue channels
    is. *)
Definition content_as_specified (c : color.Color) : bool :=
  let '(r, g, b, a) := channels c in
  (a >? 0) || (r >? 0) || (g >? 0) || (b >? 0).

(** A colour of the colour model: in an alpha-premultiplied colour no
    colour value exceeds the alpha; a colour with straight alpha stores any
    colour values. *)
Definition premultiplied (c : color.Color) : Prop :=
  match c with
  | color.RGBA R G B A | color.RGBA64 R G B A | color.Other R G B A =>
      R <= A /\ G <= A /\ B <= A
  | _ => True
  end.

End Cropper.

(** ** Sample images *)

Module Samples.
Import Cropper.

Definition T : color.Color := color.transparent.

(** A 4x3 canvas with a 2x2 block of 8-bit pixels, one of them transparent
    black, inside a transparent field. *)
Definition block8 : image.Image :=
  of_rows 4 [[T; T; T; T];
             [T; color.RGBA 255 0 0 255; color.NRGBA 100 0 0 128; T];
             [T; T; color.Gray 9; T]].

(** A single pixel of a 16-bit image. *)
Definition deep16 : image.Image :=
  of_rows 1 [[color.RGBA64 4660 0 0 65535]].

(** A 16-bit pixel of alpha 1/65535 next to an opaque red one. *)
Definition faint16 : image.Image :=
  of_rows 2 [[color.RGBA64 0 0 0 1; color.RGBA 255 0 0 255]].

(** A 3x2 canvas without content. *)
Definition blank : image.Image := of_rows 3 [[T; T; T]; [T; T; T]].

(** A row as a PNG decoder returns it: an opaque black pixel between two
    pixels of alpha 0 that still store a colour. *)
Definition ghost : image.Image :=
  of_rows 3 [[color.NRGBA 255 0 0 0; color.NRGBA 0 0 0 255;
              color.NRGBA 0 255 0 0]].

End Samples.

(** ** Floating point: [float32] and [float64] *)

Module Float.

Definition prec32 : Z := 24.
Definition emax32 : Z := 128.
Definition prec64 : Z := 53.
Definition emax64 : Z := 1024.

(** Values of Go's [float32] and [float64]; a finite value is kept in the
    canonical form of its format. *)
Definition float32 : Type := spec_float.
Definition float64 : Type := spec_float.

(** The [float32] nearest to [m * 2^e] (a literal or a flag value). *)
Definition f32 (m e : Z) : float32 := binary_normalize prec32 emax32 m e false.
Definition f64 (m e : Z) : float64 := binary_normalize prec64 emax64 m e false.

(** [float32(n)] and [float64(n)] of an [int], rounded to nearest even. *)
Definition f32_of_int (n : Z) : float32 := f32 n 0.
Definition f64_of_int (n : Z) : float64 := f64 n 0.

(** [float64(x)] of a [float32]: exact, renormalised to 53 bits. *)
Definition f64_of_f32 (x : float32) : float64 :=
  match x with
  | S754_finite s m e => binary_round prec64 emax64 s m e
  | _ => x
  end.

Definition mul32 : float32 -> float32 -> float32 := SFmul prec32 emax32.
Definition div32 : float32 -> float32 -> float32 := SFdiv prec32 emax32.
Definition mul64 : float64 -> float64 -> float64 := SFmul prec64 emax64.

(** Go's [<], [>], [==], [!=] on floats: any comparison with NaN is false
    except [!=]. *)
Definition lt (x y : spec_float) : bool := SFltb x y.
Definition gt (x y : spec_float) : bool := SFltb y x.
Definition eq (x y : spec_float) : bool := SFeqb x y.
Definition ne (x y : spec_float) : bool := negb (SFeqb x y).
Definition le (x y : spec_float) : bool := SFleb x y.

Definition is_nan (x : spec_float) : bool :=
  match x with S754_nan => true | _ => false end.

Definition is_finite (x : spec_float) : bool :=
  match x with S754_zero _ | S754_finite _ _ _ => true | _ => false end.

(** The integer part of a finite value, towards zero. *)
Definition trunc (x : spec_float) : option Z :=
  match x with
  | S754_zero _ => Some 0
  | S754_finite s m e =>
      let a := if 0 <=? e then Zpos m * 2 ^ e else Zpos m / 2 ^ (- e) in
      Some (if s then - a else a)
  | _ => None
  end.

(** [int(x)]: truncation towards zero; [None] where the language leaves
    the result to the implementation (NaN, infinities, values outside the
    range of [int]). *)
Definition to_int (x : spec_float) : option Z :=
  match trunc x with
  | Some z => if (GoInt.minInt <=? z) && (z <=? GoInt.maxInt) then Some z else None
  | None => None
  end.

(** The rational value of a finite float. *)
Definition to_Q (x : spec_float) : Q :=
  match x with
  | S754_finite s m e =>
      let a := if 0 <=? e then inject_Z (Zpos m * 2 ^ e)
               else Qmake (Zpos m) (Z.to_pos (2 ^ (- e))) in
      if s then Qopp a else a
  | _ => 0%Q
  end.

Definition zero : spec_float := S754_zero false.

(** The values a [float32] (a [float64]) can hold. *)
Definition valid32 (x : float32) : Prop := valid_binary prec32 emax32 x = true.
Definition valid64 (x : float64) : Prop := valid_binary prec64 emax64 x = true.
Definition one32 : float32 := f32 1 0.
Definition four32 : float32 := f32 4 0.

End Float.

(** ** Scaling engine: the target dimensions of [ScaleImage] *)

Module Scaling.
Import Float.

(** [Some x >>= f] on the partial conversions to [int]. *)
Definition bind {A B : Type} (o : option A) (f : A -> option B) : option B :=
  match o with Some a => f a | None => None end.

(** The computation of [targetWidth, targetHeight] from the original
    dimensions and the three arguments [factor], [width], [height]. *)
Definition targetDims (originalWidth originalHeight : Z)
    (factor : float32) (width height : Z) : option (Z * Z) :=
  if ne factor zero then
    bind (to_int (mul32 (f32_of_int originalWidth) factor)) (fun targetWidth =>
    bind (to_int (mul32 (f32_of_int originalHeight) factor)) (fun targetHeight =>
    Some (targetWidth, targetHeight)))
  else if negb (width =? 0) && negb (height =? 0) then
    Some (width, height)
  else if negb (width =? 0) then
    let aspectRatio := div32 (f32_of_int originalHeight) (f32_of_int originalWidth) in
    bind (to_int (mul32 (f32_of_int width) aspectRatio)) (fun targetHeight =>
    Some (width, targetHeight))
  else if negb (height =? 0) then
    let aspectRatio := div32 (f32_of_int originalWidth) (f32_of_int originalHeight) in
    bind (to_int (mul32 (f32_of_int height) aspectRatio)) (fun targetWidth =>
    Some (targetWidth, height))
  else Some (0, 0).

(** The scale specification of the command line: exactly one variant. *)
Inductive ScaleSpec : Type :=
| Uniform (f : float32)
| Explicit (w h : Z)
| WidthOnly (w : Z)
| HeightOnly (h : Z).

(** The arguments the [scale] command passes for a specification: flags
    that were not given keep their default 0. *)
Definition spec_args (sp : ScaleSpec) : float32 * Z * Z :=
  match sp with
  | Uniform f => (f, 0, 0)
  | Explicit w h => (zero, w, h)
  | WidthOnly w => (zero, w, 0)
  | HeightOnly h => (zero, 0, h)
  end.

Definition spec_ok (sp : ScaleSpec) : Prop :=
  match sp with
  | Uniform f => ne f zero = true
  | Explicit w h => w <> 0 /\ h <> 0
  | WidthOnly w => w <> 0
  | HeightOnly h => h <> 0
  end.

Definition scale_by_spec (W H : Z) (sp : ScaleSpec) : option (Z * Z) :=
  let '(factor, width, height) := spec_args sp in
  targetDims W H factor width height.

(** [round(q)]: the nearest integer, halves upwards. *)
Definition round (q : Q) : Z := Qfloor (q + (1 # 2))%Q.

(** The target dimensions with rounding to nearest of the exact
    products. *)
Definition rounded_dims (W H : Z) (sp : ScaleSpec) : Z * Z :=
  match sp with
  | Uniform f => (round (inject_Z W * to_Q f)%Q, round (inject_Z H * to_Q f)%Q)
  | Explicit w h => (w, h)
  | WidthOnly w => (w, round (inject_Z w * inject_Z H / inject_Z W)%Q)
  | HeightOnly h => (round (inject_Z h * inject_Z W / inject_Z H)%Q, h)
  end.

(** The target dimensions with truncation towards zero of the
    single-precision products. *)
Definition truncated_dims (W H : Z) (sp : ScaleSpec) : option (Z * Z) :=
  match sp with
  | Uniform f =>
      bind (to_int (mul32 (f32_of_int W) f)) (fun w =>
      bind (to_int (mul32 (f32_of_int H) f)) (fun h => Some (w, h)))
  | Explicit w h => Some (w, h)
  | WidthOnly w =>
      bind (to_int (mul32 (f32_of_int w) (div32 (f32_of_int H) (f32_of_int W))))
           (fun h => Some (w, h))
  | HeightOnly h =>
      bind (to_int (mul32 (f32_of_int h) (div32 (f32_of_int W) (f32_of_int H))))
           (fun w => Some (w, h))
  end.

End Scaling.

(** ** Codec gateway: the JPEG quality of [saveImage] *)

Module Codec.
Import Float.

(** [jpegQuality := int(quality)] followed by the two range tests. *)
Definition jpegQuality (quality : float32) : option Z :=
  match to_int quality with
  | Some q =>
      let q := if q <? 1 then 90 else q in
      let q := if q >? 100 then 100 else q in
      Some q
  | None => None
  end.

(** The two range tests, on whatever integer the conversion yields. *)
Definition rangeTests (q : Z) : Z :=
  let q := if q <? 1 then 90 else q in
  let q := if q >? 100 then 100 else q in
  q.

(** Clamping of an integer to a closed range. *)
Definition clamp (lo hi v : Z) : Z := Z.max lo (Z.min hi v).

(** The quality setting is a real number in [0, 100]. *)
Definition quality_in_range (quality : float32) : Prop :=
  valid32 quality /\ le zero quality = true /\ le quality (f32 100 0) = true.

(** The integer quality is the clamp to 1..100 of the integer part. *)
Definition quality_clamped (quality : float32) : Prop :=
  exists t, trunc quality = Some t /\ jpegQuality quality = Some (clamp 1 100 t).

End Codec.

(** ** Vector rasterizer: [loadSVGWithScale] after parsing *)

Module Rasterizer.
Import Float image.

(** What the processor uses of a parsed [oksvg.SvgIcon]: the view box and
    the external rasterisation [icon.SetTarget(0, 0, w, h)] followed by
    [icon.Draw] through a scanner over the working canvas. *)
Record SvgIcon : Type :=
  SvgIcon_ { ViewBox_W : float64; ViewBox_H : float64;
             Draw : float64 -> float64 -> RGBA -> RGBA }.

(** [width, height := icon.ViewBox.W, icon.ViewBox.H] with the 512x512
    default. *)
Definition intrinsic (icon : SvgIcon) : float64 * float64 :=
  if eq (ViewBox_W icon) zero || eq (ViewBox_H icon) zero
  then (f64 512 0, f64 512 0)
  else (ViewBox_W icon, ViewBox_H icon).

(** [if scale < 1 { scale = 1 }; if scale > 4 { scale = 4 }] *)
Definition clampScale (scale : float32) : float32 :=
  let scale := if lt scale one32 then one32 else scale in
  let scale := if gt scale four32 then four32 else scale in
  scale.

(** [renderWidth, renderHeight] for the clamped scale. *)
Definition renderDims (width height : float64) (scale : float32)
  : option (Z * Z) :=
  Scaling.bind (to_int (mul64 width (f64_of_f32 scale))) (fun renderWidth =>
  Scaling.bind (to_int (mul64 height (f64_of_f32 scale))) (fun renderHeight =>
  Some (renderWidth, renderHeight))).

(** The loops that initialise the working canvas with transparent
    pixels. *)
Definition clear (renderWidth renderHeight : Z) (img : RGBA) : RGBA :=
  for_lt 0 renderHeight
    (fun y => for_lt 0 renderWidth
       (fun x p => RGBA_Set p x y (color.RGBA 0 0 0 0)))
    img.

(** [srcX := int(float64(x) * float64(scale))] *)
Definition src (v : Z) (scale : float32) : option Z :=
  to_int (mul64 (f64_of_int v) (f64_of_f32 scale)).

(** The body of the inner downsampling loop. *)
Definition sample (img : RGBA) (scale : float32) (renderWidth renderHeight : Z)
    (y x : Z) (acc : option RGBA) : option RGBA :=
  Scaling.bind acc (fun finalImg =>
  Scaling.bind (src x scale) (fun srcX =>
  Scaling.bind (src y scale) (fun srcY =>
  if (srcX <? renderWidth) && (srcY <? renderHeight)
  then Some (RGBA_Set finalImg x y (RGBA_At img srcX srcY))
  else Some finalImg))).

(** The block guarded by [scale != 1.0]. *)
Definition downsample (img : RGBA) (width height : float64) (scale : float32)
    (renderWidth renderHeight : Z) : option RGBA :=
  Scaling.bind (to_int width) (fun iw =>
  Scaling.bind (to_int height) (fun ih =>
  Scaling.bind (NewRGBA (Rect 0 0 iw ih)) (fun finalImg =>
  for_lt 0 ih
    (fun y => for_lt 0 iw (sample img scale renderWidth renderHeight y))
    (Some finalImg)))).

(** The working canvas after [icon.Draw], for the clamped scale. *)
Definition canvas (icon : SvgIcon) (scale : float32) : option RGBA :=
  let '(width, height) := intrinsic icon in
  Scaling.bind (renderDims width height scale) (fun '(renderWidth, renderHeight) =>
  Scaling.bind (NewRGBA (Rect 0 0 renderWidth renderHeight)) (fun img =>
  let img := clear renderWidth renderHeight img in
  Some (Draw icon (mul64 width (f64_of_f32 scale))
                  (mul64 height (f64_of_f32 scale)) img))).

(** The part of [loadSVGWithScale] that follows the clamp. *)
Definition render (icon : SvgIcon) (scale : float32) : option RGBA :=
  let '(width, height) := intrinsic icon in
  Scaling.bind (renderDims width height scale) (fun '(renderWidth, renderHeight) =>
  Scaling.bind (canvas icon scale) (fun img =>
  if ne scale one32
  then downsample img width height scale renderWidth renderHeight
  else Some img)).

(** [loadSVGWithScale] from the parsed icon on; [None] is a panic or a
    conversion whose result the language does not define. *)
Definition rasterize (icon : SvgIcon) (scale : float32) : option RGBA :=
  render icon (clampScale scale).

(** What the downsampling pass reads for the sample coordinates
    [(sx, sy)]. *)
Definition sampled (img : RGBA) (renderWidth renderHeight sx sy : Z)
  : color.Color :=
  if (sx <? renderWidth) && (sy <? renderHeight)
  then RGBA_At img sx sy else color.transparent.

(** The pixel [(px, py)] is visited before the loops reach [(x, y)]. *)
Definition visited (y x px py : Z) : bool :=
  (py <? y) || ((py =? y) && (px <? x)).

(** The state of the downsampling loops at [(x, y)], where [fx] gives the
    sample coordinate of an output coordinate. *)
Definition downsampled (img : RGBA) (fx : Z -> Z)
    (renderWidth renderHeight iw ih y x : Z) (acc : option RGBA) : Prop :=
  exists p,
    acc = Some p /\ wf p /\ RGBA_Rect p = Rectangle_ (Pt 0 0) (Pt iw ih) /\
    forall px py, 0 <= px < iw -> 0 <= py < ih ->
      RGBA_At p px py =
        if visited y x px py
        then sampled img renderWidth renderHeight (fx px) (fx py)
        else color.transparent.

(** The external rasteriser draws into the canvas it is given. *)
Definition draws_in_place (icon : SvgIcon) : Prop :=
  forall w h p, wf p -> wf (Draw icon w h p) /\
                        RGBA_Rect (Draw icon w h p) = RGBA_Rect p.

(** *** [loadSVG] after parsing

    The older loader has its own copy of the steps, written with the
    [float64] variable [scale := 2.0]. *)

(** [scale := 2.0] *)
Definition fixedScale : float64 := f64 2 0.

(** [renderWidth := int(width * scale)], [renderHeight := int(height * scale)] *)
Definition renderDimsFixed (width height : float64) : option (Z * Z) :=
  Scaling.bind (to_int (mul64 width fixedScale)) (fun renderWidth =>
  Scaling.bind (to_int (mul64 height fixedScale)) (fun renderHeight =>
  Some (renderWidth, renderHeight))).

(** [srcX := int(float64(x) * scale)] *)
Definition srcFixed (v : Z) : option Z :=
  to_int (mul64 (f64_of_int v) fixedScale).

(** The body of the inner downsampling loop of [loadSVG]. *)
Definition sampleFixed (img : RGBA) (renderWidth renderHeight : Z)
    (y x : Z) (acc : option RGBA) : option RGBA :=
  Scaling.bind acc (fun finalImg =>
  Scaling.bind (srcFixed x) (fun srcX =>
  Scaling.bind (srcFixed y) (fun srcY =>
  if (srcX <? renderWidth) && (srcY <? renderHeight)
  then Some (RGBA_Set finalImg x y (RGBA_At img srcX srcY))
  else Some finalImg))).

(** The block guarded by [scale != 1.0] in [loadSVG]. *)
Definition downsampleFixed (img : RGBA) (width height : float64)
    (renderWidth renderHeight : Z) : option RGBA :=
  Scaling.bind (to_int width) (fun iw =>
  Scaling.bind (to_int height) (fun ih =>
  Scaling.bind (NewRGBA (Rect 0 0 iw ih)) (fun finalImg =>
  for_lt 0 ih
    (fun y => for_lt 0 iw (sampleFixed img renderWidth renderHeight y))
    (Some finalImg)))).

(** [loadSVG] from the parsed icon on. *)
Definition renderFixed (icon : SvgIcon) : option RGBA :=
  let '(width, height) := intrinsic icon in
  Scaling.bind (renderDimsFixed width height) (fun '(renderWidth, renderHeight) =>
  Scaling.bind (NewRGBA (Rect 0 0 renderWidth renderHeight)) (fun img =>
  let img :=
    for_lt 0 renderHeight
      (fun y => for_lt 0 renderWidth
         (fun x p => RGBA_Set p x y (color.RGBA 0 0 0 0)))
      img in
  let img := Draw icon (mul64 width fixedScale) (mul64 height fixedScale) img in
  if ne fixedScale (f64 1 0)
  then downsampleFixed img width height renderWidth renderHeight
  else Some img)).

End Rasterizer.

(** ** A sample icon *)

Module RasterSamples.
Import Float image Rasterizer.

(** A 2x3 icon whose rasterisation puts one opaque red pixel at (2, 4) of
    the working canvas. *)
Definition dot_icon : SvgIcon :=
  SvgIcon_ (f64 2 0) (f64 3 0)
           (fun _ _ p => RGBA_Set p 2 4 (color.RGBA 255 0 0 255)).

End RasterSamples.

(** ** Strings and paths *)

Module GoStrings.

Definition byte_of (c : ascii) : N := N_of_ascii c.

(** A byte below [utf8.RuneSelf]. *)
Definition is_ascii_byte (c : ascii) : bool := (byte_of c <? 128)%N.

Fixpoint isASCII (s : string) : bool :=
  match s with
  | EmptyString => true
  | String c rest => is_ascii_byte c && isASCII rest
  end.

(** ['A' <= c && c <= 'Z'] and [c += 'a' - 'A']. *)
Definition lower_byte (c : ascii) : ascii :=
  if ((65 <=? byte_of c) && (byte_of c <=? 90))%N
  then ascii_of_N (byte_of c + 32) else c.

Fixpoint lower_bytes (s : string) : string :=
  match s with
  | EmptyString => EmptyString
  | String c rest => String (lower_byte c) (lower_bytes rest)
  end.

(** [strings.ToLower]: the byte-wise path for ASCII strings; otherwise
    the mapping of [unicode.ToLower] over the runes, which the standard
    library's tables give. *)
Definition ToLower (unicode_lower : string -> string) (s : string) : string :=
  if isASCII s then lower_bytes s else unicode_lower s.

(** [os.IsPathSeparator] *)
Definition is_sep (c : ascii) : bool := (byte_of c =? 47)%N.

(** The backward loop of [filepath.Ext] over the reversed path; [acc] is
    the suffix already passed. *)
Fixpoint ext_scan (rev_path : list ascii) (acc : string) : string :=
  match rev_path with
  | [] => EmptyString
  | c :: rest =>
      if is_sep c then EmptyString
      else if (byte_of c =? 46)%N then String c acc
      else ext_scan rest (String c acc)
  end.

(** [filepath.Ext] *)
Definition Ext (path : string) : string :=
  ext_scan (rev (list_ascii_of_string path)) EmptyString.

End GoStrings.

(** ** Orchestrator: [ScaleImage] with its input and output *)

Module Orchestrator.
Import Float image.

(** The reconstruction filters of the resampling library. *)
Inductive ResampleFilter : Type := NearestNeighbor | Linear | CatmullRom | Lanczos.

(** The collaborators outside the processor: the file system, the
    decoders and the vector parser, the resampler, the encoders, the
    tables of [unicode.ToLower], [filepath.Dir], and what the platform
    yields for a float-to-int conversion the language leaves open, and
    whether [Stat] on the output file succeeds. *)
Record Env : Type := Env_ {
  fs_open : string -> bool;
  fs_read_all : string -> option string;
  svg_parse : string -> option Rasterizer.SvgIcon;
  png_decode : string -> option Image;
  jpeg_decode : string -> option Image;
  image_decode : string -> option Image;
  resize : Image -> Z -> Z -> ResampleFilter -> Image;
  mkdir_all : string -> bool;
  fs_create : string -> bool;
  png_encode : Image -> bool;
  jpeg_encode : Image -> Z -> bool;
  webp_options : float32 -> bool;
  webp_encode : Image -> float32 -> bool;
  unicode_lower : string -> string;
  path_dir : string -> string;
  impl_dims : Z -> Z -> float32 -> Z -> Z -> Z * Z;
  impl_quality : float32 -> Z;
  fs_stat : string -> bool
}.

(** Input and output actions, in the order they happen. *)
Inductive event : Type :=
| EvOpen (path : string)
| EvRead (path : string)
| EvClose (path : string)
| EvPrint (format : string)
| EvMkdirAll (dir : string)
| EvCreate (path : string)
| EvWrite (path : string)
| EvStat (path : string).

(** The actions that touch the output location. *)
Definition is_output (e : event) : bool :=
  match e with
  | EvMkdirAll _ | EvCreate _ | EvWrite _ | EvStat _ => true
  | _ => false
  end.

(** The errors of the processor; a constructor with a cause is an error
    wrapped by [fmt.Errorf("...: %w", err)]. *)
Inductive error : Type :=
| OpenFailed (path : string)
| ReadFailed (path : string)
| ParseFailed
| DecodeFailed
| Panicked
| FailedToOpenSVG (cause : error)
| FailedToReadSVG (cause : error)
| FailedToParseSVG (cause : error)
| FailedToLoadSVG (cause : error)
| FailedToLoadImage (cause : error)
| UnsupportedAlgorithm (algorithm : string)
| FailedToCreateDir
| FailedToCreateFile
| FailedEncoderOptions
| UnsupportedFormat (ext : string)
| FailedToEncode.

(** A computation: the trace of its actions and its error or result. *)
Definition M (A : Type) : Type := list event * (error + A).

Definition ret {A : Type} (a : A) : M A := ([], inr a).
Definition fail {A : Type} (e : error) : M A := ([], inl e).
Definition emit (e : event) : M unit := ([e], inr tt).

Definition bind {A B : Type} (m : M A) (k : A -> M B) : M B :=
  match m with
  | (tr, inl e) => (tr, inl e)
  | (tr, inr a) => let '(tr', r) := k a in (tr ++ tr', r)
  end.

(** [defer file.Close()]: the action [e] happens when [m] returns,
    whatever its outcome. *)
Definition defer {A : Type} (e : event) (m : M A) : M A :=
  let '(tr, r) := m in (tr ++ [e], r).

(** [if err != nil { return fmt.Errorf("...: %w", err) }] *)
Definition wrap {A : Type} (w : error -> error) (m : M A) : M A :=
  match m with
  | (tr, inl e) => (tr, inl (w e))
  | (tr, inr a) => (tr, inr a)
  end.

Definition trace {A : Type} (m : M A) : list event := fst m.
Definition outcome {A : Type} (m : M A) : error + A := snd m.

Notation "x <- m ;; k" := (bind m (fun x => k))
  (at level 100, m at next level, right associativity).
Notation "m ;;; k" := (bind m (fun _ => k))
  (at level 100, right associativity).

Definition of_option {A : Type} (e : error) (o : option A) : M A :=
  match o with Some a => ret a | None => fail e end.

Definition check (e : error) (ok : bool) : M unit :=
  if ok then ret tt else fail e.

(** The error [e] is not an [UnsupportedAlgorithm]. *)
Definition other_error (e : error) : Prop :=
  match e with UnsupportedAlgorithm _ => False | _ => True end.

Section WithEnv.
Variable env : Env.

Definition ToLower : string -> string := GoStrings.ToLower (unicode_lower env).

(** [loadSVGWithScale] *)
Definition loadSVGWithScale (path : string) (scale : float32) : M Image :=
  emit (EvOpen path) ;;;
  wrap FailedToOpenSVG (check (OpenFailed path) (fs_open env path)) ;;;
  defer (EvClose path) (
    emit (EvRead path) ;;;
    svgData <- wrap FailedToReadSVG
                 (of_option (ReadFailed path) (fs_read_all env path)) ;;
    emit (EvPrint "Loading SVG: %d bytes\n") ;;;
    icon <- wrap FailedToParseSVG (of_option ParseFailed (svg_parse env svgData)) ;;
    emit (EvPrint "Rendering SVG at %.0fx%.0f (%.1fx scale for quality)\n") ;;;
    img <- of_option Panicked (Rasterizer.rasterize icon scale) ;;
    emit (EvPrint "SVG successfully converted to raster image\n") ;;;
    ret (of_RGBA img)).

(** [loadSVG] *)
Definition loadSVG (path : string) : M Image :=
  emit (EvOpen path) ;;;
  wrap FailedToOpenSVG (check (OpenFailed path) (fs_open env path)) ;;;
  defer (EvClose path) (
    emit (EvRead path) ;;;
    svgData <- wrap FailedToReadSVG
                 (of_option (ReadFailed path) (fs_read_all env path)) ;;
    emit (EvPrint "Loading SVG: %d bytes\n") ;;;
    icon <- wrap FailedToParseSVG (of_option ParseFailed (svg_parse env svgData)) ;;
    emit (EvPrint "Rendering SVG at %.0fx%.0f (2x resolution for quality)\n") ;;;
    img <- of_option Panicked (Rasterizer.renderFixed icon) ;;
    emit (EvPrint "SVG successfully converted to raster image\n") ;;;
    ret (of_RGBA img)).

(** [LoadImage] *)
Definition LoadImage (path : string) : M Image :=
  let ext := ToLower (GoStrings.Ext path) in
  if String.eqb ext ".svg" then loadSVG path
  else
    emit (EvOpen path) ;;;
    check (OpenFailed path) (fs_open env path) ;;;
    defer (EvClose path) (
      emit (EvRead path) ;;;
      if String.eqb ext ".png" then
        of_option DecodeFailed (png_decode env path)
      else if String.eqb ext ".jpg" || String.eqb ext ".jpeg" then
        of_option DecodeFailed (jpeg_decode env path)
      else
        of_option DecodeFailed (image_decode env path)).

(** The [switch strings.ToLower(algorithm)] of [ScaleImage]; [None] is
    its [default] branch. *)
Definition selectFilter (algorithm : string) : option ResampleFilter :=
  let a := ToLower algorithm in
  if String.eqb a "nearest" then Some NearestNeighbor
  else if String.eqb a "bilinear" || String.eqb a "linear" then Some Linear
  else if String.eqb a "bicubic" || String.eqb a "cubic" then Some CatmullRom
  else if String.eqb a "lanczos" then Some Lanczos
  else None.

(** [saveImage] *)
Definition saveImage (img : Image) (outputPath : string) (quality : float32)
  : M unit :=
  let outputDir := path_dir env outputPath in
  emit (EvMkdirAll outputDir) ;;;
  check FailedToCreateDir (mkdir_all env outputDir) ;;;
  emit (EvCreate outputPath) ;;;
  check FailedToCreateFile (fs_create env outputPath) ;;;
  defer (EvClose outputPath) (
    let ext := ToLower (GoStrings.Ext outputPath) in
    (if String.eqb ext ".png" then
       emit (EvWrite outputPath) ;;;
       check FailedToEncode (png_encode env img)
     else if String.eqb ext ".jpg" || String.eqb ext ".jpeg" then
       let jpegQuality :=
         default (Codec.rangeTests (impl_quality env quality))
                 (Codec.jpegQuality quality) in
       emit (EvWrite outputPath) ;;;
       check FailedToEncode (jpeg_encode env img jpegQuality)
     else if String.eqb ext ".webp" then
       check FailedEncoderOptions (webp_options env quality) ;;;
       emit (EvWrite outputPath) ;;;
       check FailedToEncode (webp_encode env img quality)
     else fail (UnsupportedFormat ext)) ;;;
    emit (EvStat outputPath) ;;;
    if fs_stat env outputPath
    then emit (EvPrint "Output file size: %.2f KB\n")
    else ret tt).

(** The loading step of [ScaleImage]. *)
Definition loadInput (inputPath : string) (svgScale : float32) : M Image :=
  if String.eqb (ToLower (GoStrings.Ext inputPath)) ".svg"
  then wrap FailedToLoadSVG (loadSVGWithScale inputPath svgScale)
  else wrap FailedToLoadImage (LoadImage inputPath).

(** [ScaleImage] *)
Definition ScaleImage (inputPath outputPath : string) (factor : float32)
    (width height : Z) (algorithm : string) (quality svgScale : float32)
  : M unit :=
  img <- loadInput inputPath svgScale ;;
  let bounds := Bounds img in
  let originalWidth := Dx bounds in
  let originalHeight := Dy bounds in
  let '(targetWidth, targetHeight) :=
    default (impl_dims env originalWidth originalHeight factor width height)
      (Scaling.targetDims originalWidth originalHeight factor width height) in
  emit (EvPrint "Scaling from %dx%d to %dx%d\n") ;;;
  match selectFilter algorithm with
  | Some filter =>
      let scaledImg := resize env img targetWidth targetHeight filter in
      saveImage scaledImg outputPath quality
  | None => fail (UnsupportedAlgorithm algorithm)
  end.

(** The algorithm name is one the dispatch knows. *)
Definition recognized (algorithm : string) : Prop :=
  List.In (ToLower algorithm)
    ["nearest"; "bilinear"; "linear"; "bicubic"; "cubic"; "lanczos"]%string.

(** The computation [m] performs no action on the output location. *)
Definition quiet {A : Type} (m : M A) : Prop :=
  Forall (fun e => is_output e = false) (trace m).

(** The computation [m] does not end in [UnsupportedAlgorithm]. *)
Definition accepts {A : Type} (m : M A) : Prop :=
  forall a, outcome m <> inl (UnsupportedAlgorithm a).

(** The operation fails with [UnsupportedAlgorithm] without any input
    or output action. *)
Definition fails_without_io (inputPath outputPath : string)
    (factor : float32) (width height : Z) (algorithm : string)
    (quality svgScale : float32) : Prop :=
  ScaleImage inputPath outputPath factor width height algorithm quality svgScale
  = ([], inl (UnsupportedAlgorithm algorithm)).

End WithEnv.

(** A world with one 2x2 PNG file [in.png]; everything succeeds. *)
Definition sample_env : Env :=
  Env_ (fun path => String.eqb path "in.png")
       (fun _ => None)
       (fun _ => None)
       (fun _ => Some (Cropper.of_rows 2
                         [[color.RGBA 255 0 0 255; color.RGBA 0 0 0 255];
                          [color.RGBA 0 0 0 255; color.RGBA 255 0 0 255]]))
       (fun _ => None)
       (fun _ => None)
       (fun img w h _ => Image_ (Rect 0 0 w h) (fun _ _ => color.NRGBA 0 0 0 0))
       (fun _ => true)
       (fun _ => true)
       (fun _ => true)
       (fun _ _ => true)
       (fun _ => true)
       (fun _ _ => true)
       (fun s => s)
       (fun _ => "."%string)
       (fun _ _ _ _ _ => (0, 0))
       (fun _ => 0)
       (fun _ => true).

End Orchestrator.

(** ** The test-image generator: create-test-image.go *)

Module TestImage.
Import image.

(** [for y := y0; y < y1; y++ { for x := x0; x < x1; x++ { img.Set(x, y, c) } }] *)
Definition fill (x0 y0 x1 y1 : Z) (c : color.Color) (img : RGBA) : RGBA :=
  for_lt y0 y1 (fun y => for_lt x0 x1 (fun x p => RGBA_Set p x y c)) img.

(** The state of [fill] when the loops reach [(x, y)]: the pixels of the
    block visited so far hold [c], the others are those of [p0]. *)
Definition filled (x0 y0 x1 y1 : Z) (c : color.Color) (p0 : RGBA)
    (y x : Z) (p : RGBA) : Prop :=
  wf p /\ RGBA_Rect p = RGBA_Rect p0 /\
  forall px py,
    RGBA_At p px py =
      if In px py (RGBA_Rect p0) && (x0 <=? px) && (px <? x1) &&
         (y0 <=? py) && ((py <? y) || ((py =? y) && (px <? x)))
      then color.rgbaModel c else RGBA_At p0 px py.

(** The image [main] builds before encoding it: a 100x100 canvas filled with
    transparent pixels, then an opaque red square on [30, 70) x [30, 70). *)
Definition main_image : option RGBA :=
  match NewRGBA (Rect 0 0 100 100) with
  | Some img =>
      Some (fill 30 30 70 70 (color.RGBA 255 0 0 255)
              (fill 0 0 100 100 (color.RGBA 0 0 0 0) img))
  | None => None
  end.

(** The image [img] moved by [(dx, dy)]. *)
Definition translate (dx dy : Z) (img : Image) : Image :=
  Image_ (Rectangle_ (Pt (X (Min (Bounds img)) + dx) (Y (Min (Bounds img)) + dy))
                     (Pt (X (Max (Bounds img)) + dx) (Y (Max (Bounds img)) + dy)))
         (fun x y => At img (x - dx) (y - dy)).

End TestImage.

(** ** Suffixes of strings *)

Module GoSuffix.

(** [strings.HasSuffix]:
    [len(s) >= len(suffix) && s[len(s)-len(suffix):] == suffix] *)
Definition HasSuffix (s suffix : string) : bool :=
  let l := list_ascii_of_string s in
  let f := list_ascii_of_string suffix in
  (length f <=? length l)%nat &&
  String.eqb (string_of_list_ascii (drop (length l - length f) l)) suffix.

(** [strings.TrimSuffix] *)
Definition TrimSuffix (s suffix : string) : string :=
  if HasSuffix s suffix then
    let l := list_ascii_of_string s in
    let f := list_ascii_of_string suffix in
    string_of_list_ascii (take (length l - length f) l)
  else s.

End GoSuffix.

(** ** The optimizer: [OptimizeImage], [OptimizeImageWithScale], [saveAsWebP] *)

Module Optimizer.
Import Float image Orchestrator.

(** The errors of the optimizer, by their messages. *)
Inductive opt_error : Type :=
| LoadSVGFailed (cause : error)
| OpenInputFailed (path : string)
| DecodeInputFailed
| CropPanicked
| CreateDirFailed
| CreateFileFailed
| EncoderOptionsFailed
| EncodeWebPFailed.

(** A computation of the optimizer: its trace and its error or result. *)
Definition R (A : Type) : Type := list event * (opt_error + A).

Definition pure {A : Type} (a : A) : R A := ([], inr a).
Definition act (e : event) : R unit := ([e], inr tt).

Definition guard (e : opt_error) (ok : bool) : R unit :=
  if ok then ([], inr tt) else ([], inl e).

Definition need {A : Type} (e : opt_error) (o : option A) : R A :=
  match o with Some a => ([], inr a) | None => ([], inl e) end.

Definition andThen {A B : Type} (m : R A) (k : A -> R B) : R B :=
  match m with
  | (tr, inl e) => (tr, inl e)
  | (tr, inr a) => let '(tr', r) := k a in (tr ++ tr', r)
  end.

(** [defer file.Close()] *)
Definition finally {A : Type} (e : event) (m : R A) : R A :=
  let '(tr, r) := m in (tr ++ [e], r).

(** A call into the loaders, its error wrapped by [w]. *)
Definition lift {A : Type} (w : error -> opt_error) (m : M A) : R A :=
  match m with
  | (tr, inl e) => (tr, inl (w e))
  | (tr, inr a) => (tr, inr a)
  end.

Section WithEnv.
Variable env : Env.

(** Whether [Stat] on the open output file succeeds. *)
Variable stat_ok : string -> bool.

(** [saveAsWebP] *)
Definition saveAsWebP (img : Image) (outputPath : string) (quality : float32)
  : R unit :=
  let outputDir := path_dir env outputPath in
  andThen (act (EvMkdirAll outputDir)) (fun _ =>
  andThen (guard CreateDirFailed (mkdir_all env outputDir)) (fun _ =>
  andThen (act (EvCreate outputPath)) (fun _ =>
  andThen (guard CreateFileFailed (fs_create env outputPath)) (fun _ =>
  finally (EvClose outputPath) (
    andThen (guard EncoderOptionsFailed (webp_options env quality)) (fun _ =>
    andThen (act (EvWrite outputPath)) (fun _ =>
    andThen (guard EncodeWebPFailed (webp_encode env img quality)) (fun _ =>
    andThen (act (EvStat outputPath)) (fun _ =>
    if stat_ok outputPath
    then act (EvPrint "Output file size: %.2f KB\n")
    else pure tt))))))))).

(** The part both entry points share, from the loaded image on. *)
Definition cropAndSave (img : Image) (outputPath : string) (quality : float32)
  : R unit :=
  andThen (need CropPanicked (Cropper.cropTransparentAreas img)) (fun croppedImg =>
  saveAsWebP (of_RGBA croppedImg) outputPath quality).

(** The branch for raster inputs: the input file stays open until the
    function returns. *)
Definition optimizeRaster (inputPath outputPath : string) (quality : float32)
  : R unit :=
  andThen (act (EvOpen inputPath)) (fun _ =>
  andThen (guard (OpenInputFailed inputPath) (fs_open env inputPath)) (fun _ =>
  finally (EvClose inputPath) (
    andThen (act (EvRead inputPath)) (fun _ =>
    andThen (need DecodeInputFailed (image_decode env inputPath)) (fun img =>
    cropAndSave img outputPath quality))))).

(** [OptimizeImage] *)
Definition OptimizeImage (inputPath outputPath : string) (quality : float32)
  : R unit :=
  if String.eqb (ToLower env (GoStrings.Ext inputPath)) ".svg" then
    andThen (lift LoadSVGFailed (loadSVG env inputPath)) (fun img =>
    cropAndSave img outputPath quality)
  else optimizeRaster inputPath outputPath quality.

(** [OptimizeImageWithScale] *)
Definition OptimizeImageWithScale (inputPath outputPath : string)
    (quality svgScale : float32) : R unit :=
  if String.eqb (ToLower env (GoStrings.Ext inputPath)) ".svg" then
    andThen (lift LoadSVGFailed (loadSVGWithScale env inputPath svgScale)) (fun img =>
    cropAndSave img outputPath quality)
  else optimizeRaster inputPath outputPath quality.

End WithEnv.

(** The errors raised before [saveAsWebP] is entered. *)
Definition before_saving (e : opt_error) : Prop :=
  match e with
  | LoadSVGFailed _ | OpenInputFailed _ | DecodeInputFailed | CropPanicked => True
  | _ => False
  end.

(** The actions of a trace on files and directories, without the progress
    messages. *)
Definition file_actions (tr : list event) : list event :=
  List.filter (fun e => match e with EvPrint _ => false | _ => true end) tr.

End Optimizer.

(** ** The commands: cmd/image.go *)

Module Cli.
Import Float Orchestrator GoSuffix.

(** The errors of the two commands; [FailedToScale] and [FailedToOptimize]
    wrap the error of the processor. *)
Inductive cli_error : Type :=
| MustSpecify
| CannotCombine
| FailedToScale (cause : error)
| FailedToOptimize (cause : Optimizer.opt_error).

(** The two tests of the [scale] command on its flags; [None] lets the
    command go on. *)
Definition validateScale (factor : float32) (width height : Z)
  : option cli_error :=
  if eq factor zero && (width =? 0) && (height =? 0) then Some MustSpecify
  else if ne factor zero && (negb (width =? 0) || negb (height =? 0))
       then Some CannotCombine
  else None.

(** [RunE] of the [scale] command, from the parsed flags on. *)
Definition scaleRun (env : Env) (inputPath outputPath : string)
    (factor : float32) (width height : Z) (algorithm : string)
    (quality svgScale : float32) : list event * (cli_error + unit) :=
  match validateScale factor width height with
  | Some e => ([], inl e)
  | None =>
      match ScaleImage env inputPath outputPath factor width height
              algorithm quality svgScale with
      | (tr, inl e) => (tr, inl (FailedToScale e))
      | (tr, inr _) =>
          (tr ++ [EvPrint "Successfully scaled %s -> %s\n"], inr tt)
      end
  end.

(** The integer part of a product by a power of two. *)
Definition scale_pow2 (n k : Z) : Z :=
  if 0 <=? k then n * 2 ^ k else n / 2 ^ (- k).

(** The output path of the [optimize] command after
    "Ensure output has .webp extension". *)
Definition webpPath (env : Env) (outputPath : string) : string :=
  if negb (HasSuffix (ToLower env outputPath) ".webp") then
    let ext := GoStrings.Ext outputPath in
    if negb (String.eqb ext "") then (TrimSuffix outputPath ext ++ ".webp")%string
    else (outputPath ++ ".webp")%string
  else outputPath.

(** [RunE] of the [optimize] command, from the parsed flags on. *)
Definition optimizeRun (env : Env) (stat_ok : string -> bool)
    (inputPath outputPath : string) (quality svgScale : float32)
  : list event * (cli_error + unit) :=
  let pre :=
    if negb (HasSuffix (ToLower env outputPath) ".webp")
    then [EvPrint "Output will be saved as: %s\n"] else [] in
  match Optimizer.OptimizeImageWithScale env stat_ok inputPath
          (webpPath env outputPath) quality svgScale with
  | (tr, inl e) => (pre ++ tr, inl (FailedToOptimize e))
  | (tr, inr _) =>
      (pre ++ tr ++ [EvPrint "Successfully optimized %s -> %s\n"], inr tt)
  end.

End Cli.

(** ** File handles *)

Module Handles.
Import Orchestrator.

Fixpoint remove_first (p : string) (hs : list string) : option (list string) :=
  match hs with
  | [] => None
  | h :: rest =>
      if String.eqb h p then Some rest
      else match remove_first p rest with
           | Some rest' => Some (h :: rest')
           | None => None
           end
  end.

Definition is_open (p : string) (hs : list string) : bool :=
  existsb (String.eqb p) hs.

(** The open handles after an action, given those before it: a successful
    [os.Open] or [os.Create] adds one, [Close] releases one; [None] when a
    file is read, written, inspected or closed without an open handle. *)
Definition step (env : Env) (hs : list string) (e : event)
  : option (list string) :=
  match e with
  | EvOpen p => Some (if fs_open env p then p :: hs else hs)
  | EvCreate p => Some (if fs_create env p then p :: hs else hs)
  | EvClose p => remove_first p hs
  | EvRead p | EvWrite p | EvStat p => if is_open p hs then Some hs else None
  | EvPrint _ | EvMkdirAll _ => Some hs
  end.

Fixpoint run (env : Env) (tr : list event) (hs : list string)
  : option (list string) :=
  match tr with
  | [] => Some hs
  | e :: rest =>
      match step env hs e with
      | Some hs' => run env rest hs'
      | None => None
      end
  end.

(** A computation that uses files only while they are open and leaves the
    set of open handles as it found it. *)
Definition bracketed {A : Type} (env : Env) (m : M A) : Prop :=
  forall hs, run env (trace m) hs = Some hs.

(** A computation that works on the open file [p] and leaves the handles
    as it found them. *)
Definition bracketed_in {A : Type} (env : Env) (p : string) (m : M A) : Prop :=
  forall hs, run env (trace m) (p :: hs) = Some (p :: hs).

End Handles.

(** * Properties *)

(** ** Loops *)

Section Loops.
Context {St : Type}.
Implicit Types (body : Z -> St -> St) (s : St).

Lemma fold_seqZ_inv (P : Z -> St -> Prop) lo body (n : nat) s :
  P lo s ->
  (forall v t, lo <= v < lo + Z.of_nat n -> P v t -> P (v + 1) (body v t)) ->
  P (lo + Z.of_nat n)
    (fold_left (fun acc v => body v acc) (seqZ lo (Z.of_nat n)) s).
Proof.
  intros H0. induction n as [|n IH]; intros Hstep.
  - rewrite seqZ_nil by lia. simpl. now replace (lo + Z.of_nat 0) with lo by lia.
  - rewrite seqZ_S, fold_left_app. simpl.
    replace (lo + Z.of_nat (S n)) with (lo + Z.of_nat n + 1) by lia.
    apply Hstep; [lia|]. apply IH. intros v t Hv. apply Hstep. lia.
Qed.

Lemma for_lt_inv (P : Z -> St -> Prop) lo hi body s :
  lo <= hi -> P lo s ->
  (forall v t, lo <= v < hi -> P v t -> P (v + 1) (body v t)) ->
  P hi (for_lt lo hi body s).
Proof.
  intros Hle H0 Hstep. unfold for_lt.
  pose proof (fold_seqZ_inv P lo body (Z.to_nat (hi - lo)) s H0) as H.
  rewrite Z2Nat.id in H by lia.
  replace (lo + (hi - lo)) with hi in H by lia. apply H.
  intros v t Hv. apply Hstep. lia.
Qed.

Lemma for_lt_empty lo hi body s : hi <= lo -> for_lt lo hi body s = s.
Proof. intros H. unfold for_lt. now rewrite seqZ_nil by lia. Qed.

Lemma for_le_for_lt lo hi body s :
  for_le lo hi body s = for_lt lo (hi + 1) body s.
Proof. unfold for_le, for_lt. do 2 f_equal. lia. Qed.

End Loops.

(** ** The pixel store of [image.RGBA] *)

Section PixelStore.
Import image.

Lemma byte_at_insert_eq (l : list Z) i v :
  0 <= i < Z.of_nat (length l) -> byte_at (<[Z.to_nat i := v]> l) i = v.
Proof.
  intros H. unfold byte_at. rewrite list_lookup_insert_eq by lia. reflexivity.
Qed.

Lemma byte_at_insert_ne (l : list Z) i j v :
  0 <= i -> 0 <= j -> i <> j -> byte_at (<[Z.to_nat i := v]> l) j = byte_at l j.
Proof.
  intros Hi Hj Hne. unfold byte_at. rewrite list_lookup_insert_ne by lia.
  reflexivity.
Qed.

Lemma rgbaModel_is_RGBA c : exists r g b a, color.rgbaModel c = color.RGBA r g b a.
Proof. destruct c; simpl; eauto. Qed.

Lemma RGBA_Set_Rect p x y c : RGBA_Rect (RGBA_Set p x y c) = RGBA_Rect p.
Proof.
  unfold RGBA_Set. destruct (In x y _); [|reflexivity].
  destruct (color.rgbaModel c); reflexivity.
Qed.

Lemma RGBA_Set_Stride p x y c : Stride (RGBA_Set p x y c) = Stride p.
Proof.
  unfold RGBA_Set. destruct (In x y _); [|reflexivity].
  destruct (color.rgbaModel c); reflexivity.
Qed.

Lemma RGBA_Set_length p x y c :
  length (Pix (RGBA_Set p x y c)) = length (Pix p).
Proof.
  unfold RGBA_Set. destruct (In x y _); [|reflexivity].
  destruct (color.rgbaModel c); simpl; rewrite ?length_insert; reflexivity.
Qed.

Lemma RGBA_Set_wf p x y c : wf p -> wf (RGBA_Set p x y c).
Proof.
  unfold wf. rewrite RGBA_Set_Rect, RGBA_Set_Stride, RGBA_Set_length. tauto.
Qed.

Lemma In_spec x y r :
  In x y r = true <->
  X (Min r) <= x < X (Max r) /\ Y (Min r) <= y < Y (Max r).
Proof. unfold In. rewrite !andb_true_iff. lia. Qed.

(** Inside the rectangle of a well-formed image the four bytes of a pixel
    lie within [Pix]. *)
Lemma PixOffset_bounds p x y :
  wf p -> In x y (RGBA_Rect p) = true ->
  0 <= PixOffset p x y /\ PixOffset p x y + 3 < Z.of_nat (length (Pix p)).
Proof.
  intros (Hx & Hy & Hs & Hl) Hin. apply In_spec in Hin.
  unfold PixOffset. rewrite Hl, Hs. nia.
Qed.

(** Distinct pixels have disjoint byte ranges. *)
Lemma PixOffset_disjoint p x y x' y' :
  wf p -> In x y (RGBA_Rect p) = true -> In x' y' (RGBA_Rect p) = true ->
  (x, y) <> (x', y') ->
  PixOffset p x y + 3 < PixOffset p x' y' \/ PixOffset p x' y' + 3 < PixOffset p x y.
Proof.
  intros (Hx & Hy & Hs & Hl) Hin Hin' Hne.
  apply In_spec in Hin. apply In_spec in Hin'.
  unfold PixOffset. rewrite Hs.
  assert (y <> y' \/ (y = y' /\ x <> x')) as [Hy'|[-> Hx']].
  { destruct (Z.eq_dec y y'); [right|left; assumption].
    split; [assumption|]. intros ->. subst. now apply Hne. }
  - nia.
  - nia.
Qed.

Lemma PixOffset_Pix l p x y :
  PixOffset (RGBA_ l (Stride p) (RGBA_Rect p)) x y = PixOffset p x y.
Proof. reflexivity. Qed.

Lemma RGBA_At_Set_eq p x y c :
  wf p -> In x y (RGBA_Rect p) = true ->
  RGBA_At (RGBA_Set p x y c) x y = color.rgbaModel c.
Proof.
  intros Hwf Hin. destruct (PixOffset_bounds p x y Hwf Hin) as [H0 H3].
  unfold RGBA_At. rewrite RGBA_Set_Rect, Hin.
  unfold RGBA_Set. rewrite Hin.
  destruct (rgbaModel_is_RGBA c) as (r & g & b & a & ->).
  simpl Pix. rewrite !PixOffset_Pix. set (i := PixOffset p x y) in *.
  f_equal.
  - rewrite !byte_at_insert_ne by lia. apply byte_at_insert_eq. lia.
  - rewrite !byte_at_insert_ne by lia. apply byte_at_insert_eq.
    rewrite !length_insert. lia.
  - rewrite !byte_at_insert_ne by lia. apply byte_at_insert_eq.
    rewrite !length_insert. lia.
  - apply byte_at_insert_eq. rewrite !length_insert. lia.
Qed.

Lemma RGBA_At_Set_ne p x y c x' y' :
  wf p -> (x, y) <> (x', y') ->
  RGBA_At (RGBA_Set p x y c) x' y' = RGBA_At p x' y'.
Proof.
  intros Hwf Hne. unfold RGBA_At. rewrite RGBA_Set_Rect.
  destruct (In x' y' (RGBA_Rect p)) eqn:Hin'; [|reflexivity].
  unfold RGBA_Set. destruct (In x y (RGBA_Rect p)) eqn:Hin; [|reflexivity].
  destruct (rgbaModel_is_RGBA c) as (r & g & b & a & ->).
  destruct (PixOffset_bounds p x y Hwf Hin) as [H0 H3].
  destruct (PixOffset_bounds p x' y' Hwf Hin') as [H0' H3'].
  pose proof (PixOffset_disjoint p x y x' y' Hwf Hin Hin' Hne) as Hd.
  simpl Pix. rewrite !PixOffset_Pix.
  set (i := PixOffset p x y) in *. set (j := PixOffset p x' y') in *.
  f_equal; rewrite !byte_at_insert_ne by lia; reflexivity.
Qed.

End PixelStore.

(** ** The scan of the bounds detector *)

Section Scan.
Import image Cropper.
Variable img : Image.

Lemma scan_inv_equiv (Q Q' : Z -> Z -> Prop) s :
  (forall x y, Q x y <-> Q' x y) -> scan_inv img Q s -> scan_inv img Q' s.
Proof.
  intros HQ [Hf Ht]. split.
  - intros E. destruct (Hf E) as [-> Hn]. split; [reflexivity|].
    intros x y Hq. apply Hn, HQ, Hq.
  - intros E. destruct (Ht E) as (Hb & (y0 & ? & ?) & (y1 & ? & ?) &
                                  (x0 & ? & ?) & (x1 & ? & ?)).
    split; [intros x y Hq; apply Hb, HQ, Hq|].
    repeat split; eexists; (split; [apply HQ; eassumption|assumption]).
Qed.

Lemma scan_pixel_inv (Q : Z -> Z -> Prop) s x y :
  scan_inv img Q s -> In x y (Bounds img) = true ->
  scan_inv img (fun px py => Q px py \/ (px = x /\ py = y)) (scan_pixel img y x s).
Proof.
  intros [Hf Ht] Hin. apply In_spec in Hin. unfold scan_pixel.
  destruct (is_content (At img x y)) eqn:Hc.
  - split; [discriminate|]. intros _. simpl.
    destruct (foundContent s) eqn:Efound.
    + destruct (Ht eq_refl) as (Hb & (y0 & Hq0 & Hc0) & (y1 & Hq1 & Hc1) &
                                 (x0 & Hq2 & Hc2) & (x1 & Hq3 & Hc3)).
      split.
      { intros px py [Hq|[-> ->]] Hcp.
        - specialize (Hb px py Hq Hcp).
          destruct (Z.ltb_spec x (minX s)), (Z.gtb_spec x (maxX s)),
            (Z.ltb_spec y (minY s)), (Z.gtb_spec y (maxY s)); lia.
        - destruct (Z.ltb_spec x (minX s)), (Z.gtb_spec x (maxX s)),
            (Z.ltb_spec y (minY s)), (Z.gtb_spec y (maxY s)); lia. }
      repeat split.
      * destruct (Z.ltb_spec x (minX s)); eauto 6.
      * destruct (Z.gtb_spec x (maxX s)); eauto 6.
      * destruct (Z.ltb_spec y (minY s)); eauto 6.
      * destruct (Z.gtb_spec y (maxY s)); eauto 6.
    + destruct (Hf eq_refl) as [-> Hn]. simpl.
      assert (Ex0 : (if x <? X (Max (Bounds img)) then x else X (Max (Bounds img))) = x)
        by (destruct (Z.ltb_spec x (X (Max (Bounds img)))); lia).
      assert (Ex1 : (if x >? X (Min (Bounds img)) then x else X (Min (Bounds img))) = x)
        by (destruct (Z.gtb_spec x (X (Min (Bounds img)))); lia).
      assert (Ey0 : (if y <? Y (Max (Bounds img)) then y else Y (Max (Bounds img))) = y)
        by (destruct (Z.ltb_spec y (Y (Max (Bounds img)))); lia).
      assert (Ey1 : (if y >? Y (Min (Bounds img)) then y else Y (Min (Bounds img))) = y)
        by (destruct (Z.gtb_spec y (Y (Min (Bounds img)))); lia).
      rewrite Ex0, Ex1, Ey0, Ey1. split.
      { intros px py [Hq|[-> ->]] Hcp; [|lia].
        rewrite (Hn px py Hq) in Hcp. discriminate. }
      repeat split; eauto 6.
  - split.
    + intros E. destruct (Hf E) as [-> Hn]. split; [reflexivity|].
      intros px py [Hq|[-> ->]]; [now apply Hn|assumption].
    + intros E. destruct (Ht E) as (Hb & (y0 & ? & ?) & (y1 & ? & ?) &
                                    (x0 & ? & ?) & (x1 & ? & ?)).
      split.
      { intros px py [Hq|[-> ->]] Hcp; [now apply Hb|congruence]. }
      repeat split; eauto 6.
Qed.

(** After both loops every pixel of the bounds has been visited. *)
Lemma scan_image_inv :
  scan_inv img (fun x y => In x y (Bounds img) = true) (scan_image img).
Proof.
  unfold scan_image. set (b := Bounds img).
  assert (Hinit : forall Q : Z -> Z -> Prop,
             (forall x y, ~ Q x y) -> scan_inv img Q (scan_init b)).
  { intros Q HQ. split; [|discriminate]. intros _. split; [reflexivity|].
    intros x y Hq. now destruct (HQ x y). }
  destruct (Z.le_gt_cases (Y (Min b)) (Y (Max b))) as [Hy|Hy].
  2:{ rewrite for_lt_empty by lia. apply Hinit. intros x y Hin.
      apply In_spec in Hin. fold b in Hin. lia. }
  apply scan_inv_equiv with (Q := scanned_before b (Y (Max b)) (X (Min b))).
  { intros x y. unfold scanned_before. rewrite In_spec. lia. }
  apply (for_lt_inv (fun y s => scan_inv img (scanned_before b y (X (Min b))) s)).
  - assumption.
  - apply Hinit. intros x y [Hin H]. apply In_spec in Hin. lia.
  - intros y s Hyr Hs.
    destruct (Z.le_gt_cases (X (Min b)) (X (Max b))) as [Hx|Hx].
    2:{ rewrite for_lt_empty by lia. revert Hs. apply scan_inv_equiv.
        intros px py. unfold scanned_before. rewrite In_spec. lia. }
    apply scan_inv_equiv with (Q := scanned_before b y (X (Max b))).
    { intros px py. unfold scanned_before. rewrite In_spec. lia. }
    apply (for_lt_inv (fun x s => scan_inv img (scanned_before b y x) s));
      [assumption|assumption|].
    intros x t Hxr Ht.
    assert (Hin : In x y b = true) by (apply In_spec; lia).
    pose proof (scan_pixel_inv _ t x y Ht Hin) as H. revert H.
    apply scan_inv_equiv. intros px py. unfold scanned_before.
    rewrite In_spec. apply In_spec in Hin. lia.
Qed.

End Scan.

(** ** Machine arithmetic inside the [int] range *)

Lemma wrap_in_range z : GoInt.in_range z -> GoInt.wrap z = z.
Proof.
  unfold GoInt.in_range, GoInt.minInt, GoInt.maxInt, GoInt.wrap. intros H.
  rewrite Z.mod_small by lia. lia.
Qed.

Lemma sub_in_range a b : GoInt.in_range (a - b) -> GoInt.sub a b = a - b.
Proof. apply wrap_in_range. Qed.

Lemma add_in_range a b : GoInt.in_range (a + b) -> GoInt.add a b = a + b.
Proof. apply wrap_in_range. Qed.

Lemma mul_in_range a b : GoInt.in_range (a * b) -> GoInt.mul a b = a * b.
Proof. apply wrap_in_range. Qed.

(** ** Allocation *)

Section Allocation.
Import image.

Lemma Rect_canonical w h :
  0 <= w -> 0 <= h -> Rect 0 0 w h = Rectangle_ (Pt 0 0) (Pt w h).
Proof.
  intros Hw Hh. unfold Rect.
  destruct (Z.gtb_spec 0 w); [lia|]. destruct (Z.gtb_spec 0 h); [lia|].
  reflexivity.
Qed.

Lemma NewRGBA_origin w h :
  1 <= w -> 1 <= h -> 4 * w * h <= GoInt.maxInt ->
  NewRGBA (Rect 0 0 w h) =
    Some (RGBA_ (replicate (Z.to_nat (4 * w * h)) 0) (4 * w)
                (Rectangle_ (Pt 0 0) (Pt w h))).
Proof.
  intros Hw Hh Hsz. rewrite Rect_canonical by lia.
  assert (Hm : GoInt.maxInt = 9223372036854775807) by reflexivity.
  assert (Hn : GoInt.minInt = -9223372036854775808) by reflexivity.
  unfold NewRGBA, Dx, Dy. cbn [X Y Min Max].
  rewrite !sub_in_range by (unfold GoInt.in_range; nia).
  rewrite !Z.sub_0_r, mul_in_range by (unfold GoInt.in_range; nia).
  unfold mul3NonNeg.
  destruct (Z.ltb_spec 4 0); [lia|]. destruct (Z.ltb_spec w 0); [lia|].
  destruct (Z.ltb_spec h 0); [lia|]. cbn [orb].
  change (2 ^ 64) with 18446744073709551616.
  destruct (Z.leb_spec 18446744073709551616 (4 * w)); [nia|].
  destruct (Z.leb_spec 18446744073709551616 (4 * w * h)); [lia|].
  destruct (Z.gtb_spec (4 * w * h) GoInt.maxInt); [lia|].
  destruct (Z.ltb_spec (4 * w * h) 0); [nia|]. reflexivity.
Qed.

Lemma NewRGBA_origin_wf w h :
  1 <= w -> 1 <= h ->
  wf (RGBA_ (replicate (Z.to_nat (4 * w * h)) 0) (4 * w)
            (Rectangle_ (Pt 0 0) (Pt w h))).
Proof.
  intros Hw Hh. unfold wf. cbn [RGBA_Rect Stride Pix X Y Min Max].
  rewrite length_replicate. repeat split; nia.
Qed.

End Allocation.

(** ** The copying loops *)

Section Copy.
Import image Cropper.
Variable img : Image.
Variable s : scan.
Hypothesis Hx : minX s <= maxX s.
Hypothesis Hy : minY s <= maxY s.
Hypothesis Hxr : GoInt.in_range (maxX s - minX s + 1).
Hypothesis Hyr : GoInt.in_range (maxY s - minY s + 1).

Lemma copy_pixel p0 p (Q : Z -> Z -> Prop) x y :
  RGBA_Rect p0 =
    Rectangle_ (Pt 0 0) (Pt (maxX s - minX s + 1) (maxY s - minY s + 1)) ->
  minX s <= x <= maxX s -> minY s <= y <= maxY s ->
  copied img s Q p0 p ->
  copied img s (fun px py => Q px py \/ (px = x /\ py = y)) p0
    (RGBA_Set p (GoInt.sub x (minX s)) (GoInt.sub y (minY s)) (At img x y)).
Proof.
  intros HR Hxx Hyy (Hwf & Hrect & Hstr & Hcp).
  assert (Hn : GoInt.minInt = -9223372036854775808) by reflexivity.
  rewrite !sub_in_range by (unfold GoInt.in_range in *; lia).
  split; [now apply RGBA_Set_wf|].
  split; [now rewrite RGBA_Set_Rect|].
  split; [now rewrite RGBA_Set_Stride|].
  intros px py Hpx Hpy [Hq|[-> ->]].
  - destruct (decide ((x, y) = (px, py))) as [E|E].
    + injection E as -> ->. apply RGBA_At_Set_eq; [assumption|].
      rewrite Hrect, HR. apply In_spec. cbn [X Y Min Max]. lia.
    + rewrite RGBA_At_Set_ne; [now apply Hcp|assumption|].
      intros E'. apply E. injection E' as E1 E2. f_equal; lia.
  - apply RGBA_At_Set_eq; [assumption|].
    rewrite Hrect, HR. apply In_spec. cbn [X Y Min Max]. lia.
Qed.

Lemma copy_rect_spec p0 :
  wf p0 ->
  RGBA_Rect p0 =
    Rectangle_ (Pt 0 0) (Pt (maxX s - minX s + 1) (maxY s - minY s + 1)) ->
  copied img s (fun _ _ => True) p0 (copy_rect img s p0).
Proof.
  intros Hwf HR. unfold copy_rect. rewrite for_le_for_lt.
  assert (Hequiv : forall (Q Q' : Z -> Z -> Prop) p,
             (forall x y, minX s <= x <= maxX s -> minY s <= y <= maxY s ->
                          Q' x y -> Q x y) ->
             copied img s Q p0 p -> copied img s Q' p0 p).
  { intros Q Q' p HQ (H1 & H2 & H3 & H4).
    split; [assumption|]. split; [assumption|]. split; [assumption|].
    intros x y Hxx Hyy Hq. apply H4; auto. }
  apply Hequiv with (Q := fun _ py => py < maxY s + 1); [intros; lia|].
  apply (for_lt_inv (fun y p => copied img s (fun _ py => py < y) p0 p)).
  - lia.
  - split; [assumption|]. split; [reflexivity|]. split; [reflexivity|].
    intros; lia.
  - intros y p Hyy Hp. rewrite for_le_for_lt.
    apply Hequiv with (Q := fun px py => py < y \/ (py = y /\ px < maxX s + 1));
      [intros; lia|].
    apply (for_lt_inv
             (fun x p => copied img s (fun px py => py < y \/ (py = y /\ px < x)) p0 p)).
    + lia.
    + revert Hp. apply Hequiv. intros; lia.
    + intros x t Hxx Ht.
      pose proof (copy_pixel p0 t _ x y HR ltac:(lia) ltac:(lia) Ht) as H.
      revert H. apply Hequiv. intros; lia.
Qed.

End Copy.

(** ** The cropper *)

Section Crop.
Import image Cropper.

Lemma scan_found_iff img :
  foundContent (scan_image img) = true <-> exists x y, content_at img x y.
Proof.
  destruct (scan_image_inv img) as [Hf Ht]. split.
  - intros E. destruct (Ht E) as (_ & (y & Hin & Hc) & _).
    exists (minX (scan_image img)), y. now split.
  - intros (x & y & Hin & Hc).
    destruct (foundContent (scan_image img)) eqn:E; [reflexivity|].
    destruct (Hf eq_refl) as [_ Hn]. rewrite (Hn x y Hin) in Hc. discriminate.
Qed.

Lemma scan_bounding_rect img :
  foundContent (scan_image img) = true ->
  bounding_rect img (minX (scan_image img)) (minY (scan_image img))
                    (maxX (scan_image img)) (maxY (scan_image img)).
Proof.
  intros E. destruct (scan_image_inv img) as [_ Ht].
  destruct (Ht E) as (Hb & H0 & H1 & H2 & H3). unfold bounding_rect, content_at.
  split; [intros x y [Hin Hc]; now apply Hb|]. auto.
Qed.

Lemma bounding_rect_unique img x0 y0 x1 y1 x0' y0' x1' y1' :
  bounding_rect img x0 y0 x1 y1 -> bounding_rect img x0' y0' x1' y1' ->
  x0 = x0' /\ y0 = y0' /\ x1 = x1' /\ y1 = y1'.
Proof.
  intros (Hb & (a & Ha) & (b & Hb') & (c & Hc) & (d & Hd))
         (Hb2 & (a' & Ha') & (b' & Hb2') & (c' & Hc') & (d' & Hd')).
  pose proof (Hb _ _ Ha'). pose proof (Hb _ _ Hb2').
  pose proof (Hb _ _ Hc'). pose proof (Hb _ _ Hd').
  pose proof (Hb2 _ _ Ha). pose proof (Hb2 _ _ Hb').
  pose proof (Hb2 _ _ Hc). pose proof (Hb2 _ _ Hd). lia.
Qed.

Lemma bounding_rect_inside img x0 y0 x1 y1 :
  bounding_rect img x0 y0 x1 y1 ->
  X (Min (Bounds img)) <= x0 <= x1 /\ x1 < X (Max (Bounds img)) /\
  Y (Min (Bounds img)) <= y0 <= y1 /\ y1 < Y (Max (Bounds img)).
Proof.
  intros (Hb & (a & Ha) & (b & Hb') & (c & Hc) & (d & Hd)).
  pose proof (Hb _ _ Ha). pose proof (Hb _ _ Hb').
  destruct Ha as [Ha _], Hb' as [Hb' _], Hc as [Hc _], Hd as [Hd _].
  apply In_spec in Ha, Hb', Hc, Hd. lia.
Qed.

(** The result of the cropper on an image with content. *)
Lemma crop_found img x0 y0 x1 y1 :
  valid_buffer img -> bounding_rect img x0 y0 x1 y1 ->
  exists out,
    cropTransparentAreas img = Some out /\ wf out /\
    RGBA_Rect out = Rectangle_ (Pt 0 0) (Pt (x1 - x0 + 1) (y1 - y0 + 1)) /\
    Stride out = 4 * (x1 - x0 + 1) /\
    forall x y, x0 <= x <= x1 -> y0 <= y <= y1 ->
      RGBA_At out (x - x0) (y - y0) = color.rgbaModel (At img x y).
Proof.
  intros Hv Hbr.
  assert (Hfound : foundContent (scan_image img) = true).
  { apply scan_found_iff. destruct Hbr as (_ & (y & Hc) & _). eauto. }
  pose proof (scan_bounding_rect img Hfound) as Hbr'.
  destruct (bounding_rect_unique _ _ _ _ _ _ _ _ _ Hbr' Hbr) as (E0 & E1 & E2 & E3).
  pose proof (bounding_rect_inside _ _ _ _ _ Hbr) as Hin.
  destruct Hv as (V0 & V1 & V2 & V3 & V4 & V5 & V6).
  assert (Hm : GoInt.maxInt = 9223372036854775807) by reflexivity.
  assert (Hn : GoInt.minInt = -9223372036854775808) by reflexivity.
  unfold GoInt.in_range in *.
  set (w := x1 - x0 + 1). set (h := y1 - y0 + 1).
  assert (Hw : 1 <= w) by (unfold w; lia).
  assert (Hh : 1 <= h) by (unfold h; lia).
  assert (Hsz : 4 * w * h <= GoInt.maxInt) by (unfold w, h; nia).
  unfold cropTransparentAreas. rewrite Hfound. cbn [negb].
  rewrite E0, E1, E2, E3.
  rewrite !sub_in_range by (unfold GoInt.in_range; nia).
  rewrite !add_in_range by (unfold GoInt.in_range; nia).
  fold w h. rewrite NewRGBA_origin by assumption.
  set (p0 := RGBA_ _ _ _).
  assert (Hcp : copied img (scan_image img) (fun _ _ => True) p0
                  (copy_rect img (scan_image img) p0)).
  { assert (Hwr : w <= GoInt.maxInt) by nia.
    assert (Hhr : h <= GoInt.maxInt) by nia.
    apply copy_rect_spec; rewrite ?E0, ?E1, ?E2, ?E3.
    - lia.
    - lia.
    - unfold GoInt.in_range. fold w. lia.
    - unfold GoInt.in_range. fold h. lia.
    - apply NewRGBA_origin_wf; assumption.
    - reflexivity. }
  destruct Hcp as (Hwf & Hrect & Hstr & Hcp). rewrite E0, E1, E2, E3 in Hcp.
  eexists. split; [reflexivity|]. split; [assumption|].
  split; [exact Hrect|]. split; [exact Hstr|].
  intros x y Hxx Hyy. now apply Hcp.
Qed.

(** The result of the cropper on an image without content. *)
Lemma crop_not_found img :
  (forall x y, ~ content_at img x y) ->
  cropTransparentAreas img =
    Some (RGBA_ [0; 0; 0; 0] 4 (Rectangle_ (Pt 0 0) (Pt 1 1))).
Proof.
  intros Hn. unfold cropTransparentAreas.
  destruct (foundContent (scan_image img)) eqn:E.
  - apply scan_found_iff in E. destruct E as (x & y & Hc).
    now destruct (Hn x y).
  - reflexivity.
Qed.

End Crop.

(** ** Extensionality of the pixel store *)

Section Extensionality.
Import image Cropper.

Lemma rgbaModel_RGBA_At p x y :
  color.rgbaModel (RGBA_At p x y) = RGBA_At p x y.
Proof. unfold RGBA_At. destruct (In x y _); reflexivity. Qed.

Lemma byte_at_lookup (l : list Z) (i : nat) :
  (i < length l)%nat -> l !! i = Some (byte_at l (Z.of_nat i)).
Proof.
  intros H. unfold byte_at. rewrite Nat2Z.id.
  destruct (lookup_lt_is_Some_2 l i H) as [v ->]. reflexivity.
Qed.

(** Two well-formed buffers over the same rectangle with the same pixels
    are the same buffer. *)
Lemma RGBA_ext p q :
  wf p -> wf q -> RGBA_Rect p = RGBA_Rect q ->
  (forall x y, In x y (RGBA_Rect p) = true -> RGBA_At p x y = RGBA_At q x y) ->
  p = q.
Proof.
  intros (Hx & Hy & Hs & Hl) (Hx' & Hy' & Hs' & Hl') HR Hat.
  destruct p as [l st r], q as [l' st' r']. cbn [RGBA_Rect Stride Pix] in *.
  subst r'. assert (st' = st) as -> by lia. f_equal.
  assert (Hlen : length l = length l') by lia.
  apply list_eq. intros i.
  destruct (Nat.lt_ge_cases i (length l)) as [Hi|Hi].
  2:{ rewrite !lookup_ge_None_2 by lia. reflexivity. }
  rewrite !byte_at_lookup by lia. f_equal.
  set (w := X (Max r) - X (Min r)) in *. set (h := Y (Max r) - Y (Min r)) in *.
  set (n := Z.of_nat i).
  assert (Hn : 0 <= n < 4 * w * h) by (unfold n; nia).
  assert (Hw : 0 < w) by nia.
  set (y := n / (4 * w)). set (x := (n mod (4 * w)) / 4).
  set (c := (n mod (4 * w)) mod 4).
  assert (Hdec : n = y * (4 * w) + x * 4 + c).
  { unfold y, x, c.
    pose proof (Z.div_mod n (4 * w) ltac:(lia)).
    pose proof (Z.div_mod (n mod (4 * w)) 4 ltac:(lia)). lia. }
  assert (Hc : 0 <= c < 4) by (unfold c; apply Z.mod_pos_bound; lia).
  assert (Hxr : 0 <= x < w).
  { unfold x. pose proof (Z.mod_pos_bound n (4 * w) ltac:(lia)).
    split; [apply Z.div_pos; lia|]. apply Z.div_lt_upper_bound; lia. }
  assert (Hyr : 0 <= y < h).
  { unfold y. split; [apply Z.div_pos; lia|].
    apply Z.div_lt_upper_bound; [lia|]. nia. }
  assert (Hin : In (x + X (Min r)) (y + Y (Min r)) r = true)
    by (apply In_spec; fold w h; lia).
  specialize (Hat _ _ Hin). unfold RGBA_At in Hat.
  cbn [RGBA_Rect Pix] in Hat. rewrite Hin in Hat.
  unfold PixOffset in Hat. cbn [RGBA_Rect Stride] in Hat.
  replace ((y + Y (Min r) - Y (Min r)) * st + (x + X (Min r) - X (Min r)) * 4)
    with (n - c) in Hat by (rewrite Hs; lia).
  injection Hat as H0 H1 H2 H3.
  assert (c = 0 \/ c = 1 \/ c = 2 \/ c = 3) as [E|[E|[E|E]]] by lia.
  - replace n with (n - c) by lia. assumption.
  - replace n with (n - c + 1) by lia. assumption.
  - replace n with (n - c + 2) by lia. assumption.
  - replace n with (n - c + 3) by lia. assumption.
Qed.

(** Cropping an RGBA buffer at the origin whose content reaches its four
    borders gives the buffer back. *)
Lemma crop_fixed p w h :
  wf p -> RGBA_Rect p = Rectangle_ (Pt 0 0) (Pt w h) ->
  4 * w * h <= GoInt.maxInt ->
  bounding_rect (of_RGBA p) 0 0 (w - 1) (h - 1) ->
  cropTransparentAreas (of_RGBA p) = Some p.
Proof.
  intros Hwf HR Hsz Hbr.
  pose proof (bounding_rect_inside _ _ _ _ _ Hbr) as Hin.
  cbn [of_RGBA Bounds] in Hin. rewrite HR in Hin. cbn [X Y Min Max] in Hin.
  assert (Hm : GoInt.maxInt = 9223372036854775807) by reflexivity.
  assert (Hn : GoInt.minInt = -9223372036854775808) by reflexivity.
  assert (Hv : valid_buffer (of_RGBA p)).
  { unfold valid_buffer, GoInt.in_range. cbn [of_RGBA Bounds]. rewrite HR.
    cbn [X Y Min Max]. repeat split; nia. }
  destruct (crop_found _ _ _ _ _ Hv Hbr) as (out & Hcrop & Hwf' & HR' & Hs' & Hat).
  rewrite Hcrop. f_equal. apply RGBA_ext; try assumption.
  - rewrite HR', HR. f_equal. f_equal; lia.
  - intros x y Hxy. rewrite HR' in Hxy. apply In_spec in Hxy.
    cbn [X Y Min Max] in Hxy.
    specialize (Hat x y ltac:(lia) ltac:(lia)).
    rewrite !Z.sub_0_r in Hat. rewrite Hat. cbn [of_RGBA At].
    apply rgbaModel_RGBA_At.
Qed.

End Extensionality.

(** ** Claims about the bounds detector and cropper *)

Section CropClaims.
Import image Cropper Samples.

Ltac solve_valid_buffer :=
  unfold valid_buffer, GoInt.in_range; vm_compute; repeat split; discriminate.

Ltac small_coords H :=
  apply In_spec in H; vm_compute in H;
  repeat match goal with
         | H : _ /\ _ |- _ => destruct H
         end.

Lemma block8_valid : valid_buffer block8.
Proof. solve_valid_buffer. Qed.

Lemma block8_rect : bounding_rect block8 1 1 2 2.
Proof. exact (scan_bounding_rect block8 eq_refl). Qed.

Lemma deep16_rect : bounding_rect deep16 0 0 0 0.
Proof. exact (scan_bounding_rect deep16 eq_refl). Qed.

(** C1, as stated, fails on a 16-bit image: the output pixel (0,0) holds
    0x1212 in its red channel where the input pixel holds 0x1234. *)
Lemma crop_not_verbatim : valid_buffer deep16 /\ ~ copies_verbatim deep16.
Proof.
  split; [solve_valid_buffer|]. intros H.
  specialize (H 0 0 0 0 _ deep16_rect eq_refl 0 0 ltac:(lia) ltac:(lia)).
  vm_compute in H. discriminate.
Qed.

(** C1 (amended): on a decoded image with content, whose content bounding
    rectangle is (x0, y0)-(x1, y1), crop returns a new 8-bit RGBA buffer
    with origin (0,0) and dimensions exactly (x1-x0+1, y1-y0+1); its pixel
    (0,0) is the RGBA-model conversion of input pixel (x0, y0), and every
    input pixel of the rectangle, content or not, is copied through that
    conversion, which leaves a pixel that already is an 8-bit RGBA colour
    unchanged. *)
Theorem crop_copies_rectangle img x0 y0 x1 y1 :
  valid_buffer img -> bounding_rect img x0 y0 x1 y1 ->
  exists out,
    cropTransparentAreas img = Some out /\
    Min (RGBA_Rect out) = Pt 0 0 /\
    Dx (RGBA_Rect out) = x1 - x0 + 1 /\ Dy (RGBA_Rect out) = y1 - y0 + 1 /\
    RGBA_At out 0 0 = color.rgbaModel (At img x0 y0) /\
    forall x y, x0 <= x <= x1 -> y0 <= y <= y1 ->
      RGBA_At out (x - x0) (y - y0) = color.rgbaModel (At img x y) /\
      (color.is_RGBA (At img x y) = true ->
       RGBA_At out (x - x0) (y - y0) = At img x y).
Proof.
  intros Hv Hbr.
  destruct (crop_found img x0 y0 x1 y1 Hv Hbr) as (out & Hc & Hwf & HR & _ & Hat).
  pose proof (bounding_rect_inside _ _ _ _ _ Hbr) as Hin.
  destruct Hv as (V0 & V1 & V2 & V3 & V4 & V5 & V6).
  assert (Hm : GoInt.maxInt = 9223372036854775807) by reflexivity.
  assert (Hn : GoInt.minInt = -9223372036854775808) by reflexivity.
  unfold GoInt.in_range in *.
  exists out. split; [assumption|]. rewrite HR. split; [reflexivity|].
  unfold Dx, Dy. cbn [X Y Min Max].
  rewrite !sub_in_range by (unfold GoInt.in_range; nia).
  split; [lia|]. split; [lia|]. split.
  - specialize (Hat x0 y0 ltac:(lia) ltac:(lia)).
    now rewrite !Z.sub_diag in Hat.
  - intros x y Hx Hy. split; [now apply Hat|].
    intros Hrgba. rewrite Hat by assumption.
    destruct (At img x y); try discriminate. reflexivity.
Qed.

Lemma crop_copies_rectangle_witness :
  exists out,
    cropTransparentAreas block8 = Some out /\
    Min (RGBA_Rect out) = Pt 0 0 /\
    Dx (RGBA_Rect out) = 2 - 1 + 1 /\ Dy (RGBA_Rect out) = 2 - 1 + 1 /\
    RGBA_At out 0 0 = color.rgbaModel (At block8 1 1) /\
    forall x y, 1 <= x <= 2 -> 1 <= y <= 2 ->
      RGBA_At out (x - 1) (y - 1) = color.rgbaModel (At block8 x y) /\
      (color.is_RGBA (At block8 x y) = true ->
       RGBA_At out (x - 1) (y - 1) = At block8 x y).
Proof.
  apply (crop_copies_rectangle block8 1 1 2 2).
  - unfold valid_buffer, GoInt.in_range; vm_compute; repeat split; discriminate.
  - exact (scan_bounding_rect block8 eq_refl).
Defined.

(** [v | v << 8] of a byte. *)
Lemma dup8_257 v : GoInt.is_uint8 v -> color.dup8 v = 257 * v.
Proof.
  unfold GoInt.is_uint8. intros Hv.
  assert (v = 0 \/ 0 < v) as [->|Hp] by lia; [reflexivity|].
  unfold color.dup8, GoInt.uint32. rewrite Z.shiftl_mul_pow2 by lia.
  rewrite <- Z.add_nocarry_lor.
  - rewrite Z.mod_small; lia.
  - apply Z.bits_inj'. intros n Hn. rewrite Z.land_spec, Z.bits_0.
    destruct (Z.lt_ge_cases n 8).
    + rewrite Z.mul_pow2_bits_low by lia. apply andb_false_r.
    + rewrite (Z.bits_above_log2 v n); [reflexivity|lia|].
      apply Z.log2_lt_pow2; [lia|].
      apply Z.lt_le_trans with (2 ^ 8); [lia|].
      apply Z.pow_le_mono_r; lia.
Qed.

(** A non-premultiplied pixel of alpha 0 has all four [RGBA()] values at
    zero whatever its stored colour, so the test does not see it. *)
Lemma nrgba_alpha0_not_content R G B :
  is_content (color.NRGBA R G B 0) = false.
Proof.
  unfold is_content, color.RGBA_of, color.nrgba_chan.
  rewrite !Z.mul_0_r. reflexivity.
Qed.

(** A pixel of alpha 0 with straight alpha, 16 bits per channel. *)
Lemma nrgba64_alpha0_not_content R G B :
  is_content (color.NRGBA64 R G B 0) = false.
Proof.
  unfold is_content, color.RGBA_of, color.nrgba64_chan.
  rewrite !Z.mul_0_r. reflexivity.
Qed.

(** On the colours of the colour model the test is a test of the alpha. *)
Lemma content_iff_alpha c :
  color.valid c -> premultiplied c -> (is_content c = true <-> alpha c > 0).
Proof.
  destruct c as [R G B A|R G B A|R G B A|R G B A|Y0|r g b a];
    cbn [color.valid premultiplied alpha channels]; intros Hv Hp.
  - destruct Hv as (HR & HG & HB & HA). destruct Hp as (H1 & H2 & H3).
    unfold is_content. cbn [color.RGBA_of]. rewrite !dup8_257 by assumption.
    unfold GoInt.is_uint8 in *. rewrite !orb_true_iff.
    destruct (Z.gtb_spec (257 * A) 0), (Z.gtb_spec (257 * R) 0),
      (Z.gtb_spec (257 * G) 0), (Z.gtb_spec (257 * B) 0);
      intuition (try lia; try discriminate).
  - destruct Hv as (HR & HG & HB & HA).
    assert (A = 0 \/ 0 < A) as [->|HA0] by (unfold GoInt.is_uint8 in HA; lia).
    + rewrite nrgba_alpha0_not_content. split; [discriminate|lia].
    + unfold is_content. cbn [color.RGBA_of]. rewrite (dup8_257 A) by assumption.
      destruct (Z.gtb_spec (257 * A) 0); [|lia]. cbn [orb].
      split; [lia|reflexivity].
  - destruct Hp as (H1 & H2 & H3). unfold is_content. cbn [color.RGBA_of].
    rewrite !orb_true_iff.
    destruct (Z.gtb_spec A 0), (Z.gtb_spec R 0), (Z.gtb_spec G 0),
      (Z.gtb_spec B 0); intuition (try lia; try discriminate).
  - destruct Hv as (HR & HG & HB & HA).
    assert (A = 0 \/ 0 < A) as [->|HA0] by (unfold GoInt.is_uint16 in HA; lia).
    + rewrite nrgba64_alpha0_not_content. split; [discriminate|lia].
    + unfold is_content. cbn [color.RGBA_of].
      destruct (Z.gtb_spec A 0); [|lia]. cbn [orb].
      split; [lia|reflexivity].
  - split; [lia|reflexivity].
  - destruct Hp as (H1 & H2 & H3). unfold is_content. cbn [color.RGBA_of].
    rewrite !orb_true_iff.
    destruct (Z.gtb_spec a 0), (Z.gtb_spec r 0), (Z.gtb_spec g 0),
      (Z.gtb_spec b 0); intuition (try lia; try discriminate).
Qed.

(** C2, as stated, fails on the transparent pixels of a decoded PNG that
    still store a colour: such a pixel has alpha 0 and a non-zero colour
    channel, so it is content in the words of the specification, but the
    detector reads the alpha-premultiplied values of [RGBA()], which are
    all zero, and does not count it; the row [ghost] is cropped to its one
    opaque pixel. *)
Lemma transparent_coloured_not_content :
  color.valid (color.NRGBA 255 0 0 0) /\
  alpha (color.NRGBA 255 0 0 0) = 0 /\
  content_as_specified (color.NRGBA 255 0 0 0) = true /\
  is_content (color.NRGBA 255 0 0 0) = false /\
  valid_buffer ghost /\
  content_as_specified (At ghost 0 0) = true /\
  content_as_specified (At ghost 2 0) = true /\
  exists out,
    cropTransparentAreas ghost = Some out /\
    RGBA_Rect out = Rectangle_ (Pt 0 0) (Pt 1 1) /\
    RGBA_At out 0 0 = color.RGBA 0 0 0 255.
Proof.
  split; [unfold color.valid, GoInt.is_uint8; lia|].
  split; [reflexivity|]. split; [reflexivity|]. split; [reflexivity|].
  split; [solve_valid_buffer|]. split; [reflexivity|]. split; [reflexivity|].
  eexists. split; [vm_compute; reflexivity|]. split; reflexivity.
Qed.

(** C2 (amended): the bounds detector treats a pixel as content exactly
    when one of the four alpha-premultiplied values returned by the
    pixel's [RGBA()] (alpha, red, green, blue) is greater than zero, and
    finds content exactly when some pixel of the bounds passes that test.
    For every colour of the colour model (any colour with straight alpha,
    a gray, and a premultiplied colour whose colour values do not exceed
    its alpha) this is the test alpha > 0: an opaque black pixel counts,
    and a pixel of alpha 0 does not count, whatever colour it stores.  Only
    a premultiplied colour that breaks the model, alpha 0 with a non-zero
    colour value, counts through its colour. *)
Theorem content_test_premultiplied c :
  color.valid c -> premultiplied c ->
  (is_content c = true <-> alpha c > 0) /\
  (forall c' : color.Color,
      is_content c' = true <->
      (let '(r, g, b, a) := color.RGBA_of c' in a > 0 \/ r > 0 \/ g > 0 \/ b > 0)) /\
  (forall img : Image,
      foundContent (scan_image img) = true <->
      exists x y, In x y (Bounds img) = true /\ is_content (At img x y) = true) /\
  (forall R G B,
      is_content (color.NRGBA R G B 0) = false /\
      is_content (color.NRGBA64 R G B 0) = false) /\
  is_content (color.RGBA 0 0 0 255) = true /\
  is_content (color.NRGBA 0 0 0 255) = true /\
  is_content (color.RGBA 0 0 0 0) = false /\
  is_content (color.RGBA 7 0 0 0) = true.
Proof.
  intros Hv Hp.
  split; [now apply content_iff_alpha|].
  split.
  { intros c'. unfold is_content.
    destruct (color.RGBA_of c') as [[[r g] b] a].
    rewrite !orb_true_iff.
    destruct (Z.gtb_spec a 0), (Z.gtb_spec r 0), (Z.gtb_spec g 0),
      (Z.gtb_spec b 0); intuition (try lia; try discriminate). }
  split.
  { intros img. rewrite scan_found_iff. unfold content_at. reflexivity. }
  split.
  { intros R G B. split;
      [apply nrgba_alpha0_not_content|apply nrgba64_alpha0_not_content]. }
  repeat split; reflexivity.
Qed.

Lemma content_test_premultiplied_witness :
  (is_content (color.NRGBA 0 0 0 255) = true <->
   alpha (color.NRGBA 0 0 0 255) > 0) /\
  (forall c' : color.Color,
      is_content c' = true <->
      (let '(r, g, b, a) := color.RGBA_of c' in a > 0 \/ r > 0 \/ g > 0 \/ b > 0)) /\
  (forall img : Image,
      foundContent (scan_image img) = true <->
      exists x y, In x y (Bounds img) = true /\ is_content (At img x y) = true) /\
  (forall R G B,
      is_content (color.NRGBA R G B 0) = false /\
      is_content (color.NRGBA64 R G B 0) = false) /\
  is_content (color.RGBA 0 0 0 255) = true /\
  is_content (color.NRGBA 0 0 0 255) = true /\
  is_content (color.RGBA 0 0 0 0) = false /\
  is_content (color.RGBA 7 0 0 0) = true.
Proof.
  apply (content_test_premultiplied (color.NRGBA 0 0 0 255)).
  - unfold color.valid, GoInt.is_uint8. lia.
  - exact I.
Defined.

(** C5: on an image in which no pixel of the bounds is content, whatever
    its size, crop returns the 1x1 buffer whose only pixel is transparent;
    and on every valid decoded buffer crop returns an image. *)
Theorem crop_blank_and_total img :
  ((forall x y, ~ content_at img x y) ->
   exists out,
     cropTransparentAreas img = Some out /\
     RGBA_Rect out = Rectangle_ (Pt 0 0) (Pt 1 1) /\
     Dx (RGBA_Rect out) = 1 /\ Dy (RGBA_Rect out) = 1 /\
     Pix out = [0; 0; 0; 0] /\ RGBA_At out 0 0 = color.transparent) /\
  (valid_buffer img -> exists out, cropTransparentAreas img = Some out).
Proof.
  split.
  - intros Hn. rewrite (crop_not_found img Hn). eexists.
    split; [reflexivity|]. repeat split; reflexivity.
  - intros Hv. destruct (foundContent (scan_image img)) eqn:E.
    + pose proof (scan_bounding_rect img E) as Hbr.
      destruct (crop_found _ _ _ _ _ Hv Hbr) as (out & Hc & _). eauto.
    + unfold cropTransparentAreas. rewrite E. cbn [negb]. eauto.
Qed.

Lemma blank_no_content x y : ~ content_at blank x y.
Proof.
  intros Hc.
  assert (E : foundContent (scan_image blank) = true)
    by (apply scan_found_iff; eauto).
  vm_compute in E. discriminate.
Qed.

Lemma crop_blank_and_total_witness :
  (exists out,
     cropTransparentAreas blank = Some out /\
     RGBA_Rect out = Rectangle_ (Pt 0 0) (Pt 1 1) /\
     Dx (RGBA_Rect out) = 1 /\ Dy (RGBA_Rect out) = 1 /\
     Pix out = [0; 0; 0; 0] /\ RGBA_At out 0 0 = color.transparent) /\
  (exists out, cropTransparentAreas block8 = Some out).
Proof.
  split.
  - apply (crop_blank_and_total blank). exact blank_no_content.
  - apply (crop_blank_and_total block8).
    unfold valid_buffer, GoInt.in_range; vm_compute; repeat split; discriminate.
Defined.

(** The 8-bit colour types keep their content-ness under the conversion
    of the destination buffer. *)
Lemma content_stable_8bit c :
  color.valid c ->
  match c with
  | color.RGBA _ _ _ _ | color.NRGBA _ _ _ _ | color.Gray _ => True
  | _ => False
  end ->
  is_content (color.rgbaModel c) = is_content c.
Proof.
  destruct c as [R G B A|R G B A| | |Y0|]; try contradiction; intros Hv _.
  - reflexivity.
  - destruct Hv as (HR & HG & HB & HA). unfold GoInt.is_uint8 in *.
    assert (A = 0 \/ 0 < A) as [->|HA0] by lia.
    + rewrite nrgba_alpha0_not_content.
      unfold color.rgbaModel, color.RGBA_of, color.nrgba_chan.
      rewrite !Z.mul_0_r. reflexivity.
    + assert (Hd : color.dup8 A = 257 * A).
      { unfold color.dup8, GoInt.uint32. rewrite Z.shiftl_mul_pow2 by lia.
        rewrite <- Z.add_nocarry_lor.
        - rewrite Z.mod_small; lia.
        - apply Z.bits_inj'. intros n Hn. rewrite Z.land_spec, Z.bits_0.
          destruct (Z.lt_ge_cases n 8).
          + rewrite Z.mul_pow2_bits_low by lia. apply andb_false_r.
          + rewrite (Z.bits_above_log2 A n); [reflexivity|lia|].
            apply Z.log2_lt_pow2; [lia|].
            apply Z.lt_le_trans with (2 ^ 8); [lia|].
            apply Z.pow_le_mono_r; lia. }
      unfold is_content at 2. cbn [color.RGBA_of]. rewrite Hd.
      destruct (Z.gtb_spec (257 * A) 0); [|lia]. cbn [orb].
      unfold color.rgbaModel. cbn [color.RGBA_of]. rewrite Hd.
      unfold is_content. cbn [color.RGBA_of].
      assert (Ha : GoInt.uint8 (Z.shiftr (257 * A) 8) = A).
      { unfold GoInt.uint8. rewrite Z.shiftr_div_pow2 by lia.
        change (2 ^ 8) with 256.
        replace (257 * A) with (A * 256 + A) by lia.
        rewrite Z.div_add_l by lia. rewrite (Z.div_small A 256) by lia.
        rewrite Z.add_0_r. apply Z.mod_small. lia. }
      rewrite Ha, Hd. destruct (Z.gtb_spec (257 * A) 0); [|lia]. reflexivity.
  - unfold is_content, color.rgbaModel. cbn [color.RGBA_of].
    change (GoInt.uint8 (Z.shiftr 65535 8)) with 255.
    change (color.dup8 255) with 65535. reflexivity.
Qed.

(** C7, as stated for every decoded image, fails on a 16-bit image: the
    pixel of alpha 1/65535 is content for the first crop, is stored as
    transparent black, and is trimmed by the second crop. *)
Lemma crop_twice_differs : valid_buffer faint16 /\ ~ crop_idempotent_on faint16.
Proof.
  split; [solve_valid_buffer|]. intros H.
  specialize (H _ eq_refl). vm_compute in H. discriminate.
Qed.

(** C7 (amended): crop is idempotent on every decoded image whose pixels
    keep their content-ness under the 8-bit RGBA conversion of the output
    buffer (every image of 8-bit RGBA, NRGBA or Gray pixels is one): the
    second crop returns the result of the first, with identical bounds and
    identical pixel bytes. *)
Theorem crop_idempotent img :
  valid_buffer img -> content_stable img -> crop_idempotent_on img.
Proof.
  intros Hv Hst out Hcrop.
  destruct (foundContent (scan_image img)) eqn:E.
  - pose proof (scan_bounding_rect img E) as Hbr.
    set (s := scan_image img) in *.
    destruct (crop_found _ _ _ _ _ Hv Hbr) as (out' & Hc & Hwf & HR & _ & Hat).
    assert (out' = out) as -> by congruence.
    pose proof (bounding_rect_inside _ _ _ _ _ Hbr) as Hin.
    destruct Hv as (V0 & V1 & V2 & V3 & V4 & V5 & V6).
    apply (crop_fixed out (maxX s - minX s + 1) (maxY s - minY s + 1));
      [assumption|assumption|nia|].
    assert (Hout : forall x y,
               content_at img x y ->
               content_at (of_RGBA out) (x - minX s) (y - minY s)).
    { intros x y Hcxy. destruct Hbr as (Hb & _).
      pose proof (Hb _ _ Hcxy) as Hxy. destruct Hcxy as [Hi Hcc].
      split.
      - cbn [of_RGBA Bounds]. rewrite HR. apply In_spec. cbn [X Y Min Max]. lia.
      - cbn [of_RGBA At]. rewrite Hat by lia. now rewrite Hst. }
    destruct Hbr as (Hb & (a & Ha) & (b & Hb') & (c & Hc') & (d & Hd)).
    split; [|repeat split].
    + intros u v [Hi _]. cbn [of_RGBA Bounds] in Hi. rewrite HR in Hi.
      apply In_spec in Hi. cbn [X Y Min Max] in Hi. lia.
    + exists (a - minY s). pose proof (Hout _ _ Ha) as H.
      now rewrite Z.sub_diag in H.
    + exists (b - minY s). pose proof (Hout _ _ Hb') as H.
      now replace (maxX s - minX s + 1 - 1) with (maxX s - minX s) by lia.
    + exists (c - minX s). pose proof (Hout _ _ Hc') as H.
      now rewrite Z.sub_diag in H.
    + exists (d - minX s). pose proof (Hout _ _ Hd) as H.
      now replace (maxY s - minY s + 1 - 1) with (maxY s - minY s) by lia.
  - unfold cropTransparentAreas in Hcrop. rewrite E in Hcrop. cbn [negb] in Hcrop.
    injection Hcrop as <-. reflexivity.
Qed.

Lemma block8_content_stable : content_stable block8.
Proof.
  intros x y Hin.
  change (Bounds block8) with (Rectangle_ (Pt 0 0) (Pt 4 3)) in Hin.
  apply In_spec in Hin. cbn [X Y Min Max] in Hin.
  assert (Hx : x = 0 \/ x = 1 \/ x = 2 \/ x = 3) by lia.
  assert (Hy : y = 0 \/ y = 1 \/ y = 2) by lia.
  destruct Hx as [->|[->|[->| ->]]], Hy as [->|[->| ->]]; reflexivity.
Qed.

Lemma crop_idempotent_witness : crop_idempotent_on block8.
Proof.
  apply (crop_idempotent block8).
  - unfold valid_buffer, GoInt.in_range; vm_compute; repeat split; discriminate.
  - exact block8_content_stable.
Defined.

End CropClaims.

(** ** Floating-point facts and the arithmetic claims *)

Section FloatClaims.
Import Float Rasterizer Codec Scaling.

Lemma SFcompare_antisym x y c :
  SFcompare x y = Some c -> SFcompare y x = Some (CompOpp c).
Proof.
  destruct x as [sx|sx| |sx mx ex], y as [sy|sy| |sy my ey];
    cbn [SFcompare]; try discriminate;
    try (destruct sx; intros [= <-]; reflexivity);
    try (destruct sy; intros [= <-]; reflexivity);
    try (destruct sx, sy; intros [= <-]; reflexivity);
    try (intros [= <-]; reflexivity).
  destruct sx, sy; intros [= <-]; try reflexivity.
  - rewrite (Z.compare_antisym ey ex).
    destruct (ey ?= ex); cbn [CompOpp]; try reflexivity.
    rewrite CompOpp_involutive.
    change (PosDef.Pos.compare_cont) with Pos.compare_cont.
    rewrite (Pos.compare_cont_antisym my mx Eq). reflexivity.
  - rewrite (Z.compare_antisym ey ex).
    destruct (ey ?= ex); cbn [CompOpp]; try reflexivity.
    change (PosDef.Pos.compare_cont) with Pos.compare_cont.
    f_equal. symmetry. apply (Pos.compare_cont_antisym mx my Eq).
Qed.

Lemma SFcompare_not_nan x y :
  is_nan x = false -> is_nan y = false -> exists c, SFcompare x y = Some c.
Proof.
  destruct x as [sx|sx| |sx mx ex], y as [sy|sy| |sy my ey];
    cbn [SFcompare is_nan]; try discriminate; eauto.
Qed.

(** Without NaN, [x < y] false means [y <= x]. *)
Lemma lt_false_le x y :
  is_nan x = false -> is_nan y = false -> lt x y = false -> le y x = true.
Proof.
  intros Hx Hy. destruct (SFcompare_not_nan x y Hx Hy) as [c Hc].
  unfold lt, le, SFltb, SFleb. rewrite Hc, (SFcompare_antisym _ _ _ Hc).
  destruct c; cbn [CompOpp]; congruence.
Qed.

Lemma le_lt_false x y : le x y = true -> lt y x = false.
Proof.
  unfold lt, le, SFltb, SFleb. destruct (SFcompare x y) as [c|] eqn:Hc;
    [|discriminate].
  rewrite (SFcompare_antisym _ _ _ Hc). destruct c; cbn [CompOpp]; congruence.
Qed.

Lemma one32_val : one32 = S754_finite false 8388608 (-23).
Proof. reflexivity. Qed.

Lemma four32_val : four32 = S754_finite false 8388608 (-21).
Proof. reflexivity. Qed.

(** A value below 1 is not above 4. *)
Lemma lt_one_not_gt_four s : lt s one32 = true -> gt s four32 = false.
Proof.
  rewrite one32_val, four32_val. unfold lt, gt, SFltb.
  destruct s as [sx|sx| |sx m e]; cbn [SFcompare]; try discriminate;
    try reflexivity.
  - destruct sx; [reflexivity|discriminate].
  - destruct sx; [reflexivity|].
    destruct (Z.compare_spec e (-23)), (Z.compare_spec (-21) e);
      try lia; try discriminate; reflexivity.
Qed.

Lemma clampScale_cases s :
  (lt s one32 = true /\ Rasterizer.clampScale s = one32) \/
  (lt s one32 = false /\ gt s four32 = true /\ Rasterizer.clampScale s = four32) \/
  (lt s one32 = false /\ gt s four32 = false /\ Rasterizer.clampScale s = s).
Proof.
  unfold Rasterizer.clampScale.
  destruct (lt s one32) eqn:E1; [left; split; reflexivity|right].
  destruct (gt s four32) eqn:E2; [left|right]; auto.
Qed.

(** C8: every requested rasterisation scale that is a number is clamped to
    the closed range [1, 4] before rendering: a value below 1 becomes 1, a
    value above 4 becomes 4, a value inside the range is kept, and the
    rendering runs on the clamped value; a request of 10 is used as 4 and
    a request of 0 as 1. *)
Theorem svg_scale_clamped s :
  is_nan s = false ->
  le one32 (clampScale s) = true /\ le (clampScale s) four32 = true /\
  (lt s one32 = true -> clampScale s = one32) /\
  (gt s four32 = true -> clampScale s = four32) /\
  (le one32 s = true -> le s four32 = true -> clampScale s = s) /\
  (forall icon, rasterize icon s = render icon (clampScale s)) /\
  clampScale (f32 10 0) = f32 4 0 /\ clampScale (f32 0 0) = f32 1 0.
Proof.
  intros Hs.
  assert (H1 : is_nan one32 = false) by reflexivity.
  assert (H4 : is_nan four32 = false) by reflexivity.
  destruct (clampScale_cases s) as [[E1 E]|[(E1 & E2 & E)|(E1 & E2 & E)]];
    rewrite E.
  - pose proof (lt_one_not_gt_four s E1) as E2.
    repeat split; try reflexivity; try congruence;
      try (intros icon; unfold rasterize; now rewrite E).
    intros Hle _. apply le_lt_false in Hle. congruence.
  - repeat split; try reflexivity; try congruence;
      try (intros icon; unfold rasterize; now rewrite E).
    intros _ Hle. apply le_lt_false in Hle. unfold gt, lt in *. congruence.
  - repeat split; try reflexivity; try congruence;
      try (intros icon; unfold rasterize; now rewrite E).
    + now apply lt_false_le.
    + now apply lt_false_le.
Qed.


Lemma digits2_pos_bound m : Zpos m < 2 ^ Zpos (digits2_pos m).
Proof.
  induction m as [p IH|p IH|]; cbn [digits2_pos].
  - rewrite Pos2Z.inj_succ, Z.pow_succ_r by lia. lia.
  - rewrite Pos2Z.inj_succ, Z.pow_succ_r by lia. lia.
  - reflexivity.
Qed.

(** The mantissa of a [float32] has at most 24 bits. *)
Lemma valid32_mantissa s m e :
  valid32 (S754_finite s m e) -> Zpos m < 2 ^ 24 /\ -149 <= e <= 104.
Proof.
  unfold valid32, valid_binary, bounded, canonical_mantissa, fexp, emin,
    prec32, emax32.
  intros H. apply andb_true_iff in H. destruct H as [H1 H2].
  apply Z.eqb_eq in H1. apply Z.leb_le in H2.
  pose proof (digits2_pos_bound m) as Hd.
  assert (Zpos (digits2_pos m) <= 24) by lia.
  split; [|lia].
  apply Z.lt_le_trans with (2 ^ Zpos (digits2_pos m)); [assumption|].
  apply Z.pow_le_mono_r; lia.
Qed.

Lemma hundred_val : f32 100 0 = S754_finite false 13107200 (-17).
Proof. reflexivity. Qed.

Lemma quality_trunc q :
  quality_in_range q -> exists t, trunc q = Some t /\ 0 <= t <= 100.
Proof.
  intros (Hv & H0 & H100). rewrite hundred_val in H100.
  unfold le, SFleb in *.
  destruct q as [s|s| |s m e]; cbn [SFcompare] in *.
  - exists 0. split; [reflexivity|lia].
  - destruct s; discriminate.
  - discriminate.
  - destruct s; [discriminate|].
    destruct (valid32_mantissa _ _ _ Hv) as [Hm He].
    cbn [trunc].
    destruct (Z.compare_spec e (-17)) as [->|Hlt|Hgt]; [| |discriminate].
    + assert (Hle : Zpos m <= 13107200).
      { destruct (PosDef.Pos.compare_cont Eq m 13107200) eqn:Em;
          [| |discriminate H100].
        - apply (Pos.compare_eq m 13107200) in Em. subst m. discriminate.
        - apply (proj1 (Pos.compare_lt_iff m 13107200)) in Em.
          apply Z.lt_le_incl. exact Em. }
      clear Hv H0 H100 Hm He.
      eexists. split; [reflexivity|].
      change (0 <=? -17) with false. change (2 ^ (- -17)) with 131072.
      split; [apply Z.div_pos; lia|].
      apply Z.div_le_upper_bound; lia.
    + destruct (Z.leb_spec 0 e); [lia|].
      eexists. split; [reflexivity|].
      assert (Hp : 2 ^ 18 <= 2 ^ (- e)) by (apply Z.pow_le_mono_r; lia).
      change (2 ^ 18) with 262144 in Hp. change (2 ^ 24) with 16777216 in Hm.
      split; [apply Z.div_pos; lia|].
      apply Z.div_le_upper_bound; nia.
Qed.

(** C9 (amended): for a quality setting in [0, 100] the JPEG branch takes
    the integer part [t] of the setting; the integer quality handed to the
    encoder is [t] when [t] is at least 1 and the default 90 when [t] is 0
    (it is not clamped up to 1); the test against 100 then leaves it
    unchanged, so the result lies in 1..100. *)
Theorem jpeg_quality_conversion q :
  quality_in_range q ->
  exists t j,
    trunc q = Some t /\ 0 <= t <= 100 /\
    jpegQuality q = Some j /\ j = (if t <? 1 then 90 else t) /\ 1 <= j <= 100.
Proof.
  intros Hq. destruct (quality_trunc q Hq) as (t & Ht & Hr).
  exists t, (if t <? 1 then 90 else t).
  split; [assumption|]. split; [assumption|].
  unfold jpegQuality, to_int. rewrite Ht.
  assert (Hm : GoInt.maxInt = 9223372036854775807) by reflexivity.
  assert (Hn : GoInt.minInt = -9223372036854775808) by reflexivity.
  destruct (Z.leb_spec GoInt.minInt t); [|lia].
  destruct (Z.leb_spec t GoInt.maxInt); [|lia]. cbn [andb].
  destruct (Z.ltb_spec t 1).
  - repeat split; lia.
  - destruct (Z.gtb_spec t 100); [lia|]. repeat split; lia.
Qed.

(** C9, as stated, fails at quality 0: the integer part 0 is replaced by
    90, where a clamp to 1..100 gives 1. *)
Lemma jpeg_quality_not_clamped :
  quality_in_range zero /\ ~ quality_clamped zero.
Proof.
  split; [repeat split|].
  intros (t & Ht & Hj). injection Ht as <-. discriminate.
Qed.

Lemma jpeg_quality_conversion_witness :
  exists t j,
    trunc (f32 171 (-1)) = Some t /\ 0 <= t <= 100 /\
    jpegQuality (f32 171 (-1)) = Some j /\ j = (if t <? 1 then 90 else t) /\
    1 <= j <= 100.
Proof.
  apply (jpeg_quality_conversion (f32 171 (-1))). repeat split.
Defined.


Lemma ne_zero_zero : ne zero zero = false.
Proof. reflexivity. Qed.

(** C3 (amended): for original dimensions (W, H) the target dimensions are
    obtained by truncation towards zero of single-precision products, not
    by rounding: a uniform factor f gives int(float32(W) * f) by
    int(float32(H) * f); explicit width and height are used as they are; a
    width w alone gives the height int(float32(w) * (float32(H) /
    float32(W))); a height h alone gives the width int(float32(h) *
    (float32(W) / float32(H))).  A 100x100 image scaled by 0.5 gives 50x50
    and by 2.0 gives 200x200; a 200x100 image gives 100x50 for width 100
    and for height 50. *)
Theorem target_dims_truncate W H sp :
  spec_ok sp ->
  scale_by_spec W H sp = truncated_dims W H sp /\
  scale_by_spec 100 100 (Uniform (f32 1 (-1))) = Some (50, 50) /\
  scale_by_spec 100 100 (Uniform (f32 2 0)) = Some (200, 200) /\
  scale_by_spec 200 100 (WidthOnly 100) = Some (100, 50) /\
  scale_by_spec 200 100 (HeightOnly 50) = Some (100, 50).
Proof.
  intros Hok. split; [|repeat split; reflexivity].
  unfold scale_by_spec, targetDims.
  destruct sp as [f|w h|w|h]; cbn [spec_args spec_ok truncated_dims] in *.
  - rewrite Hok. reflexivity.
  - rewrite ne_zero_zero. destruct Hok as [Hw Hh].
    destruct (Z.eqb_spec w 0); [contradiction|].
    destruct (Z.eqb_spec h 0); [contradiction|]. reflexivity.
  - rewrite ne_zero_zero. destruct (Z.eqb_spec w 0); [contradiction|].
    reflexivity.
  - rewrite ne_zero_zero. destruct (Z.eqb_spec h 0); [contradiction|].
    reflexivity.
Qed.

(** C3, as stated, fails on a 5x5 image scaled by 0.75: the products are
    3.75, rounding gives 4x4, the code gives 3x3. *)
Lemma target_dims_not_rounded :
  spec_ok (Uniform (f32 3 (-2))) /\
  scale_by_spec 5 5 (Uniform (f32 3 (-2))) <>
    Some (rounded_dims 5 5 (Uniform (f32 3 (-2)))).
Proof. split; [reflexivity|]. vm_compute. discriminate. Qed.

Lemma svg_scale_clamped_witness :
  le one32 (clampScale (f32 10 0)) = true /\
  le (clampScale (f32 10 0)) four32 = true /\
  (lt (f32 10 0) one32 = true -> clampScale (f32 10 0) = one32) /\
  (gt (f32 10 0) four32 = true -> clampScale (f32 10 0) = four32) /\
  (le one32 (f32 10 0) = true -> le (f32 10 0) four32 = true ->
   clampScale (f32 10 0) = f32 10 0) /\
  (forall icon, rasterize icon (f32 10 0) = render icon (clampScale (f32 10 0))) /\
  clampScale (f32 10 0) = f32 4 0 /\ clampScale (f32 0 0) = f32 1 0.
Proof. apply (svg_scale_clamped (f32 10 0)). reflexivity. Defined.

Lemma target_dims_truncate_witness :
  scale_by_spec 640 480 (Uniform (f32 3 (-2))) =
    truncated_dims 640 480 (Uniform (f32 3 (-2))) /\
  scale_by_spec 100 100 (Uniform (f32 1 (-1))) = Some (50, 50) /\
  scale_by_spec 100 100 (Uniform (f32 2 0)) = Some (200, 200) /\
  scale_by_spec 200 100 (WidthOnly 100) = Some (100, 50) /\
  scale_by_spec 200 100 (HeightOnly 50) = Some (100, 50).
Proof. apply (target_dims_truncate 640 480 (Uniform (f32 3 (-2)))). reflexivity. Defined.

End FloatClaims.

(** ** Binary digits *)

Section Digits.
Import Float.

Lemma digits2_pos_lower m : 2 ^ (Zpos (digits2_pos m) - 1) <= Zpos m.
Proof.
  induction m as [p IH|p IH|]; cbn [digits2_pos].
  - rewrite Pos2Z.inj_succ.
    replace (Z.succ (Zpos (digits2_pos p)) - 1)
      with (Z.succ (Zpos (digits2_pos p) - 1)) by lia.
    rewrite Z.pow_succ_r by lia. lia.
  - rewrite Pos2Z.inj_succ.
    replace (Z.succ (Zpos (digits2_pos p)) - 1)
      with (Z.succ (Zpos (digits2_pos p) - 1)) by lia.
    rewrite Z.pow_succ_r by lia. lia.
  - reflexivity.
Qed.

(** The number of binary digits is fixed by the enclosing powers of 2. *)
Lemma digits2_pos_unique m k :
  2 ^ (k - 1) <= Zpos m < 2 ^ k -> Zpos (digits2_pos m) = k.
Proof.
  intros [Hlo Hhi].
  pose proof (digits2_pos_bound m) as Hu.
  pose proof (digits2_pos_lower m) as Hl.
  set (d := Zpos (digits2_pos m)) in *.
  assert (0 < d) by (unfold d; lia).
  destruct (Z.lt_trichotomy d k) as [Hlt|[Heq|Hgt]]; [|assumption|].
  - assert (0 <= k - 1) by lia.
    assert (2 ^ d <= 2 ^ (k - 1)) by (apply Z.pow_le_mono_r; lia). lia.
  - assert (0 < k).
    { destruct (Z.le_gt_cases k 0); [|assumption].
      destruct k; try lia. rewrite Z.pow_neg_r in Hhi by lia. lia. }
    assert (2 ^ k <= 2 ^ (d - 1)) by (apply Z.pow_le_mono_r; lia). lia.
Qed.

Lemma digits2_pos_shift m k (M : positive) :
  0 <= k -> Zpos M = Zpos m * 2 ^ k ->
  Zpos (digits2_pos M) = Zpos (digits2_pos m) + k.
Proof.
  intros Hk HM. apply digits2_pos_unique.
  pose proof (digits2_pos_bound m) as Hu.
  pose proof (digits2_pos_lower m) as Hl.
  set (d := Zpos (digits2_pos m)) in *.
  assert (0 < d) by (unfold d; lia).
  replace (d + k - 1) with ((d - 1) + k) by lia.
  rewrite !Z.pow_add_r by lia. rewrite HM.
  assert (0 < 2 ^ k) by (apply Z.pow_pos_nonneg; lia). nia.
Qed.

End Digits.

(** ** Exact rounding *)

Section Rounding.
Import Float.
Variables prec emax : Z.
Hypothesis Hprec : 0 < prec.

Lemma iter_pos_iter {A : Type} (f : A -> A) p x :
  SpecFloat.iter_pos f p x = Pos.iter f x p.
Proof.
  revert x. induction p as [p IH|p IH|]; intros x; cbn [SpecFloat.iter_pos Pos.iter].
  - rewrite !IH. now rewrite !Pos.iter_swap.
  - now rewrite !IH.
  - reflexivity.
Qed.

(** Shifting out [n] zero bits loses nothing. *)
Lemma shr_exact n (M : positive) (P : positive) :
  Zpos P = Zpos M * 2 ^ Zpos n ->
  SpecFloat.iter_pos shr_1 n (Build_shr_record (Zpos P) false false) =
    Build_shr_record (Zpos M) false false.
Proof.
  rewrite iter_pos_iter. revert M P.
  induction n as [|n IH] using Pos.peano_ind; intros M P HP.
  - cbn [Pos.iter]. assert (P = xO M) as -> by lia. reflexivity.
  - rewrite Pos.iter_succ. rewrite (IH (xO M) P).
    + reflexivity.
    + rewrite HP, Pos2Z.inj_succ, Z.pow_succ_r by lia. lia.
Qed.

Lemma fexp_normal d E :
  emin prec emax <= d + E - prec -> fexp prec emax (d + E) = d + E - prec.
Proof. unfold fexp. lia. Qed.

(** A mantissa that is a [prec]-digit number followed by [n] zero bits is
    rounded without error. *)
Lemma binary_round_aux_exact sx (M P : positive) E n :
  0 <= n -> Zpos P = Zpos M * 2 ^ n -> Zpos (digits2_pos M) = prec ->
  emin prec emax <= E + n <= emax - prec ->
  binary_round_aux prec emax sx (Zpos P) E loc_Exact = S754_finite sx M (E + n).
Proof.
  intros Hn HP HM [Hlo Hhi].
  assert (HdP : Zpos (digits2_pos P) = prec + n).
  { rewrite (digits2_pos_shift M n P) by assumption. lia. }
  assert (Hsecond :
            shr_fexp prec emax (Zpos M) (E + n) loc_Exact =
              (Build_shr_record (Zpos M) false false, E + n)).
  { unfold shr_fexp. cbn [Zdigits2 shr_record_of_loc]. rewrite HM.
    rewrite fexp_normal by lia.
    replace (prec + (E + n) - prec - (E + n)) with 0 by lia. reflexivity. }
  unfold binary_round_aux.
  assert (Hfirst :
            shr_fexp prec emax (Zpos P) E loc_Exact =
              (Build_shr_record (Zpos M) false false, E + n)).
  { unfold shr_fexp. cbn [Zdigits2 shr_record_of_loc]. rewrite HdP.
    rewrite fexp_normal by lia.
    replace (prec + n + E - prec - E) with n by lia.
    destruct n as [|p|p]; [| |lia].
    - cbn [shr]. rewrite Z.add_0_r. f_equal. f_equal.
      rewrite Z.pow_0_r in HP. lia.
    - cbn [shr]. f_equal. now apply shr_exact. }
  rewrite Hfirst. cbn [shr_m loc_of_shr_record round_nearest_even].
  rewrite Hsecond. cbn [shr_m].
  destruct (Z.leb_spec (E + n) (emax - prec)); [reflexivity|lia].
Qed.

Lemma pos_iter_xO m d : Zpos (Pos.iter xO m d) = Zpos m * 2 ^ Zpos d.
Proof.
  induction d as [|d IH] using Pos.peano_ind.
  - cbn [Pos.iter]. lia.
  - rewrite Pos.iter_succ, Pos2Z.inj_succ, Z.pow_succ_r by lia.
    rewrite Pos2Z.inj_xO, IH. lia.
Qed.

(** The canonical form of a number of at most [prec] digits. *)
Lemma binary_round_small sx (m : positive) E :
  Zpos (digits2_pos m) <= prec ->
  emin prec emax <= Zpos (digits2_pos m) + E - prec <= emax - prec ->
  exists M : positive,
    binary_round prec emax sx m E =
      S754_finite sx M (Zpos (digits2_pos m) + E - prec) /\
    Zpos M = Zpos m * 2 ^ (prec - Zpos (digits2_pos m)) /\
    Zpos (digits2_pos M) = prec.
Proof.
  intros Hd [Hlo Hhi]. set (d := Zpos (digits2_pos m)) in *.
  unfold binary_round. fold d. rewrite fexp_normal by lia.
  unfold shl_align.
  destruct (d + E - prec - E) as [|k|k] eqn:Ek; [| lia |].
  - assert (d = prec) by lia.
    exists m. replace (d + E - prec) with E by lia.
    rewrite (binary_round_aux_exact sx m m E 0); try lia.
    + rewrite Z.add_0_r. split; [reflexivity|].
      split; [|lia]. replace (prec - d) with 0 by lia. lia.
  - exists (Pos.iter xO m k).
    assert (Hk : Zpos k = prec - d) by lia.
    assert (HM : Zpos (Pos.iter xO m k) = Zpos m * 2 ^ (prec - d))
      by (rewrite pos_iter_xO, Hk; reflexivity).
    assert (HdM : Zpos (digits2_pos (Pos.iter xO m k)) = prec).
    { rewrite (digits2_pos_shift m (prec - d) _) by (lia || assumption).
      fold d. lia. }
    rewrite (binary_round_aux_exact sx (Pos.iter xO m k) (Pos.iter xO m k)
               (d + E - prec) 0); try lia.
    rewrite Z.add_0_r. auto.
Qed.

(** The product of two finite values whose exact product is a
    [prec]-digit number followed by [n] zero bits. *)
Lemma SFmul_exact sx sy (mx my M : positive) ex ey n :
  0 <= n -> Zpos mx * Zpos my = Zpos M * 2 ^ n ->
  Zpos (digits2_pos M) = prec ->
  emin prec emax <= ex + ey + n <= emax - prec ->
  SFmul prec emax (S754_finite sx mx ex) (S754_finite sy my ey) =
    S754_finite (xorb sx sy) M (ex + ey + n).
Proof.
  intros Hn HP HM Hr. cbn [SFmul].
  apply binary_round_aux_exact; assumption.
Qed.

End Rounding.

(** ** The sample coordinates of the downsampling pass *)

Section Sampling.
Import Float Rasterizer.

Lemma emin64_val : emin prec64 emax64 = -1074.
Proof. reflexivity. Qed.

(** A scale in [1, 4] is a normal number with exponent -23, -22 or -21. *)
Lemma scale_form s :
  valid32 s -> le one32 s = true -> le s four32 = true ->
  exists m e, s = S754_finite false m e /\
              2 ^ 23 <= Zpos m < 2 ^ 24 /\ -23 <= e <= -21.
Proof.
  intros Hv H1 H4. rewrite one32_val in H1. rewrite four32_val in H4.
  unfold le, SFleb in *.
  destruct s as [sx|sx| |sx m e]; cbn [SFcompare] in *; try discriminate.
  - destruct sx; discriminate.
  - destruct sx; [discriminate|].
    exists m, e. split; [reflexivity|].
    assert (He : -23 <= e <= -21).
    { destruct (Z.compare_spec (-23) e), (Z.compare_spec e (-21));
        try discriminate; lia. }
    split; [|assumption].
    unfold valid32, valid_binary, bounded, canonical_mantissa, fexp, emin,
      prec32, emax32 in Hv.
    apply andb_true_iff in Hv. destruct Hv as [Hc _]. apply Z.eqb_eq in Hc.
    assert (Hd : Zpos (digits2_pos m) = 24) by lia.
    pose proof (digits2_pos_bound m) as Hu.
    pose proof (digits2_pos_lower m) as Hl.
    rewrite Hd in Hu, Hl. exact (conj Hl Hu).
Qed.

(** [float64(scale)] of a normal [float32]. *)
Lemma f64_of_f32_normal m e :
  2 ^ 23 <= Zpos m < 2 ^ 24 -> -149 <= e <= 104 ->
  exists M : positive,
    f64_of_f32 (S754_finite false m e) = S754_finite false M (e - 29) /\
    Zpos M = Zpos m * 2 ^ 29 /\ Zpos (digits2_pos M) = 53.
Proof.
  intros Hm He.
  assert (Hd : Zpos (digits2_pos m) = 24) by (apply digits2_pos_unique; exact Hm).
  destruct (binary_round_small prec64 emax64 false m e) as (M & HM & HMv & HMd).
  - rewrite Hd. unfold prec64. lia.
  - rewrite Hd, emin64_val. unfold prec64, emax64. lia.
  - exists M. cbn [f64_of_f32]. rewrite HM, Hd in *. unfold prec64 in *.
    split; [f_equal; lia|]. split; [|assumption].
    rewrite HMv. reflexivity.
Qed.

(** [float64(v)] of a positive [int] below 2^53. *)
Lemma f64_of_int_pos (v : positive) :
  Zpos v < 2 ^ 53 ->
  exists M : positive,
    f64_of_int (Zpos v) = S754_finite false M (Zpos (digits2_pos v) - 53) /\
    Zpos M = Zpos v * 2 ^ (53 - Zpos (digits2_pos v)) /\
    Zpos (digits2_pos M) = 53.
Proof.
  intros Hv.
  pose proof (digits2_pos_lower v) as Hl.
  assert (Hd : Zpos (digits2_pos v) <= 53).
  { destruct (Z.le_gt_cases (Zpos (digits2_pos v)) 53); [assumption|].
    assert (2 ^ 53 <= 2 ^ (Zpos (digits2_pos v) - 1))
      by (apply Z.pow_le_mono_r; lia). lia. }
  destruct (binary_round_small prec64 emax64 false v 0) as (M & HM & HMv & HMd).
  - exact Hd.
  - rewrite emin64_val. unfold prec64, emax64. lia.
  - exists M. unfold f64_of_int, f64. cbn [binary_normalize].
    rewrite HM. unfold prec64 in *.
    split; [f_equal; lia|]. split; assumption.
Qed.

(** The sample coordinate is the integer part of the exact product. *)
Lemma src_exact v m e :
  0 <= v < 2 ^ 29 -> 2 ^ 23 <= Zpos m < 2 ^ 24 -> -23 <= e <= -21 ->
  src v (S754_finite false m e) = Some (v * Zpos m / 2 ^ (- e)).
Proof.
  intros Hv Hm He. unfold src.
  destruct (f64_of_f32_normal m e Hm ltac:(lia)) as (My & Hy & HyV & HyD).
  rewrite Hy.
  destruct v as [|v|v]; [| |lia].
  - reflexivity.
  - assert (Hv53 : Zpos v < 2 ^ 53).
    { apply Z.lt_trans with (2 ^ 29); [lia|]. reflexivity. }
    destruct (f64_of_int_pos v Hv53) as (Mx & Hx & HxV & HxD).
    rewrite Hx.
    set (dv := Zpos (digits2_pos v)) in *.
    pose proof (digits2_pos_lower v) as Hvl. fold dv in Hvl.
    pose proof (digits2_pos_bound v) as Hvu. fold dv in Hvu.
    assert (Hdv : 1 <= dv <= 29).
    { split; [unfold dv; lia|].
      destruct (Z.le_gt_cases dv 29); [assumption|].
      assert (2 ^ 29 <= 2 ^ (dv - 1)) by (apply Z.pow_le_mono_r; lia). lia. }
    set (q := (v * m)%positive).
    assert (Hq : Zpos q = Zpos v * Zpos m) by reflexivity.
    set (dq := Zpos (digits2_pos q)).
    pose proof (digits2_pos_lower q) as Hql. fold dq in Hql.
    pose proof (digits2_pos_bound q) as Hqu. fold dq in Hqu.
    assert (Hq53 : Zpos q < 2 ^ 53).
    { rewrite Hq. change (2 ^ 53) with (2 ^ 29 * 2 ^ 24).
      apply Z.mul_lt_mono_nonneg; lia. }
    assert (Hdq : dv <= dq <= 53).
    { split.
      - destruct (Z.le_gt_cases dv dq); [assumption|].
        assert (2 ^ dq <= 2 ^ (dv - 1)) by (apply Z.pow_le_mono_r; unfold dq; lia).
        assert (Zpos v <= Zpos q) by (rewrite Hq; nia). lia.
      - destruct (Z.le_gt_cases dq 53); [assumption|].
        assert (2 ^ 53 <= 2 ^ (dq - 1)) by (apply Z.pow_le_mono_r; lia). lia. }
    assert (Hpow : 0 < 2 ^ (53 - dq)) by (apply Z.pow_pos_nonneg; lia).
    set (M := Z.to_pos (Zpos q * 2 ^ (53 - dq))).
    assert (HM : Zpos M = Zpos q * 2 ^ (53 - dq))
      by (unfold M; rewrite Z2Pos.id; lia).
    assert (HMd : Zpos (digits2_pos M) = 53).
    { rewrite (digits2_pos_shift q (53 - dq) M) by (lia || assumption).
      fold dq. lia. }
    unfold mul64.
    rewrite (SFmul_exact prec64 emax64 false false Mx My M _ _ (29 - dv + dq)).
    + cbn [xorb]. unfold to_int. cbn [trunc].
      replace (dv - 53 + (e - 29) + (29 - dv + dq)) with (e + dq - 53) by lia.
      destruct (Z.leb_spec 0 (e + dq - 53)); [lia|].
      assert (Hdiv : Zpos M / 2 ^ (- (e + dq - 53)) = Zpos q / 2 ^ (- e)).
      { rewrite HM. replace (- (e + dq - 53)) with (- e + (53 - dq)) by lia.
        rewrite Z.pow_add_r by lia.
        apply Z.div_mul_cancel_r; [|lia].
        assert (0 < 2 ^ (- e)) by (apply Z.pow_pos_nonneg; lia). lia. }
      rewrite Hdiv, Hq.
      assert (Hpe : 0 < 2 ^ (- e)) by (apply Z.pow_pos_nonneg; lia).
      assert (Hr : 0 <= Zpos v * Zpos m / 2 ^ (- e) <= Zpos v * Zpos m).
      { split; [apply Z.div_pos; lia|].
        apply Z.div_le_upper_bound; [lia|]. nia. }
      assert (Hm' : GoInt.maxInt = 9223372036854775807) by reflexivity.
      assert (Hn' : GoInt.minInt = -9223372036854775808) by reflexivity.
      assert (H53 : 2 ^ 53 = 9007199254740992) by reflexivity.
      rewrite <- Hq in *.
      destruct (Z.leb_spec GoInt.minInt (Zpos q / 2 ^ (- e))); [|lia].
      destruct (Z.leb_spec (Zpos q / 2 ^ (- e)) GoInt.maxInt); [|lia].
      reflexivity.
    + lia.
    + rewrite HxV, HyV, HM, Hq. fold dv.
      replace (29 - dv + dq) with ((53 - dv) + 29 - (53 - dq)) by lia.
      rewrite (Z.pow_sub_r 2 ((53 - dv) + 29) (53 - dq)) by lia.
      rewrite (Z.pow_add_r 2 (53 - dv) 29) by lia.
      assert (Hdivd : (2 ^ (53 - dq) | 2 ^ (53 - dv) * 2 ^ 29)).
      { rewrite <- Z.pow_add_r by lia.
        exists (2 ^ (53 - dv + 29 - (53 - dq))).
        rewrite <- Z.pow_add_r by lia. f_equal. lia. }
      destruct Hdivd as [c Hc]. rewrite Hc.
      rewrite Z.div_mul by lia. nia.
    + assumption.
    + rewrite emin64_val. unfold prec64, emax64. fold dv. lia.
Qed.

End Sampling.

(** ** The downsampling loops *)

Section Downsample.
Import Float image Rasterizer.

Lemma byte_at_replicate n i : byte_at (replicate n 0) i = 0.
Proof.
  unfold byte_at. destruct (replicate n 0 !! Z.to_nat i) as [v|] eqn:E;
    [|reflexivity].
  apply lookup_replicate in E. now destruct E as [-> _].
Qed.

Lemma RGBA_At_fresh n st r x y :
  RGBA_At (RGBA_ (replicate n 0) st r) x y = color.transparent.
Proof.
  unfold RGBA_At. cbn [Pix RGBA_Rect]. destruct (In x y r); [|reflexivity].
  now rewrite !byte_at_replicate.
Qed.

Lemma NewRGBA_origin_small w h :
  0 <= w <= 2 ^ 29 -> 0 <= h <= 2 ^ 29 ->
  NewRGBA (Rect 0 0 w h) =
    Some (RGBA_ (replicate (Z.to_nat (4 * w * h)) 0) (4 * w)
                (Rectangle_ (Pt 0 0) (Pt w h))).
Proof.
  intros Hw Hh. rewrite Rect_canonical by lia.
  assert (Hm : GoInt.maxInt = 9223372036854775807) by reflexivity.
  assert (Hn : GoInt.minInt = -9223372036854775808) by reflexivity.
  assert (H29 : 2 ^ 29 = 536870912) by reflexivity. rewrite H29 in *.
  unfold NewRGBA, Dx, Dy. cbn [X Y Min Max].
  rewrite !sub_in_range by (unfold GoInt.in_range; lia).
  rewrite !Z.sub_0_r, mul_in_range by (unfold GoInt.in_range; lia).
  unfold mul3NonNeg.
  destruct (Z.ltb_spec 4 0); [lia|]. destruct (Z.ltb_spec w 0); [lia|].
  destruct (Z.ltb_spec h 0); [lia|]. cbn [orb].
  change (2 ^ 64) with 18446744073709551616.
  destruct (Z.leb_spec 18446744073709551616 (4 * w)); [lia|].
  destruct (Z.leb_spec 18446744073709551616 (4 * w * h)); [nia|].
  destruct (Z.gtb_spec (4 * w * h) GoInt.maxInt); [nia|].
  destruct (Z.ltb_spec (4 * w * h) 0); [nia|]. reflexivity.
Qed.

Lemma fresh_wf w h :
  0 <= w -> 0 <= h ->
  wf (RGBA_ (replicate (Z.to_nat (4 * w * h)) 0) (4 * w)
            (Rectangle_ (Pt 0 0) (Pt w h))).
Proof.
  intros Hw Hh. unfold wf. cbn [RGBA_Rect Stride Pix X Y Min Max].
  rewrite length_replicate. repeat split; nia.
Qed.

Variables (img : RGBA) (scale : float32) (fx : Z -> Z).
Variables (renderWidth renderHeight iw ih : Z).
Hypothesis Hfx : forall v, 0 <= v < 2 ^ 29 -> src v scale = Some (fx v).
Hypothesis Hiw : 0 <= iw <= 2 ^ 29.
Hypothesis Hih : 0 <= ih <= 2 ^ 29.

Lemma sample_step y x acc :
  0 <= x < iw -> 0 <= y < ih ->
  downsampled img fx renderWidth renderHeight iw ih y x acc ->
  downsampled img fx renderWidth renderHeight iw ih y (x + 1)
    (sample img scale renderWidth renderHeight y x acc).
Proof.
  intros Hx Hy (p & -> & Hwf & HR & Hat).
  unfold sample. cbn [Scaling.bind].
  rewrite (Hfx x), (Hfx y) by lia. cbn [Scaling.bind].
  assert (Hin : In x y (RGBA_Rect p) = true)
    by (rewrite HR; apply In_spec; cbn [X Y Min Max]; lia).
  assert (Hnew : forall px py,
             visited y (x + 1) px py =
               visited y x px py || ((px =? x) && (py =? y))).
  { intros px py. unfold visited.
    destruct (Z.ltb_spec py y), (Z.eqb_spec py y), (Z.ltb_spec px (x + 1)),
      (Z.ltb_spec px x), (Z.eqb_spec px x); cbn; try reflexivity; lia. }
  assert (Hcur : visited y x x y = false).
  { unfold visited. rewrite !Z.ltb_irrefl. now rewrite andb_false_r. }
  pose proof (Hat x y Hx Hy) as Hxy. rewrite Hcur in Hxy.
  destruct ((fx x <? renderWidth) && (fx y <? renderHeight)) eqn:Eb.
  - eexists. split; [reflexivity|]. split; [now apply RGBA_Set_wf|].
    split; [now rewrite RGBA_Set_Rect|].
    intros px py Hpx Hpy. rewrite Hnew.
    destruct (Z.eqb_spec px x) as [->|Hne].
    + destruct (Z.eqb_spec py y) as [->|Hne'].
      * rewrite orb_true_r. rewrite RGBA_At_Set_eq by assumption.
        rewrite rgbaModel_RGBA_At. unfold sampled. now rewrite Eb.
      * cbn [andb]. rewrite orb_false_r.
        rewrite RGBA_At_Set_ne; [now apply Hat|assumption|congruence].
    + cbn [andb]. rewrite orb_false_r.
      rewrite RGBA_At_Set_ne; [now apply Hat|assumption|congruence].
  - exists p. split; [reflexivity|]. split; [assumption|].
    split; [assumption|].
    intros px py Hpx Hpy. rewrite Hnew.
    destruct (Z.eqb_spec px x) as [->|Hne].
    + destruct (Z.eqb_spec py y) as [->|Hne'].
      * rewrite orb_true_r. rewrite Hxy. unfold sampled. now rewrite Eb.
      * cbn [andb]. rewrite orb_false_r. now apply Hat.
    + cbn [andb]. rewrite orb_false_r. now apply Hat.
Qed.

Lemma downsampled_ext y x y' x' acc :
  (forall px py, 0 <= px < iw -> 0 <= py < ih ->
                 visited y x px py = visited y' x' px py) ->
  downsampled img fx renderWidth renderHeight iw ih y x acc ->
  downsampled img fx renderWidth renderHeight iw ih y' x' acc.
Proof.
  intros Hv (p & -> & Hwf & HR & Hat). exists p.
  split; [reflexivity|]. split; [assumption|]. split; [assumption|].
  intros px py Hpx Hpy. rewrite <- Hv by assumption. now apply Hat.
Qed.

Lemma downsample_loops p0 :
  wf p0 -> RGBA_Rect p0 = Rectangle_ (Pt 0 0) (Pt iw ih) ->
  (forall x y, RGBA_At p0 x y = color.transparent) ->
  downsampled img fx renderWidth renderHeight iw ih ih 0
    (for_lt 0 ih
       (fun y => for_lt 0 iw (sample img scale renderWidth renderHeight y))
       (Some p0)).
Proof.
  intros Hwf HR Hfresh.
  apply (for_lt_inv
           (fun y acc => downsampled img fx renderWidth renderHeight iw ih y 0 acc)).
  - lia.
  - exists p0. split; [reflexivity|]. split; [assumption|].
    split; [assumption|]. intros px py Hpx Hpy. rewrite Hfresh.
    unfold visited. destruct (Z.ltb_spec py 0), (Z.eqb_spec py 0),
      (Z.ltb_spec px 0); cbn; try reflexivity; lia.
  - intros y acc Hy Hacc.
    apply downsampled_ext with (y := y) (x := iw).
    { intros px py Hpx Hpy. unfold visited.
      destruct (Z.ltb_spec py y), (Z.eqb_spec py y), (Z.ltb_spec px iw),
        (Z.ltb_spec py (y + 1)), (Z.eqb_spec py (y + 1)), (Z.ltb_spec px 0);
        cbn; try reflexivity; lia. }
    apply (for_lt_inv
             (fun x acc => downsampled img fx renderWidth renderHeight iw ih y x acc)).
    + lia.
    + assumption.
    + intros x t Hx Ht. now apply sample_step.
Qed.

End Downsample.

(** ** Claims about the rasteriser *)

Section RasterClaims.
Import Float image Rasterizer RasterSamples.

Lemma for_lt_preserve {St : Type} (P : St -> Prop) lo hi
    (body : Z -> St -> St) s :
  P s -> (forall v t, P t -> P (body v t)) -> P (for_lt lo hi body s).
Proof.
  intros Hs Hstep. destruct (Z.le_gt_cases lo hi).
  - apply (for_lt_inv (fun _ t => P t)); auto.
  - rewrite for_lt_empty by lia. assumption.
Qed.

Lemma clear_wf w h p :
  wf p -> wf (clear w h p) /\ RGBA_Rect (clear w h p) = RGBA_Rect p.
Proof.
  intros Hwf. unfold clear.
  apply (for_lt_preserve (fun t => wf t /\ RGBA_Rect t = RGBA_Rect p));
    [split; auto|].
  intros y t Ht.
  apply (for_lt_preserve (fun t => wf t /\ RGBA_Rect t = RGBA_Rect p));
    [assumption|].
  intros x u [Hu HR]. split; [now apply RGBA_Set_wf|].
  now rewrite RGBA_Set_Rect.
Qed.

Lemma clampScale_range s :
  is_nan s = false ->
  le one32 (clampScale s) = true /\ le (clampScale s) four32 = true.
Proof.
  intros Hs.
  assert (H1 : is_nan one32 = false) by reflexivity.
  assert (H4 : is_nan four32 = false) by reflexivity.
  destruct (clampScale_cases s) as [[E1 E]|[(E1 & E2 & E)|(E1 & E2 & E)]];
    rewrite E.
  - split; reflexivity.
  - split; reflexivity.
  - split; now apply lt_false_le.
Qed.

Lemma clampScale_valid s : valid32 s -> valid32 (clampScale s).
Proof.
  intros Hs.
  destruct (clampScale_cases s) as [[E1 E]|[(E1 & E2 & E)|(E1 & E2 & E)]];
    rewrite E; [reflexivity|reflexivity|assumption].
Qed.

(** The integer part of the exact product of an [int] and a scale. *)
Lemma Qfloor_scale v m e :
  e < 0 ->
  Qfloor (inject_Z v * to_Q (S754_finite false m e)) = v * Zpos m / 2 ^ (- e).
Proof.
  intros He. cbn [to_Q]. destruct (Z.leb_spec 0 e); [lia|].
  assert (Hp : 0 < 2 ^ (- e)) by (apply Z.pow_pos_nonneg; lia).
  unfold Qfloor, Qmult, inject_Z. cbn [Qnum Qden].
  rewrite Pos.mul_1_l, Z2Pos.id by assumption. reflexivity.
Qed.

(** C6: when the clamped rasterisation scale is not 1, the rasteriser
    returns a buffer at intrinsic size (int(width), int(height)), not at
    the size of the working canvas; each of its pixels (x, y) is a copy of
    the working-canvas pixel at (floor(x * scale), floor(y * scale)) when
    that coordinate is below the canvas width and height, and is left at
    the transparent default of the allocation otherwise. *)
Theorem downsample_point_samples icon s width height iw ih rw rh :
  draws_in_place icon -> valid32 s -> is_nan s = false ->
  ne (clampScale s) one32 = true ->
  intrinsic icon = (width, height) ->
  to_int width = Some iw -> to_int height = Some ih ->
  0 <= iw <= 2 ^ 29 -> 0 <= ih <= 2 ^ 29 ->
  renderDims width height (clampScale s) = Some (rw, rh) ->
  0 <= rw <= 2 ^ 29 -> 0 <= rh <= 2 ^ 29 ->
  exists cv out,
    canvas icon (clampScale s) = Some cv /\
    RGBA_Rect cv = Rectangle_ (Pt 0 0) (Pt rw rh) /\
    rasterize icon s = Some out /\
    RGBA_Rect out = Rectangle_ (Pt 0 0) (Pt iw ih) /\
    forall x y, 0 <= x < iw -> 0 <= y < ih ->
      let sx := Qfloor (inject_Z x * to_Q (clampScale s)) in
      let sy := Qfloor (inject_Z y * to_Q (clampScale s)) in
      RGBA_At out x y =
        if (sx <? rw) && (sy <? rh) then RGBA_At cv sx sy
        else color.transparent.
Proof.
  intros Hdraw Hv Hnan Hne Hint Hw Hh Hiw Hih Hrd Hrw Hrh.
  destruct (clampScale_range s Hnan) as [H1 H4].
  pose proof (clampScale_valid s Hv) as Hcv.
  unfold rasterize. set (c := clampScale s) in *.
  destruct (scale_form c Hcv H1 H4) as (m & e & Ec & Hm & He).
  set (fx := fun v => v * Zpos m / 2 ^ (- e)).
  assert (Hfx : forall v, 0 <= v < 2 ^ 29 -> src v c = Some (fx v)).
  { intros v Hvr. rewrite Ec. now apply src_exact. }
  assert (Hcanvas : exists cv, canvas icon c = Some cv /\ wf cv /\
                               RGBA_Rect cv = Rectangle_ (Pt 0 0) (Pt rw rh)).
  { unfold canvas. rewrite Hint, Hrd. cbn [Scaling.bind].
    rewrite NewRGBA_origin_small by assumption. cbn [Scaling.bind].
    eexists. split; [reflexivity|].
    destruct (clear_wf rw rh _ (fresh_wf rw rh ltac:(lia) ltac:(lia)))
      as [Hcw HcR].
    destruct (Hdraw (mul64 width (f64_of_f32 c)) (mul64 height (f64_of_f32 c))
                _ Hcw) as [Hdw HdR].
    split; [assumption|]. now rewrite HdR, HcR. }
  destruct Hcanvas as (cv & Hcanvas & Hcvwf & HcvR).
  pose proof (downsample_loops cv c fx rw rh iw ih Hfx Hiw Hih _
                (fresh_wf iw ih ltac:(lia) ltac:(lia)) eq_refl
                (RGBA_At_fresh _ _ _)) as (out & Hout & Howf & HoR & Hat).
  exists cv, out. split; [assumption|]. split; [assumption|].
  split.
  { unfold render. rewrite Hint, Hrd. cbn [Scaling.bind].
    rewrite Hcanvas. cbn [Scaling.bind]. rewrite Hne.
    unfold downsample. rewrite Hw, Hh. cbn [Scaling.bind].
    rewrite NewRGBA_origin_small by assumption. cbn [Scaling.bind].
    exact Hout. }
  split; [assumption|].
  intros x y Hx Hy. cbn zeta. rewrite Ec, !Qfloor_scale by lia.
  rewrite (Hat x y Hx Hy).
  assert (Hvis : visited ih 0 x y = true).
  { unfold visited. destruct (Z.ltb_spec y ih); [reflexivity|lia]. }
  rewrite Hvis. reflexivity.
Qed.

Lemma dot_icon_draws_in_place : draws_in_place dot_icon.
Proof.
  intros w h p Hwf. cbn [dot_icon Draw].
  split; [now apply RGBA_Set_wf|apply RGBA_Set_Rect].
Qed.

Lemma downsample_point_samples_witness :
  exists cv out,
    canvas dot_icon (clampScale (f32 2 0)) = Some cv /\
    RGBA_Rect cv = Rectangle_ (Pt 0 0) (Pt 4 6) /\
    rasterize dot_icon (f32 2 0) = Some out /\
    RGBA_Rect out = Rectangle_ (Pt 0 0) (Pt 2 3) /\
    forall x y, 0 <= x < 2 -> 0 <= y < 3 ->
      let sx := Qfloor (inject_Z x * to_Q (clampScale (f32 2 0))) in
      let sy := Qfloor (inject_Z y * to_Q (clampScale (f32 2 0))) in
      RGBA_At out x y =
        if (sx <? 4) && (sy <? 6) then RGBA_At cv sx sy
        else color.transparent.
Proof.
  apply (downsample_point_samples dot_icon (f32 2 0) (f64 2 0) (f64 3 0) 2 3 4 6);
    try reflexivity; try (vm_compute; split; discriminate).
  exact dot_icon_draws_in_place.
Defined.

End RasterClaims.

(** ** The monad of the orchestrator *)

Section Traces.
Import Orchestrator.
Context {A B : Type}.

Lemma bind_inl (m : M A) (k : A -> M B) e :
  outcome m = inl e -> bind m k = (trace m, inl e).
Proof. destruct m as [tr [e'|a]]; cbn; congruence. Qed.

Lemma bind_inr (m : M A) (k : A -> M B) a :
  outcome m = inr a -> bind m k = (trace m ++ trace (k a), outcome (k a)).
Proof.
  destruct m as [tr [e'|a']]; cbn; [discriminate|]. intros [= ->].
  now destruct (k a).
Qed.

Lemma quiet_bind (m : M A) (k : A -> M B) :
  quiet m -> (forall a, quiet (k a)) -> quiet (bind m k).
Proof.
  unfold quiet. intros Hm Hk. destruct m as [tr [e|a]]; cbn in *; [assumption|].
  specialize (Hk a). destruct (k a) as [tr' r]. cbn in *.
  apply Forall_app. now split.
Qed.

Lemma accepts_bind (m : M A) (k : A -> M B) :
  accepts m -> (forall a, accepts (k a)) -> accepts (bind m k).
Proof.
  unfold accepts. intros Hm Hk. destruct m as [tr [e|a]]; cbn in *.
  - intros a' E. apply (Hm a'). congruence.
  - specialize (Hk a). now destruct (k a) as [tr' r].
Qed.

End Traces.

Section TraceFacts.
Import Orchestrator.

Lemma quiet_ret {A : Type} (a : A) : quiet (ret a).
Proof. constructor. Qed.

Lemma quiet_fail {A : Type} e : quiet (@fail A e).
Proof. constructor. Qed.

Lemma quiet_emit e : is_output e = false -> quiet (emit e).
Proof. intros H. repeat constructor. assumption. Qed.

Lemma quiet_check e b : quiet (check e b).
Proof. destruct b; constructor. Qed.

Lemma quiet_of_option {A : Type} e (o : option A) : quiet (of_option e o).
Proof. destruct o; constructor. Qed.

Lemma quiet_wrap {A : Type} w (m : M A) : quiet m -> quiet (wrap w m).
Proof. unfold quiet. now destruct m as [tr [e|a]]. Qed.

Lemma quiet_defer {A : Type} e (m : M A) :
  is_output e = false -> quiet m -> quiet (defer e m).
Proof.
  unfold quiet. destruct m as [tr r]. cbn. intros He Hm.
  apply Forall_app. split; [assumption|]. repeat constructor. assumption.
Qed.

Lemma accepts_ret {A : Type} (a : A) : accepts (ret a).
Proof. intros a'. discriminate. Qed.

Lemma accepts_fail {A : Type} e : other_error e -> accepts (@fail A e).
Proof. intros He a [= ->]. exact He. Qed.

Lemma accepts_emit e : accepts (emit e).
Proof. intros a. discriminate. Qed.

Lemma accepts_check e b : other_error e -> accepts (check e b).
Proof. destruct b; [intros _ a; discriminate|apply accepts_fail]. Qed.

Lemma accepts_defer {A : Type} e (m : M A) : accepts m -> accepts (defer e m).
Proof. unfold accepts. now destruct m as [tr r]. Qed.

Lemma accepts_wrap {A : Type} w (m : M A) :
  (forall e, other_error (w e)) -> accepts (wrap w m).
Proof.
  intros Hw a. destruct m as [tr [e|x]]; cbn; [|discriminate].
  intros [= E]. specialize (Hw e). rewrite E in Hw. exact Hw.
Qed.

End TraceFacts.

(** ** Claims about the algorithm dispatch of [ScaleImage] *)

Section DispatchClaims.
Import Orchestrator.
Variable env : Env.

Ltac quiet_steps :=
  repeat first
    [ apply quiet_bind; [|intros ?]
    | apply quiet_wrap
    | apply quiet_defer; [reflexivity|]
    | apply quiet_emit; reflexivity
    | apply quiet_check
    | apply quiet_of_option
    | apply quiet_ret
    | apply quiet_fail ].

Lemma loadInput_quiet inputPath svgScale : quiet (loadInput env inputPath svgScale).
Proof.
  unfold loadInput, LoadImage, loadSVG, loadSVGWithScale.
  repeat match goal with
         | |- context [if ?b then _ else _] => destruct b
         end; quiet_steps.
Qed.

Lemma trace_wrap {A : Type} w (m : M A) : trace (wrap w m) = trace m.
Proof. now destruct m as [tr [e|a]]. Qed.

Lemma trace_emit_bind {A : Type} e (k : unit -> M A) :
  exists tl, trace (bind (emit e) k) = e :: tl.
Proof. cbn. destruct (k tt) as [tr r]. cbn. eauto. Qed.

(** Loading starts by opening the input file. *)
Lemma loadInput_opens inputPath svgScale :
  exists tl, trace (loadInput env inputPath svgScale) = EvOpen inputPath :: tl.
Proof.
  unfold loadInput, LoadImage, loadSVG, loadSVGWithScale.
  repeat match goal with
         | |- context [if ?b then _ else _] => destruct b
         end; rewrite trace_wrap; apply trace_emit_bind.
Qed.

Lemma selectFilter_None algorithm :
  selectFilter env algorithm = None <-> ~ recognized env algorithm.
Proof.
  unfold selectFilter, recognized. cbn [List.In].
  destruct (String.eqb_spec (ToLower env algorithm) "nearest");
    [split; [discriminate|intros Hn; exfalso; apply Hn; intuition congruence]|].
  destruct (String.eqb_spec (ToLower env algorithm) "bilinear");
    [split; [discriminate|intros Hn; exfalso; apply Hn; intuition congruence]|].
  destruct (String.eqb_spec (ToLower env algorithm) "linear");
    [split; [discriminate|intros Hn; exfalso; apply Hn; intuition congruence]|].
  destruct (String.eqb_spec (ToLower env algorithm) "bicubic");
    [split; [discriminate|intros Hn; exfalso; apply Hn; intuition congruence]|].
  destruct (String.eqb_spec (ToLower env algorithm) "cubic");
    [split; [discriminate|intros Hn; exfalso; apply Hn; intuition congruence]|].
  destruct (String.eqb_spec (ToLower env algorithm) "lanczos");
    [split; [discriminate|intros Hn; exfalso; apply Hn; intuition congruence]|].
  cbn [orb]. split; [|reflexivity]. intros _ H.
  repeat (destruct H as [H|H]; [congruence|]). exact H.
Qed.

Ltac accepts_steps :=
  repeat first
    [ apply accepts_bind; [|intros ?]
    | apply accepts_defer
    | apply accepts_emit
    | apply accepts_check; exact I
    | apply accepts_fail; exact I
    | apply accepts_ret ].

Lemma saveImage_accepts img outputPath quality :
  accepts (saveImage env img outputPath quality).
Proof.
  unfold saveImage.
  repeat match goal with
         | |- context [if ?b then _ else _] => destruct b
         end; accepts_steps.
Qed.

Lemma loadInput_accepts inputPath svgScale :
  accepts (loadInput env inputPath svgScale).
Proof.
  unfold loadInput. destruct (String.eqb _ _); apply accepts_wrap; intros e; exact I.
Qed.

(** C4, as stated, fails in a world where the input file exists: before
    the name "foo" is rejected the file has been opened, read and closed
    and the dimension line printed. *)
Lemma unsupported_algorithm_reads_input :
  ~ recognized sample_env "foo" /\
  ~ fails_without_io sample_env "in.png" "out.png" (Float.f32 1 (-1)) 0 0 "foo"
      (Float.f32 90 0) (Float.f32 2 0).
Proof.
  split.
  - intros H. unfold recognized in H. vm_compute in H.
    repeat (destruct H as [H|H]; [discriminate|]). exact H.
  - unfold fails_without_io. vm_compute. discriminate.
Qed.

(** C4 (amended): for every unrecognised algorithm name the scale
    operation first loads the input (it opens the input file, and reads
    and prints along the way); when that load fails its error is returned,
    and when it succeeds the operation prints the dimension line and then
    fails with UnsupportedAlgorithm, never falling back to a default
    filter; in both cases no action touches the output location (no
    directory or file is created, nothing is written). *)
Theorem unsupported_algorithm_after_load
    inputPath outputPath factor width height algorithm quality svgScale :
  ~ recognized env algorithm ->
  let run := ScaleImage env inputPath outputPath factor width height
               algorithm quality svgScale in
  let load := loadInput env inputPath svgScale in
  (forall img, outcome load = inr img ->
     outcome run = inl (UnsupportedAlgorithm algorithm) /\
     trace run = trace load ++ [EvPrint "Scaling from %dx%d to %dx%d\n"]) /\
  (forall e, outcome load = inl e -> run = (trace load, inl e)) /\
  quiet run /\
  exists tl, trace run = EvOpen inputPath :: tl.
Proof.
  intros Hun run load. apply selectFilter_None in Hun.
  pose proof (loadInput_quiet inputPath svgScale) as Hq. fold load in Hq.
  destruct (loadInput_opens inputPath svgScale) as [tl Htl]. fold load in Htl.
  assert (Hok : forall img, outcome load = inr img ->
             run = (trace load ++ [EvPrint "Scaling from %dx%d to %dx%d\n"],
                    inl (UnsupportedAlgorithm algorithm))).
  { intros img Himg. unfold run, ScaleImage. fold load.
    rewrite (bind_inr _ _ _ Himg).
    destruct (default _ _) as [tw th]. rewrite Hun. reflexivity. }
  assert (Herr : forall e, outcome load = inl e -> run = (trace load, inl e)).
  { intros e He. unfold run, ScaleImage. fold load. now apply bind_inl. }
  split; [intros img Himg; rewrite (Hok img Himg); split; reflexivity|].
  split; [exact Herr|].
  destruct (outcome load) as [e|img] eqn:Eo.
  - rewrite (Herr e eq_refl). split; [exact Hq|]. exists tl. exact Htl.
  - rewrite (Hok img eq_refl). split.
    + unfold quiet. cbn [trace fst]. apply Forall_app. split; [exact Hq|].
      repeat constructor.
    + cbn [trace fst]. rewrite Htl. eexists. reflexivity.
Qed.

(** C10: the dispatch lowercases the name, so matching ignores letter
    case; besides nearest, bilinear, bicubic and lanczos it accepts linear
    for the bilinear filter and cubic for the bicubic filter; for every
    name whose lowercase form is one of the six, the scale operation does
    not fail with UnsupportedAlgorithm. *)
Theorem dispatch_accepts_names
    inputPath outputPath factor width height algorithm quality svgScale :
  recognized env algorithm ->
  accepts (ScaleImage env inputPath outputPath factor width height
             algorithm quality svgScale) /\
  selectFilter env algorithm = selectFilter env (ToLower env algorithm) /\
  selectFilter env "nearest" = Some NearestNeighbor /\
  selectFilter env "bilinear" = Some Linear /\
  selectFilter env "linear" = Some Linear /\
  selectFilter env "bicubic" = Some CatmullRom /\
  selectFilter env "cubic" = Some CatmullRom /\
  selectFilter env "lanczos" = Some Lanczos /\
  selectFilter env "LANCZOS" = Some Lanczos /\
  selectFilter env "Linear" = Some Linear /\
  selectFilter env "CuBiC" = Some CatmullRom.
Proof.
  intros Hrec. split; [|split; [|repeat split; reflexivity]].
  - unfold ScaleImage. apply accepts_bind; [apply loadInput_accepts|].
    intros img. destruct (default _ _) as [tw th].
    apply accepts_bind; [apply accepts_emit|]. intros _.
    destruct (selectFilter env algorithm) as [f|] eqn:Ef.
    + apply saveImage_accepts.
    + apply selectFilter_None in Ef. contradiction.
  - unfold recognized in Hrec. cbn [List.In] in Hrec.
    unfold selectFilter at 2.
    assert (E : ToLower env (ToLower env algorithm) = ToLower env algorithm).
    { repeat (destruct Hrec as [Hrec|Hrec]; [rewrite <- Hrec; reflexivity|]).
      contradiction. }
    rewrite E. reflexivity.
Qed.

End DispatchClaims.

Section DispatchWitnesses.
Import Orchestrator.

Lemma foo_unrecognized : ~ recognized sample_env "foo".
Proof.
  intros H. unfold recognized in H. vm_compute in H.
  repeat (destruct H as [H|H]; [discriminate|]). exact H.
Qed.

Lemma unsupported_algorithm_after_load_witness :
  let run := ScaleImage sample_env "in.png" "out.png" (Float.f32 1 (-1)) 0 0
               "foo" (Float.f32 90 0) (Float.f32 2 0) in
  let load := loadInput sample_env "in.png" (Float.f32 2 0) in
  (forall img, outcome load = inr img ->
     outcome run = inl (UnsupportedAlgorithm "foo") /\
     trace run = trace load ++ [EvPrint "Scaling from %dx%d to %dx%d\n"]) /\
  (forall e, outcome load = inl e -> run = (trace load, inl e)) /\
  quiet run /\
  exists tl, trace run = EvOpen "in.png" :: tl.
Proof.
  apply (unsupported_algorithm_after_load sample_env "in.png" "out.png"
           (Float.f32 1 (-1)) 0 0 "foo" (Float.f32 90 0) (Float.f32 2 0)).
  intros H. unfold recognized in H. vm_compute in H.
  repeat (destruct H as [H|H]; [discriminate|]). exact H.
Defined.

Lemma dispatch_accepts_names_witness :
  accepts (ScaleImage sample_env "in.png" "out.png" (Float.f32 1 (-1)) 0 0
             "CUBIC" (Float.f32 90 0) (Float.f32 2 0)) /\
  selectFilter sample_env "CUBIC" =
    selectFilter sample_env (ToLower sample_env "CUBIC") /\
  selectFilter sample_env "nearest" = Some NearestNeighbor /\
  selectFilter sample_env "bilinear" = Some Linear /\
  selectFilter sample_env "linear" = Some Linear /\
  selectFilter sample_env "bicubic" = Some CatmullRom /\
  selectFilter sample_env "cubic" = Some CatmullRom /\
  selectFilter sample_env "lanczos" = Some Lanczos /\
  selectFilter sample_env "LANCZOS" = Some Lanczos /\
  selectFilter sample_env "Linear" = Some Linear /\
  selectFilter sample_env "CuBiC" = Some CatmullRom.
Proof.
  apply (dispatch_accepts_names sample_env "in.png" "out.png"
           (Float.f32 1 (-1)) 0 0 "CUBIC" (Float.f32 90 0) (Float.f32 2 0)).
  unfold recognized. vm_compute. tauto.
Defined.

End DispatchWitnesses.

(** ** The filling loops *)

Section Fill.
Import image TestImage.

Lemma insert_zero_fresh n i : <[i := 0]> (replicate n 0) = replicate n 0.
Proof.
  apply list_eq. intros j. destruct (decide (i = j)) as [->|Hne].
  - destruct (decide (j < n)%nat).
    + rewrite list_lookup_insert_eq by (rewrite length_replicate; lia).
      symmetry. apply lookup_replicate. split; [reflexivity|lia].
    + rewrite list_insert_ge by (rewrite length_replicate; lia). reflexivity.
  - now rewrite list_lookup_insert_ne.
Qed.

Lemma RGBA_Set_fresh n st r x y :
  RGBA_Set (RGBA_ (replicate n 0) st r) x y (color.RGBA 0 0 0 0) =
    RGBA_ (replicate n 0) st r.
Proof.
  unfold RGBA_Set. cbn [RGBA_Rect Pix Stride color.rgbaModel].
  destruct (In x y r); [|reflexivity]. now rewrite !insert_zero_fresh.
Qed.

Lemma fill_step x0 y0 x1 y1 c p0 y x p :
  x0 <= x < x1 -> y0 <= y < y1 ->
  filled x0 y0 x1 y1 c p0 y x p ->
  filled x0 y0 x1 y1 c p0 y (x + 1) (RGBA_Set p x y c).
Proof.
  intros Hx Hy (Hwf & HR & Hat).
  split; [now apply RGBA_Set_wf|]. split; [now rewrite RGBA_Set_Rect|].
  intros px py.
  destruct (decide ((x, y) = (px, py))) as [E|E].
  - injection E as <- <-.
    destruct (In x y (RGBA_Rect p0)) eqn:Hin.
    + rewrite RGBA_At_Set_eq by (rewrite ?HR; assumption).
      destruct (Z.leb_spec x0 x), (Z.ltb_spec x x1), (Z.leb_spec y0 y); try lia.
      rewrite Z.eqb_refl.
      destruct (Z.ltb_spec x (x + 1)); [|lia].
      cbn. now rewrite orb_true_r.
    + cbn [andb]. unfold RGBA_At, RGBA_Set.
      rewrite HR, Hin. rewrite HR, Hin. reflexivity.
  - rewrite RGBA_At_Set_ne by assumption. rewrite Hat.
    assert (Hv : (py <? y) || ((py =? y) && (px <? x + 1)) =
                 (py <? y) || ((py =? y) && (px <? x))).
    { destruct (Z.ltb_spec py y), (Z.eqb_spec py y), (Z.ltb_spec px (x + 1)),
        (Z.ltb_spec px x); cbn; try reflexivity; try lia.
      exfalso. apply E. f_equal; lia. }
    now rewrite Hv.
Qed.

Lemma filled_ext x0 y0 x1 y1 c p0 y x y' x' p :
  (forall px py, x0 <= px < x1 ->
     (py <? y) || ((py =? y) && (px <? x)) =
     (py <? y') || ((py =? y') && (px <? x'))) ->
  filled x0 y0 x1 y1 c p0 y x p -> filled x0 y0 x1 y1 c p0 y' x' p.
Proof.
  intros Hv (Hwf & HR & Hat). split; [assumption|]. split; [assumption|].
  intros px py. rewrite Hat.
  destruct (Z.leb_spec x0 px), (Z.ltb_spec px x1);
    rewrite ?andb_false_r; cbn [andb]; try reflexivity.
  now rewrite (Hv px py) by lia.
Qed.

(** The pixels of a filled buffer. *)
Lemma fill_spec x0 y0 x1 y1 c p :
  wf p ->
  wf (fill x0 y0 x1 y1 c p) /\
  RGBA_Rect (fill x0 y0 x1 y1 c p) = RGBA_Rect p /\
  forall px py,
    RGBA_At (fill x0 y0 x1 y1 c p) px py =
      if In px py (RGBA_Rect p) && (x0 <=? px) && (px <? x1) &&
         (y0 <=? py) && (py <? y1)
      then color.rgbaModel c else RGBA_At p px py.
Proof.
  intros Hwf. unfold fill.
  destruct (Z.le_gt_cases y0 y1) as [Hy|Hy].
  2:{ rewrite for_lt_empty by lia. split; [assumption|]. split; [reflexivity|].
      intros px py. destruct (Z.leb_spec y0 py), (Z.ltb_spec py y1);
        rewrite ?andb_false_r; try reflexivity; lia. }
  assert (Hend : filled x0 y0 x1 y1 c p y1 x0
                   (for_lt y0 y1 (fun y => for_lt x0 x1 (fun x q => RGBA_Set q x y c)) p)).
  { apply (for_lt_inv (fun y q => filled x0 y0 x1 y1 c p y x0 q)).
    - assumption.
    - split; [assumption|]. split; [reflexivity|]. intros px py.
      destruct (Z.leb_spec y0 py), (Z.ltb_spec py y0), (Z.eqb_spec py y0),
        (Z.leb_spec x0 px), (Z.ltb_spec px x0);
        rewrite ?andb_false_r; cbn; rewrite ?andb_false_r; try reflexivity; lia.
    - intros y q Hyr Hq.
      destruct (Z.le_gt_cases x0 x1) as [Hx|Hx].
      + apply filled_ext with (y := y) (x := x1).
        { intros px py Hpx.
          destruct (Z.ltb_spec py y), (Z.eqb_spec py y), (Z.ltb_spec px x1),
            (Z.ltb_spec py (y + 1)), (Z.eqb_spec py (y + 1)), (Z.ltb_spec px x0);
            cbn; try reflexivity; lia. }
        apply (for_lt_inv (fun x q => filled x0 y0 x1 y1 c p y x q));
          [assumption|assumption|].
        intros x t Hxr Ht. now apply fill_step.
      + rewrite for_lt_empty by lia. revert Hq. apply filled_ext.
        intros px py Hpx. lia. }
  destruct Hend as (Hw & HR & Hat). split; [assumption|]. split; [assumption|].
  intros px py. rewrite Hat.
  destruct (Z.leb_spec x0 px), (Z.ltb_spec px x1), (Z.leb_spec y0 py);
    rewrite ?andb_false_r; cbn [andb]; rewrite ?andb_false_r; try reflexivity.
  rewrite !andb_true_r.
  destruct (Z.ltb_spec py y1), (Z.eqb_spec py y1), (Z.ltb_spec px x0);
    cbn; rewrite ?andb_false_r; try reflexivity; lia.
Qed.

Lemma clear_is_fill w h p :
  Rasterizer.clear w h p = fill 0 0 w h (color.RGBA 0 0 0 0) p.
Proof. reflexivity. Qed.

(** X: the loops that write a transparent background into a buffer just
    returned by [image.NewRGBA] change nothing. *)
Theorem transparent_fill_of_new_buffer r p x0 y0 x1 y1 :
  NewRGBA r = Some p ->
  fill x0 y0 x1 y1 (color.RGBA 0 0 0 0) p = p /\
  Rasterizer.clear x1 y1 p = p.
Proof.
  intros Hnew. unfold NewRGBA in Hnew.
  destruct (mul3NonNeg 4 (Dx r) (Dy r) <? 0); [discriminate|].
  injection Hnew as <-.
  assert (H : forall a b c d,
             fill a b c d (color.RGBA 0 0 0 0)
               (RGBA_ (replicate (Z.to_nat (mul3NonNeg 4 (Dx r) (Dy r))) 0)
                      (GoInt.mul 4 (Dx r)) r) =
             RGBA_ (replicate (Z.to_nat (mul3NonNeg 4 (Dx r) (Dy r))) 0)
                   (GoInt.mul 4 (Dx r)) r).
  { intros a b c d. unfold fill.
    apply (for_lt_preserve (fun t => t = RGBA_ _ _ r)); [reflexivity|].
    intros y t ->.
    apply (for_lt_preserve (fun t => t = RGBA_ _ _ r)); [reflexivity|].
    intros x t ->. apply RGBA_Set_fresh. }
  split; [apply H|]. rewrite clear_is_fill. apply H.
Qed.

Lemma transparent_fill_of_new_buffer_witness :
  fill 0 0 3 2 (color.RGBA 0 0 0 0)
    (RGBA_ (replicate 24 0) 12 (Rectangle_ (Pt 0 0) (Pt 3 2))) =
    RGBA_ (replicate 24 0) 12 (Rectangle_ (Pt 0 0) (Pt 3 2)) /\
  Rasterizer.clear 3 2
    (RGBA_ (replicate 24 0) 12 (Rectangle_ (Pt 0 0) (Pt 3 2))) =
    RGBA_ (replicate 24 0) 12 (Rectangle_ (Pt 0 0) (Pt 3 2)).
Proof.
  apply (transparent_fill_of_new_buffer (Rect 0 0 3 2)
           (RGBA_ (replicate 24 0) 12 (Rectangle_ (Pt 0 0) (Pt 3 2))) 0 0 3 2).
  reflexivity.
Defined.

End Fill.

(** ** More on the cropper *)

Section CropMore.
Import image Cropper TestImage.

(** X: on a valid buffer crop returns a well-formed buffer at the origin
    that is at least 1x1 and no larger than the input. *)
Theorem crop_size_bounds img :
  valid_buffer img ->
  exists out,
    cropTransparentAreas img = Some out /\ wf out /\
    Min (RGBA_Rect out) = Pt 0 0 /\
    1 <= X (Max (RGBA_Rect out)) <=
      Z.max 1 (X (Max (Bounds img)) - X (Min (Bounds img))) /\
    1 <= Y (Max (RGBA_Rect out)) <=
      Z.max 1 (Y (Max (Bounds img)) - Y (Min (Bounds img))) /\
    Z.of_nat (length (Pix out)) =
      4 * X (Max (RGBA_Rect out)) * Y (Max (RGBA_Rect out)).
Proof.
  intros Hv. destruct (foundContent (scan_image img)) eqn:E.
  - pose proof (scan_bounding_rect img E) as Hbr.
    destruct (crop_found _ _ _ _ _ Hv Hbr) as (out & Hc & Hwf & HR & Hs & _).
    pose proof (bounding_rect_inside _ _ _ _ _ Hbr) as Hin.
    exists out. split; [assumption|]. split; [assumption|].
    destruct Hwf as (_ & _ & Hst & Hlen).
    rewrite Hlen, Hst, HR. cbn [X Y Min Max].
    split; [reflexivity|]. repeat split; lia.
  - assert (Hn : forall x y, ~ content_at img x y).
    { intros x y Hc. assert (foundContent (scan_image img) = true)
        by (apply scan_found_iff; eauto). congruence. }
    rewrite (crop_not_found img Hn). eexists. split; [reflexivity|].
    split; [unfold wf; cbn; lia|]. cbn. repeat split; lia.
Qed.

Lemma crop_size_bounds_witness :
  exists out,
    cropTransparentAreas Samples.block8 = Some out /\ wf out /\
    Min (RGBA_Rect out) = Pt 0 0 /\
    1 <= X (Max (RGBA_Rect out)) <=
      Z.max 1 (X (Max (Bounds Samples.block8)) - X (Min (Bounds Samples.block8))) /\
    1 <= Y (Max (RGBA_Rect out)) <=
      Z.max 1 (Y (Max (Bounds Samples.block8)) - Y (Min (Bounds Samples.block8))) /\
    Z.of_nat (length (Pix out)) =
      4 * X (Max (RGBA_Rect out)) * Y (Max (RGBA_Rect out)).
Proof.
  apply (crop_size_bounds Samples.block8).
  unfold valid_buffer, GoInt.in_range; vm_compute; repeat split; discriminate.
Defined.

(** X: when the content pixels of a valid buffer are exactly the pixels of
    a rectangle, crop returns that rectangle: the dimensions are those of
    the rectangle and the pixel (u, v) is the conversion of the input pixel
    (x0 + u, y0 + v). *)
Theorem crop_of_block img x0 y0 x1 y1 :
  valid_buffer img ->
  In x0 y0 (Bounds img) = true -> In x1 y1 (Bounds img) = true ->
  x0 <= x1 -> y0 <= y1 ->
  (forall x y, In x y (Bounds img) = true ->
     is_content (At img x y) = (x0 <=? x) && (x <=? x1) && (y0 <=? y) && (y <=? y1)) ->
  exists out,
    cropTransparentAreas img = Some out /\
    RGBA_Rect out = Rectangle_ (Pt 0 0) (Pt (x1 - x0 + 1) (y1 - y0 + 1)) /\
    forall u v, 0 <= u <= x1 - x0 -> 0 <= v <= y1 - y0 ->
      RGBA_At out u v = color.rgbaModel (At img (x0 + u) (y0 + v)).
Proof.
  intros Hv H0 H1 Hx Hy Hc.
  pose proof H0 as H0'. pose proof H1 as H1'.
  apply In_spec in H0'. apply In_spec in H1'.
  assert (Hcont : forall x y, x0 <= x <= x1 -> y0 <= y <= y1 -> content_at img x y).
  { intros x y Hxx Hyy.
    assert (Hin : In x y (Bounds img) = true) by (apply In_spec; lia).
    split; [assumption|]. rewrite (Hc x y Hin).
    destruct (Z.leb_spec x0 x), (Z.leb_spec x x1), (Z.leb_spec y0 y),
      (Z.leb_spec y y1); try lia; reflexivity. }
  assert (Hbr : bounding_rect img x0 y0 x1 y1).
  { split.
    - intros x y [Hin Hcc]. rewrite (Hc x y Hin) in Hcc.
      destruct (Z.leb_spec x0 x), (Z.leb_spec x x1), (Z.leb_spec y0 y),
        (Z.leb_spec y y1); try discriminate. lia.
    - repeat split; [exists y0|exists y0|exists x0|exists x0];
        apply Hcont; lia. }
  destruct (crop_found _ _ _ _ _ Hv Hbr) as (out & Hcrop & _ & HR & _ & Hat).
  exists out. split; [assumption|]. split; [assumption|].
  intros u v Hu Hv'. specialize (Hat (x0 + u) (y0 + v) ltac:(lia) ltac:(lia)).
  now replace (x0 + u - x0) with u in Hat by lia;
    replace (y0 + v - y0) with v in Hat by lia.
Qed.

End CropMore.

Section Generator.
Import image Cropper TestImage.

Lemma square_on_canvas p0 :
  wf p0 -> RGBA_Rect p0 = Rectangle_ (Pt 0 0) (Pt 100 100) ->
  (forall x y, RGBA_At p0 x y = color.transparent) ->
  let img := fill 30 30 70 70 (color.RGBA 255 0 0 255)
               (fill 0 0 100 100 (color.RGBA 0 0 0 0) p0) in
  wf img /\ RGBA_Rect img = Rectangle_ (Pt 0 0) (Pt 100 100) /\
  forall x y,
    RGBA_At img x y =
      if (30 <=? x) && (x <? 70) && (30 <=? y) && (y <? 70)
      then color.RGBA 255 0 0 255 else color.transparent.
Proof.
  intros Hwf0 HR0 Hfresh img.
  destruct (fill_spec 0 0 100 100 (color.RGBA 0 0 0 0) p0 Hwf0) as (Hwf1 & HR1 & Hat1).
  destruct (fill_spec 30 30 70 70 (color.RGBA 255 0 0 255) _ Hwf1) as (Hwf2 & HR2 & Hat2).
  split; [exact Hwf2|]. split; [exact (eq_trans HR2 (eq_trans HR1 HR0))|].
  intros x y. unfold img. rewrite Hat2, Hat1, HR1, HR0, Hfresh.
  cbn [color.rgbaModel]. unfold In. cbn [X Y Min Max].
  destruct (Z.leb_spec 30 x), (Z.ltb_spec x 70), (Z.leb_spec 30 y),
    (Z.ltb_spec y 70), (Z.leb_spec 0 x), (Z.ltb_spec x 100), (Z.leb_spec 0 y),
    (Z.ltb_spec y 100); cbn; try reflexivity; lia.
Qed.

(** The buffer [main] of create-test-image.go builds: opaque red on the
    square, transparent elsewhere. *)
Lemma main_image_pixels :
  exists img,
    main_image = Some img /\ wf img /\
    RGBA_Rect img = Rectangle_ (Pt 0 0) (Pt 100 100) /\
    forall x y,
      RGBA_At img x y =
        if (30 <=? x) && (x <? 70) && (30 <=? y) && (y <? 70)
        then color.RGBA 255 0 0 255 else color.transparent.
Proof.
  unfold main_image.
  rewrite (NewRGBA_origin_small 100 100) by (split; [lia|discriminate]).
  eexists. split; [reflexivity|].
  apply square_on_canvas.
  - apply fresh_wf; lia.
  - reflexivity.
  - intros x y. apply RGBA_At_fresh.
Qed.

Lemma crop_of_block_witness :
  exists img,
    main_image = Some img /\
    exists out,
      cropTransparentAreas (of_RGBA img) = Some out /\
      RGBA_Rect out = Rectangle_ (Pt 0 0) (Pt (69 - 30 + 1) (69 - 30 + 1)) /\
      forall u v, 0 <= u <= 69 - 30 -> 0 <= v <= 69 - 30 ->
        RGBA_At out u v = color.rgbaModel (At (of_RGBA img) (30 + u) (30 + v)).
Proof.
  destruct main_image_pixels as (img & Hmain & Hwf & HR & Hat).
  exists img. split; [assumption|].
  apply (crop_of_block (of_RGBA img) 30 30 69 69).
  - unfold valid_buffer, GoInt.in_range. cbn [of_RGBA Bounds]. rewrite HR.
    vm_compute. repeat split; discriminate.
  - cbn [of_RGBA Bounds]. rewrite HR. reflexivity.
  - cbn [of_RGBA Bounds]. rewrite HR. reflexivity.
  - lia.
  - lia.
  - intros x y _. cbn [of_RGBA At]. rewrite Hat.
    destruct (Z.leb_spec 30 x), (Z.ltb_spec x 70), (Z.leb_spec 30 y),
      (Z.ltb_spec y 70), (Z.leb_spec x 69), (Z.leb_spec y 69);
      cbn; try reflexivity; lia.
Defined.

End Generator.

Section Translation.
Import image Cropper TestImage.

Lemma content_at_translate dx dy img x y :
  content_at (translate dx dy img) x y <-> content_at img (x - dx) (y - dy).
Proof.
  unfold content_at, translate. cbn [Bounds At]. rewrite !In_spec.
  cbn [X Y Min Max]. intuition lia.
Qed.

Lemma bounding_rect_translate dx dy img x0 y0 x1 y1 :
  bounding_rect img x0 y0 x1 y1 ->
  bounding_rect (translate dx dy img) (x0 + dx) (y0 + dy) (x1 + dx) (y1 + dy).
Proof.
  intros (Hb & (a & Ha) & (b & Hb') & (c & Hc) & (d & Hd)).
  split.
  - intros x y Hxy. apply content_at_translate in Hxy.
    specialize (Hb _ _ Hxy). lia.
  - repeat split;
      [exists (a + dy)|exists (b + dy)|exists (c + dx)|exists (d + dx)];
      apply content_at_translate;
      match goal with
      | |- content_at _ ?u ?v =>
          replace u with (u + 0) by lia; replace v with (v + 0) by lia
      end.
    + now replace (x0 + dx - dx + 0) with x0 by lia;
        replace (a + dy - dy + 0) with a by lia.
    + now replace (x1 + dx - dx + 0) with x1 by lia;
        replace (b + dy - dy + 0) with b by lia.
    + now replace (c + dx - dx + 0) with c by lia;
        replace (y0 + dy - dy + 0) with y0 by lia.
    + now replace (d + dx - dx + 0) with d by lia;
        replace (y1 + dy - dy + 0) with y1 by lia.
Qed.

(** X: the result of crop does not depend on where the bounds of the input
    lie: an image and its translation crop to the same buffer. *)
Theorem crop_translation_invariant dx dy img :
  valid_buffer img -> valid_buffer (translate dx dy img) ->
  cropTransparentAreas (translate dx dy img) = cropTransparentAreas img.
Proof.
  intros Hv Hv'. destruct (foundContent (scan_image img)) eqn:E.
  - pose proof (scan_bounding_rect img E) as Hbr.
    set (s := scan_image img) in *.
    pose proof (bounding_rect_translate dx dy _ _ _ _ _ Hbr) as Hbr'.
    destruct (crop_found _ _ _ _ _ Hv Hbr) as (o1 & Hc1 & Hw1 & HR1 & _ & Hat1).
    destruct (crop_found _ _ _ _ _ Hv' Hbr') as (o2 & Hc2 & Hw2 & HR2 & _ & Hat2).
    rewrite Hc1, Hc2. f_equal. apply RGBA_ext; try assumption.
    + rewrite HR1, HR2. f_equal. f_equal; lia.
    + intros u v Hin. rewrite HR2 in Hin. apply In_spec in Hin.
      cbn [X Y Min Max] in Hin.
      specialize (Hat1 (minX s + u) (minY s + v) ltac:(lia) ltac:(lia)).
      specialize (Hat2 (minX s + dx + u) (minY s + dy + v) ltac:(lia) ltac:(lia)).
      replace (minX s + u - minX s) with u in Hat1 by lia.
      replace (minY s + v - minY s) with v in Hat1 by lia.
      replace (minX s + dx + u - (minX s + dx)) with u in Hat2 by lia.
      replace (minY s + dy + v - (minY s + dy)) with v in Hat2 by lia.
      rewrite Hat1, Hat2. cbn [translate At]. do 2 f_equal; lia.
  - assert (Hn : forall x y, ~ content_at img x y).
    { intros x y Hc. assert (foundContent (scan_image img) = true)
        by (apply scan_found_iff; eauto). congruence. }
    rewrite (crop_not_found img Hn). apply crop_not_found.
    intros x y Hc. apply content_at_translate in Hc. now apply (Hn _ _ Hc).
Qed.

Lemma crop_translation_invariant_witness :
  cropTransparentAreas (translate 7 (-3) Samples.block8) =
    cropTransparentAreas Samples.block8.
Proof.
  apply (crop_translation_invariant 7 (-3) Samples.block8);
    unfold valid_buffer, GoInt.in_range; vm_compute; repeat split; discriminate.
Defined.

End Translation.

Section IntegralViewBox.
Import Float image Rasterizer.

(** X: clamping twice is clamping once, a NaN request is passed on as NaN
    and a number is never turned into NaN. *)
Theorem clampScale_idempotent s :
  clampScale (clampScale s) = clampScale s /\
  is_nan (clampScale s) = is_nan s.
Proof.
  destruct (clampScale_cases s) as [[E1 E]|[(E1 & E2 & E)|(E1 & E2 & E)]].
  - rewrite E. split; [reflexivity|].
    destruct s; try reflexivity. discriminate.
  - rewrite E. split; [reflexivity|].
    destruct s; try reflexivity. discriminate.
  - rewrite !E. split; reflexivity.
Qed.

Lemma to_int_f64_of_int v :
  0 <= v < 2 ^ 53 -> to_int (f64_of_int v) = Some v.
Proof.
  intros Hv. destruct v as [|p|p]; [reflexivity| |lia].
  destruct (f64_of_int_pos p ltac:(lia)) as (M & HM & HMv & HMd).
  rewrite HM. unfold to_int. cbn [trunc].
  set (d := Zpos (digits2_pos p)) in *.
  pose proof (digits2_pos_lower p) as Hl. fold d in Hl.
  assert (Hd : 1 <= d <= 53).
  { split; [unfold d; lia|].
    destruct (Z.le_gt_cases d 53); [assumption|].
    assert (2 ^ 53 <= 2 ^ (d - 1)) by (apply Z.pow_le_mono_r; lia). lia. }
  assert (Hp : 0 < 2 ^ (53 - d)) by (apply Z.pow_pos_nonneg; lia).
  assert (Ht : (if 0 <=? d - 53 then Zpos M * 2 ^ (d - 53)
                else Zpos M / 2 ^ (- (d - 53))) = Zpos p).
  { destruct (Z.leb_spec 0 (d - 53)).
    - assert (Ed : d - 53 = 0) by lia. assert (Ed' : 53 - d = 0) by lia.
      rewrite Ed, HMv, Ed', !Z.pow_0_r. lia.
    - rewrite HMv. replace (- (d - 53)) with (53 - d) by lia.
      apply Z.div_mul. lia. }
  rewrite Ht.
  assert (Hm' : GoInt.maxInt = 9223372036854775807) by reflexivity.
  assert (Hn' : GoInt.minInt = -9223372036854775808) by reflexivity.
  assert (H53 : 2 ^ 53 = 9007199254740992) by reflexivity.
  destruct (Z.leb_spec GoInt.minInt (Zpos p)); [|lia].
  destruct (Z.leb_spec (Zpos p) GoInt.maxInt); [|lia]. reflexivity.
Qed.

Lemma f64_of_int_nonzero v :
  1 <= v < 2 ^ 53 -> eq (f64_of_int v) zero = false.
Proof.
  intros Hv. destruct v as [|p|p]; try lia.
  destruct (f64_of_int_pos p ltac:(lia)) as (M & HM & _). now rewrite HM.
Qed.

(** The view box of an icon whose sides are whole numbers. *)
Lemma intrinsic_integral icon iw ih :
  1 <= iw < 2 ^ 53 -> 1 <= ih < 2 ^ 53 ->
  ViewBox_W icon = f64_of_int iw -> ViewBox_H icon = f64_of_int ih ->
  intrinsic icon = (f64_of_int iw, f64_of_int ih).
Proof.
  intros Hw Hh EW EH. unfold intrinsic.
  rewrite EW, EH, !f64_of_int_nonzero by assumption. reflexivity.
Qed.

(** Sample coordinates grow by at least one per output pixel when the
    scale is at least 1. *)
Lemma sample_coord_step v m k :
  0 <= k -> 2 ^ k <= m -> 0 <= v ->
  v * m / 2 ^ k + 1 <= (v + 1) * m / 2 ^ k.
Proof.
  intros Hk Hm Hv.
  assert (Hp : 0 < 2 ^ k) by (apply Z.pow_pos_nonneg; lia).
  replace (v * m / 2 ^ k + 1) with ((v * m + 1 * 2 ^ k) / 2 ^ k)
    by (rewrite Z.div_add by lia; reflexivity).
  apply Z.div_le_mono; [assumption|]. lia.
Qed.

Lemma sample_coord_mono v w m k :
  0 <= k -> 0 <= m -> 0 <= v <= w -> v * m / 2 ^ k <= w * m / 2 ^ k.
Proof.
  intros Hk Hm Hv.
  assert (Hp : 0 < 2 ^ k) by (apply Z.pow_pos_nonneg; lia).
  apply Z.div_le_mono; [assumption|]. nia.
Qed.

Lemma sample_coord_bound v m k :
  21 <= k <= 23 -> 2 ^ 23 <= m < 2 ^ 24 -> 0 <= v ->
  v <= v * m / 2 ^ k <= 8 * v.
Proof.
  intros Hk Hm Hv.
  assert (H21 : 2 ^ 21 <= 2 ^ k) by (apply Z.pow_le_mono_r; lia).
  assert (H23 : 2 ^ k <= 2 ^ 23) by (apply Z.pow_le_mono_r; lia).
  change (2 ^ 21) with 2097152 in H21. change (2 ^ 23) with 8388608 in *.
  change (2 ^ 24) with 16777216 in *.
  set (P := 2 ^ k) in *. clearbody P.
  split.
  - apply Z.div_le_lower_bound; [lia|]. nia.
  - apply Z.div_le_upper_bound; [lia|]. nia.
Qed.

(** The rasteriser on a view box with whole-number sides and a scale whose
    clamped value is not 1. *)
Lemma rasterize_integral icon s iw ih :
  draws_in_place icon -> valid32 s -> is_nan s = false ->
  ne (clampScale s) one32 = true ->
  1 <= iw <= 2 ^ 26 -> 1 <= ih <= 2 ^ 26 ->
  ViewBox_W icon = f64_of_int iw -> ViewBox_H icon = f64_of_int ih ->
  exists (fx : Z -> Z) cv out,
    (forall v, fx v = Qfloor (inject_Z v * to_Q (clampScale s))) /\
    canvas icon (clampScale s) = Some cv /\ wf cv /\
    RGBA_Rect cv = Rectangle_ (Pt 0 0) (Pt (fx iw) (fx ih)) /\
    rasterize icon s = Some out /\
    RGBA_Rect out = Rectangle_ (Pt 0 0) (Pt iw ih) /\
    (forall v w, 0 <= v < w -> fx v < fx w) /\
    (forall v, 0 <= v -> v <= fx v <= 8 * v) /\
    forall x y, 0 <= x < iw -> 0 <= y < ih ->
      RGBA_At out x y = sampled cv (fx iw) (fx ih) (fx x) (fx y).
Proof.
  intros Hdraw Hv Hnan Hne Hiw Hih EW EH.
  assert (H26 : 2 ^ 26 = 67108864) by reflexivity.
  assert (H29 : 2 ^ 29 = 536870912) by reflexivity.
  assert (H53 : 2 ^ 53 = 9007199254740992) by reflexivity.
  destruct (clampScale_range s Hnan) as [H1 H4].
  pose proof (clampScale_valid s Hv) as Hcv.
  unfold rasterize. set (c := clampScale s) in *.
  destruct (scale_form c Hcv H1 H4) as (m & e & Ec & Hm & He).
  set (fx := fun v => v * Zpos m / 2 ^ (- e)).
  assert (Hfx : forall v, 0 <= v < 2 ^ 29 -> src v c = Some (fx v)).
  { intros v Hvr. rewrite Ec. now apply src_exact. }
  assert (Hbound : forall v, 0 <= v -> v <= fx v <= 8 * v).
  { intros v Hv0. apply sample_coord_bound; lia. }
  assert (Hmono : forall v w, 0 <= v < w -> fx v < fx w).
  { intros v w Hvw. unfold fx.
    assert (Hpk : 2 ^ (- e) <= Zpos m).
    { apply Z.le_trans with (2 ^ 23); [apply Z.pow_le_mono_r; lia|lia]. }
    pose proof (sample_coord_step v (Zpos m) (- e) ltac:(lia) Hpk ltac:(lia)).
    pose proof (sample_coord_mono (v + 1) w (Zpos m) (- e) ltac:(lia) ltac:(lia)
                  ltac:(lia)). lia. }
  pose proof (Hbound iw ltac:(lia)) as Hbw. pose proof (Hbound ih ltac:(lia)) as Hbh.
  assert (Hint : intrinsic icon = (f64_of_int iw, f64_of_int ih))
    by (apply intrinsic_integral; (lia || assumption)).
  assert (Hrd : renderDims (f64_of_int iw) (f64_of_int ih) c = Some (fx iw, fx ih)).
  { unfold renderDims. fold (src iw c). fold (src ih c).
    rewrite !Hfx by lia. reflexivity. }
  assert (Hcanvas : exists cv, canvas icon c = Some cv /\ wf cv /\
                       RGBA_Rect cv = Rectangle_ (Pt 0 0) (Pt (fx iw) (fx ih))).
  { unfold canvas. rewrite Hint, Hrd. cbn [Scaling.bind].
    rewrite NewRGBA_origin_small by lia. cbn [Scaling.bind].
    eexists. split; [reflexivity|].
    destruct (clear_wf (fx iw) (fx ih) _
                (fresh_wf (fx iw) (fx ih) ltac:(lia) ltac:(lia))) as [Hcw HcR].
    destruct (Hdraw (mul64 (f64_of_int iw) (f64_of_f32 c))
                (mul64 (f64_of_int ih) (f64_of_f32 c)) _ Hcw) as [Hdw HdR].
    split; [assumption|]. now rewrite HdR, HcR. }
  destruct Hcanvas as (cv & Hcanvas & Hcvwf & HcvR).
  pose proof (downsample_loops cv c fx (fx iw) (fx ih) iw ih Hfx
                ltac:(lia) ltac:(lia) _
                (fresh_wf iw ih ltac:(lia) ltac:(lia)) eq_refl
                (RGBA_At_fresh _ _ _)) as (out & Hout & Howf & HoR & Hat).
  exists fx, cv, out.
  split. { intros v. rewrite Ec, Qfloor_scale by lia. reflexivity. }
  split; [assumption|]. split; [assumption|]. split; [assumption|].
  split.
  { unfold render. rewrite Hint, Hrd. cbn [Scaling.bind].
    rewrite Hcanvas. cbn [Scaling.bind]. rewrite Hne.
    unfold downsample. rewrite !to_int_f64_of_int by lia. cbn [Scaling.bind].
    rewrite NewRGBA_origin_small by lia. cbn [Scaling.bind].
    exact Hout. }
  split; [assumption|]. split; [assumption|]. split; [assumption|].
  intros x y Hx Hy. rewrite (Hat x y Hx Hy).
  unfold visited. destruct (Z.ltb_spec y ih); [reflexivity|lia].
Qed.

(** X: for a view box with whole-number sides and a clamped scale other
    than 1, the working canvas measures floor(width * scale) by
    floor(height * scale), the result measures width by height, and every
    pixel (x, y) of the result is the canvas pixel at (floor(x * scale),
    floor(y * scale)), which lies inside the canvas: the bounds test of the
    downsampling loop never fails and no pixel is left at the default. *)
Theorem integral_viewbox_fully_sampled icon s iw ih :
  draws_in_place icon -> valid32 s -> is_nan s = false ->
  ne (clampScale s) one32 = true ->
  1 <= iw <= 2 ^ 26 -> 1 <= ih <= 2 ^ 26 ->
  ViewBox_W icon = f64_of_int iw -> ViewBox_H icon = f64_of_int ih ->
  let fl := fun v => Qfloor (inject_Z v * to_Q (clampScale s)) in
  exists cv out,
    canvas icon (clampScale s) = Some cv /\
    RGBA_Rect cv = Rectangle_ (Pt 0 0) (Pt (fl iw) (fl ih)) /\
    rasterize icon s = Some out /\
    RGBA_Rect out = Rectangle_ (Pt 0 0) (Pt iw ih) /\
    forall x y, 0 <= x < iw -> 0 <= y < ih ->
      In (fl x) (fl y) (RGBA_Rect cv) = true /\
      RGBA_At out x y = RGBA_At cv (fl x) (fl y).
Proof.
  intros Hdraw Hv Hnan Hne Hiw Hih EW EH fl.
  destruct (rasterize_integral icon s iw ih Hdraw Hv Hnan Hne Hiw Hih EW EH)
    as (fx & cv & out & Hfl & Hcv & Hwf & HcR & Hout & HoR & Hmono & Hbound & Hat).
  assert (Efl : forall v, fl v = fx v) by (intros v; unfold fl; now rewrite Hfl).
  exists cv, out. rewrite !Efl.
  split; [assumption|]. split; [assumption|]. split; [assumption|].
  split; [assumption|].
  intros x y Hx Hy. rewrite !Efl.
  pose proof (Hmono x iw ltac:(lia)). pose proof (Hmono y ih ltac:(lia)).
  pose proof (Hbound x ltac:(lia)). pose proof (Hbound y ltac:(lia)).
  split.
  - rewrite HcR. apply In_spec. cbn [X Y Min Max]. lia.
  - rewrite (Hat x y Hx Hy). unfold sampled.
    destruct (Z.ltb_spec (fx x) (fx iw)); [|lia].
    destruct (Z.ltb_spec (fx y) (fx ih)); [|lia]. reflexivity.
Qed.

Lemma integral_viewbox_fully_sampled_witness :
  let fl := fun v => Qfloor (inject_Z v * to_Q (clampScale (f32 3 (-1)))) in
  exists cv out,
    canvas RasterSamples.dot_icon (clampScale (f32 3 (-1))) = Some cv /\
    RGBA_Rect cv = Rectangle_ (Pt 0 0) (Pt (fl 2) (fl 3)) /\
    rasterize RasterSamples.dot_icon (f32 3 (-1)) = Some out /\
    RGBA_Rect out = Rectangle_ (Pt 0 0) (Pt 2 3) /\
    forall x y, 0 <= x < 2 -> 0 <= y < 3 ->
      In (fl x) (fl y) (RGBA_Rect cv) = true /\
      RGBA_At out x y = RGBA_At cv (fl x) (fl y).
Proof.
  apply (integral_viewbox_fully_sampled RasterSamples.dot_icon (f32 3 (-1)) 2 3).
  - exact dot_icon_draws_in_place.
  - reflexivity.
  - reflexivity.
  - reflexivity.
  - vm_compute; split; discriminate.
  - vm_compute; split; discriminate.
  - reflexivity.
  - reflexivity.
Defined.

Lemma eq_one32 c : eq c one32 = true -> c = one32.
Proof.
  rewrite one32_val. unfold eq, SFeqb.
  destruct c as [sx|sx| |sx m e]; cbn [SFcompare]; try discriminate.
  - destruct sx; discriminate.
  - destruct sx; [discriminate|].
    destruct (Z.compare_spec e (-23)) as [->| |]; try discriminate.
    destruct (PosDef.Pos.compare_cont Eq m 8388608) eqn:Em; try discriminate.
    intros _. apply (Pos.compare_eq m 8388608) in Em. now subst m.
Qed.

(** X: for a view box with whole-number sides, when the clamped scale
    equals 1 (every request of at most 1) the rasteriser skips the
    downsampling pass and returns the working canvas itself, and that
    canvas has exactly the intrinsic size. *)
Theorem unit_scale_returns_canvas icon s iw ih :
  draws_in_place icon -> ne (clampScale s) one32 = false ->
  1 <= iw <= 2 ^ 28 -> 1 <= ih <= 2 ^ 28 ->
  ViewBox_W icon = f64_of_int iw -> ViewBox_H icon = f64_of_int ih ->
  exists cv,
    rasterize icon s = Some cv /\ canvas icon (clampScale s) = Some cv /\
    wf cv /\ RGBA_Rect cv = Rectangle_ (Pt 0 0) (Pt iw ih).
Proof.
  intros Hdraw Hne Hiw Hih EW EH.
  assert (H28 : 2 ^ 28 = 268435456) by reflexivity.
  assert (H29 : 2 ^ 29 = 536870912) by reflexivity.
  assert (H53 : 2 ^ 53 = 9007199254740992) by reflexivity.
  assert (Ec : clampScale s = one32).
  { apply eq_one32. unfold ne in Hne. unfold eq.
    destruct (SFeqb (clampScale s) one32); [reflexivity|discriminate Hne]. }
  unfold rasterize. rewrite Ec in *.
  assert (Hsrc : forall v, 0 <= v < 2 ^ 29 -> src v one32 = Some v).
  { intros v Hv. rewrite one32_val.
    assert (Hm1 : 2 ^ 23 <= Zpos 8388608 < 2 ^ 24)
      by (split; [discriminate|reflexivity]).
    rewrite (src_exact v 8388608 (-23) Hv Hm1 ltac:(lia)).
    f_equal. change (2 ^ (- -23)) with 8388608. apply Z.div_mul. lia. }
  assert (Hint : intrinsic icon = (f64_of_int iw, f64_of_int ih))
    by (apply intrinsic_integral; (lia || assumption)).
  assert (Hrd : renderDims (f64_of_int iw) (f64_of_int ih) one32 = Some (iw, ih)).
  { unfold renderDims. fold (src iw one32). fold (src ih one32).
    rewrite !Hsrc by lia. reflexivity. }
  assert (Hcanvas : exists cv, canvas icon one32 = Some cv /\ wf cv /\
                       RGBA_Rect cv = Rectangle_ (Pt 0 0) (Pt iw ih)).
  { unfold canvas. rewrite Hint, Hrd. cbn [Scaling.bind].
    rewrite NewRGBA_origin_small by lia. cbn [Scaling.bind].
    eexists. split; [reflexivity|].
    destruct (clear_wf iw ih _ (fresh_wf iw ih ltac:(lia) ltac:(lia)))
      as [Hcw HcR].
    destruct (Hdraw (mul64 (f64_of_int iw) (f64_of_f32 one32))
                (mul64 (f64_of_int ih) (f64_of_f32 one32)) _ Hcw) as [Hdw HdR].
    split; [assumption|]. now rewrite HdR, HcR. }
  destruct Hcanvas as (cv & Hcanvas & Hwf & HR).
  exists cv. split; [|auto].
  unfold render. rewrite Hint, Hrd. cbn [Scaling.bind].
  rewrite Hcanvas. cbn [Scaling.bind]. rewrite Hne. reflexivity.
Qed.

Lemma unit_scale_returns_canvas_witness :
  exists cv,
    rasterize RasterSamples.dot_icon (f32 1 (-1)) = Some cv /\
    canvas RasterSamples.dot_icon (clampScale (f32 1 (-1))) = Some cv /\
    wf cv /\ RGBA_Rect cv = Rectangle_ (Pt 0 0) (Pt 2 3).
Proof.
  apply (unit_scale_returns_canvas RasterSamples.dot_icon (f32 1 (-1)) 2 3).
  - exact dot_icon_draws_in_place.
  - reflexivity.
  - vm_compute; split; discriminate.
  - vm_compute; split; discriminate.
  - reflexivity.
  - reflexivity.
Defined.

End IntegralViewBox.

(** ** More on the scale arithmetic *)

Section ScaleMore.
Import Float Scaling Codec Cli Orchestrator.

Lemma emin32_val : emin prec32 emax32 = -149.
Proof. reflexivity. Qed.

(** [float32(n)] of a positive [int] below 2^24. *)
Lemma f32_of_int_pos (v : positive) :
  Zpos v < 2 ^ 24 ->
  exists M : positive,
    f32_of_int (Zpos v) = S754_finite false M (Zpos (digits2_pos v) - 24) /\
    Zpos M = Zpos v * 2 ^ (24 - Zpos (digits2_pos v)) /\
    Zpos (digits2_pos M) = 24 /\ 1 <= Zpos (digits2_pos v) <= 24.
Proof.
  intros Hv.
  pose proof (digits2_pos_lower v) as Hl.
  assert (Hd : Zpos (digits2_pos v) <= 24).
  { destruct (Z.le_gt_cases (Zpos (digits2_pos v)) 24); [assumption|].
    assert (2 ^ 24 <= 2 ^ (Zpos (digits2_pos v) - 1))
      by (apply Z.pow_le_mono_r; lia). lia. }
  destruct (binary_round_small prec32 emax32 false v 0) as (M & HM & HMv & HMd).
  - exact Hd.
  - rewrite emin32_val. unfold prec32, emax32. lia.
  - exists M. unfold f32_of_int, f32. cbn [binary_normalize].
    rewrite HM. unfold prec32 in *.
    split; [f_equal; lia|]. split; [assumption|]. split; [assumption|]. lia.
Qed.

(** The [float32] value 2^k. *)
Lemma f32_pow2 k :
  -126 <= k <= 127 -> f32 1 k = S754_finite false 8388608 (k - 23).
Proof.
  intros Hk. unfold f32. cbn [binary_normalize].
  destruct (binary_round_small prec32 emax32 false 1 k) as (M & HM & HMv & _).
  - cbn. unfold prec32. lia.
  - rewrite emin32_val. cbn. unfold prec32, emax32. lia.
  - rewrite HM. cbn [digits2_pos] in *. unfold prec32 in *.
    assert (M = 8388608%positive) as -> by (cbn in HMv; lia).
    f_equal. lia.
Qed.

(** The product of a dimension below 2^24 by a power of two is exact. *)
Lemma mul32_pow2 W k :
  0 < W < 2 ^ 24 -> -24 <= k <= 24 ->
  to_int (mul32 (f32_of_int W) (f32 1 k)) = Some (scale_pow2 W k).
Proof.
  intros HW Hk. destruct W as [|w|w]; try lia.
  destruct (f32_of_int_pos w ltac:(lia)) as (M & HM & HMv & HMd & Hd).
  rewrite HM, f32_pow2 by lia.
  set (d := Zpos (digits2_pos w)) in *.
  unfold mul32.
  rewrite (SFmul_exact prec32 emax32 false false M 8388608 M _ _ 23).
  - cbn [xorb]. unfold to_int. cbn [trunc].
    replace (d - 24 + (k - 23) + 23) with (d - 24 + k) by lia.
    assert (Hp : 0 < 2 ^ (24 - d)) by (apply Z.pow_pos_nonneg; lia).
    assert (Ht : (if 0 <=? d - 24 + k then Zpos M * 2 ^ (d - 24 + k)
                  else Zpos M / 2 ^ (- (d - 24 + k))) = scale_pow2 (Zpos w) k).
    { unfold scale_pow2. rewrite HMv.
      destruct (Z.leb_spec 0 (d - 24 + k)), (Z.leb_spec 0 k); try lia.
      - rewrite <- Z.mul_assoc, <- Z.pow_add_r by lia. do 2 f_equal. lia.
      - replace (24 - d) with (k + (- (d - 24 + k))) by lia.
        rewrite Z.pow_add_r, Z.mul_assoc by lia.
        apply Z.div_mul. apply Z.pow_nonzero; lia.
      - replace (- (d - 24 + k)) with (- k + (24 - d)) by lia.
        rewrite Z.pow_add_r by lia.
        apply Z.div_mul_cancel_r; [|lia].
        apply Z.pow_nonzero; lia. }
    rewrite Ht.
    assert (Hr : 0 <= scale_pow2 (Zpos w) k <= Zpos w * 2 ^ 24).
    { unfold scale_pow2. destruct (Z.leb_spec 0 k).
      - assert (0 < 2 ^ k) by (apply Z.pow_pos_nonneg; lia).
        assert (2 ^ k <= 2 ^ 24) by (apply Z.pow_le_mono_r; lia). nia.
      - assert (0 < 2 ^ (- k)) by (apply Z.pow_pos_nonneg; lia).
        split; [apply Z.div_pos; lia|].
        apply Z.le_trans with (Zpos w); [|lia].
        apply Z.div_le_upper_bound; [lia|]. nia. }
    assert (Hm' : GoInt.maxInt = 9223372036854775807) by reflexivity.
    assert (Hn' : GoInt.minInt = -9223372036854775808) by reflexivity.
    assert (H24 : 2 ^ 24 = 16777216) by reflexivity.
    set (r := scale_pow2 (Zpos w) k) in *. clearbody r.
    destruct (Z.leb_spec GoInt.minInt r); [|lia].
    destruct (Z.leb_spec r GoInt.maxInt); [|nia]. reflexivity.
  - lia.
  - reflexivity.
  - exact HMd.
  - rewrite emin32_val. unfold prec32, emax32. fold d. lia.
Qed.

(** X: a uniform factor that is a power of two, 2^k with -24 <= k <= 24,
    scales each side below 2^24 exactly: the target is side * 2^k, rounded
    down when k is negative; the factor 1 keeps the dimensions, 0.5 halves
    them rounding down, 2 doubles them.  Above 2^24 the conversion to
    [float32] loses low bits: a side of 16777217 scaled by 1 gives
    16777216. *)
Theorem uniform_power_of_two_exact W H k :
  0 < W < 2 ^ 24 -> 0 < H < 2 ^ 24 -> -24 <= k <= 24 ->
  targetDims W H (f32 1 k) 0 0 = Some (scale_pow2 W k, scale_pow2 H k) /\
  targetDims W H (f32 1 0) 0 0 = Some (W, H) /\
  targetDims W H (f32 1 (-1)) 0 0 = Some (W / 2, H / 2) /\
  targetDims W H (f32 1 1) 0 0 = Some (2 * W, 2 * H) /\
  targetDims 16777217 1 (f32 1 0) 0 0 = Some (16777216, 1).
Proof.
  intros HW HH Hk.
  assert (Hgen : forall j, -24 <= j <= 24 ->
             targetDims W H (f32 1 j) 0 0 = Some (scale_pow2 W j, scale_pow2 H j)).
  { intros j Hj. unfold targetDims.
    rewrite (f32_pow2 j) at 1 by lia. cbn [ne SFeqb SFcompare zero negb].
    rewrite !mul32_pow2 by assumption. reflexivity. }
  split; [now apply Hgen|].
  rewrite !Hgen by lia. unfold scale_pow2. cbn [Z.leb Z.compare Z.opp].
  rewrite !Z.pow_0_r, !Z.mul_1_r, !Z.pow_1_r.
  repeat split; try reflexivity. f_equal. f_equal; lia.
Qed.

Lemma uniform_power_of_two_exact_witness :
  targetDims 640 480 (f32 1 (-2)) 0 0 =
    Some (scale_pow2 640 (-2), scale_pow2 480 (-2)) /\
  targetDims 640 480 (f32 1 0) 0 0 = Some (640, 480) /\
  targetDims 640 480 (f32 1 (-1)) 0 0 = Some (640 / 2, 480 / 2) /\
  targetDims 640 480 (f32 1 1) 0 0 = Some (2 * 640, 2 * 480) /\
  targetDims 16777217 1 (f32 1 0) 0 0 = Some (16777216, 1).
Proof.
  apply (uniform_power_of_two_exact 640 480 (-2)).
  - vm_compute; split; reflexivity.
  - vm_compute; split; reflexivity.
  - lia.
Defined.

End ScaleMore.

(** ** The flags of the [scale] command *)

Section ScaleFlags.
Import Float Scaling Cli Orchestrator.

(** X: the [scale] command lets its flags through exactly when they select
    one scaling mode: a non-zero factor with no dimension, or a zero factor
    with at least one dimension.  [ScaleImage] then computes the target
    dimensions of that one mode.  Flags that are let through never reach
    the case where no branch of [ScaleImage] applies, which leaves the
    target at 0x0; rejected flags end the command before any file is
    touched. *)
Theorem scale_flags_select_one_mode factor width height :
  (validateScale factor width height = None <->
     (ne factor zero = true /\ width = 0 /\ height = 0) \/
     (eq factor zero = true /\ (width <> 0 \/ height <> 0))) /\
  (validateScale factor width height = None ->
     exists sp, spec_ok sp /\
       forall W H, targetDims W H factor width height = truncated_dims W H sp) /\
  (forall env inputPath outputPath algorithm quality svgScale e,
     validateScale factor width height = Some e ->
     scaleRun env inputPath outputPath factor width height
              algorithm quality svgScale = ([], inl e)) /\
  (forall W H, targetDims W H zero 0 0 = Some (0, 0)) /\
  validateScale zero 0 0 = Some MustSpecify.
Proof.
  split; [|split; [|split; [|split]]].
  - unfold validateScale, ne, eq.
    destruct (SFeqb factor zero) eqn:Ef; cbn [negb andb orb];
      destruct (Z.eqb_spec width 0), (Z.eqb_spec height 0); cbn [negb andb orb];
      (split; [intros Hv; try discriminate Hv|
               intros [(Hn & Hw' & Hh')|(He & Hd)]; try discriminate;
               try reflexivity; try lia]);
      try (left; repeat split; (reflexivity || assumption));
      try (right; split; [reflexivity|lia]).
  - unfold validateScale, ne, eq.
    destruct (SFeqb factor zero) eqn:Ef; cbn [negb andb orb].
    + 
      destruct (Z.eqb_spec width 0) as [Hw|Hw], (Z.eqb_spec height 0) as [Hh|Hh];
        cbn [negb andb orb]; try discriminate; intros _.
      * exists (HeightOnly height). split; [exact Hh|]. intros W H.
        unfold targetDims, ne. rewrite Ef. cbn [negb].
        subst width. cbn [Z.eqb negb andb].
        destruct (Z.eqb_spec height 0); [contradiction|]. reflexivity.
      * exists (WidthOnly width). split; [exact Hw|]. intros W H.
        unfold targetDims, ne. rewrite Ef. cbn [negb].
        subst height. destruct (Z.eqb_spec width 0); [contradiction|].
        reflexivity.
      * exists (Explicit width height). split; [split; assumption|]. intros W H.
        unfold targetDims, ne. rewrite Ef. cbn [negb].
        destruct (Z.eqb_spec width 0); [contradiction|].
        destruct (Z.eqb_spec height 0); [contradiction|]. reflexivity.
    + destruct (Z.eqb_spec width 0) as [Hw|Hw], (Z.eqb_spec height 0) as [Hh|Hh];
        cbn [negb andb orb]; try discriminate; intros _.
      exists (Uniform factor). split.
      * cbn. unfold ne. now rewrite Ef.
      * intros W H. unfold targetDims, ne. rewrite Ef. reflexivity.
  - intros env i o a q s e He. unfold scaleRun. now rewrite He.
  - intros W H. reflexivity.
  - reflexivity.
Qed.

End ScaleFlags.

(** ** File handles *)

Section HandleFacts.
Import Orchestrator Handles.
Variable env : Env.

Lemma run_app t1 t2 hs :
  run env (t1 ++ t2) hs =
    match run env t1 hs with Some hs' => run env t2 hs' | None => None end.
Proof.
  revert hs. induction t1 as [|e t1 IH]; intros hs; [reflexivity|].
  cbn [run app]. destruct (step env hs e); [apply IH|reflexivity].
Qed.

Lemma bracketed_ret {A : Type} (a : A) : bracketed env (ret a).
Proof. intros hs. reflexivity. Qed.

Lemma bracketed_fail {A : Type} e : bracketed env (@fail A e).
Proof. intros hs. reflexivity. Qed.

Lemma bracketed_check e b : bracketed env (check e b).
Proof. destruct b; intros hs; reflexivity. Qed.

Lemma bracketed_of_option {A : Type} e (o : option A) :
  bracketed env (of_option e o).
Proof. destruct o; intros hs; reflexivity. Qed.

Lemma bracketed_print s : bracketed env (emit (EvPrint s)).
Proof. intros hs. reflexivity. Qed.

Lemma bracketed_mkdir d : bracketed env (emit (EvMkdirAll d)).
Proof. intros hs. reflexivity. Qed.

Lemma bracketed_wrap {A : Type} w (m : M A) :
  bracketed env m -> bracketed env (wrap w m).
Proof. unfold bracketed. now destruct m as [tr [e|a]]. Qed.

Lemma bracketed_bind {A B : Type} (m : M A) (k : A -> M B) :
  bracketed env m -> (forall a, bracketed env (k a)) -> bracketed env (bind m k).
Proof.
  unfold bracketed. intros Hm Hk hs. destruct m as [tr [e|a]]; cbn in *.
  - apply Hm.
  - specialize (Hk a). destruct (k a) as [tr' r]. cbn in *.
    rewrite run_app, Hm. apply Hk.
Qed.

Lemma bracketed_in_of {A : Type} p (m : M A) :
  bracketed env m -> bracketed_in env p m.
Proof. intros H hs. apply H. Qed.

Lemma bracketed_in_bind {A B : Type} p (m : M A) (k : A -> M B) :
  bracketed_in env p m -> (forall a, bracketed_in env p (k a)) ->
  bracketed_in env p (bind m k).
Proof.
  unfold bracketed_in. intros Hm Hk hs. destruct m as [tr [e|a]]; cbn in *.
  - apply Hm.
  - specialize (Hk a). destruct (k a) as [tr' r]. cbn in *.
    rewrite run_app, Hm. apply Hk.
Qed.

Lemma bracketed_in_read p : bracketed_in env p (emit (EvRead p)).
Proof. intros hs. cbn. now rewrite String.eqb_refl. Qed.

Lemma bracketed_in_write p : bracketed_in env p (emit (EvWrite p)).
Proof. intros hs. cbn. now rewrite String.eqb_refl. Qed.

Lemma bracketed_in_stat p : bracketed_in env p (emit (EvStat p)).
Proof. intros hs. cbn. now rewrite String.eqb_refl. Qed.

(** [f, err := os.Open(p); if err != nil { return ... }; defer f.Close()]
    followed by a body that works on the open file. *)
Lemma bracketed_open {A : Type} p w e (body : M A) :
  bracketed_in env p body ->
  bracketed env
    (bind (emit (EvOpen p)) (fun _ =>
     bind (wrap w (check e (fs_open env p))) (fun _ =>
     defer (EvClose p) body))).
Proof.
  intros Hb hs. specialize (Hb hs). destruct body as [tr r].
  cbn in Hb. unfold check. destruct (fs_open env p) eqn:Eo; cbn.
  - rewrite Eo. rewrite run_app, Hb. cbn. now rewrite String.eqb_refl.
  - now rewrite Eo.
Qed.

Lemma bracketed_open_plain {A : Type} p e (body : M A) :
  bracketed_in env p body ->
  bracketed env
    (bind (emit (EvOpen p)) (fun _ =>
     bind (check e (fs_open env p)) (fun _ =>
     defer (EvClose p) body))).
Proof.
  intros Hb hs. specialize (Hb hs). destruct body as [tr r].
  cbn in Hb. unfold check. destruct (fs_open env p) eqn:Eo; cbn.
  - rewrite Eo. rewrite run_app, Hb. cbn. now rewrite String.eqb_refl.
  - now rewrite Eo.
Qed.

(** The same for [os.Create]. *)
Lemma bracketed_create {A : Type} p e (body : M A) :
  bracketed_in env p body ->
  bracketed env
    (bind (emit (EvCreate p)) (fun _ =>
     bind (check e (fs_create env p)) (fun _ =>
     defer (EvClose p) body))).
Proof.
  intros Hb hs. specialize (Hb hs). destruct body as [tr r].
  cbn in Hb. unfold check. destruct (fs_create env p) eqn:Eo; cbn.
  - rewrite Eo. rewrite run_app, Hb. cbn. now rewrite String.eqb_refl.
  - now rewrite Eo.
Qed.

Lemma loadSVGWithScale_bracketed path scale :
  bracketed env (loadSVGWithScale env path scale).
Proof.
  unfold loadSVGWithScale. apply bracketed_open.
  apply bracketed_in_bind; [apply bracketed_in_read|]. intros _.
  apply bracketed_in_of.
  apply bracketed_bind; [apply bracketed_wrap, bracketed_of_option|]. intros svgData.
  apply bracketed_bind; [apply bracketed_print|]. intros _.
  apply bracketed_bind; [apply bracketed_wrap, bracketed_of_option|]. intros icon.
  apply bracketed_bind; [apply bracketed_print|]. intros _.
  apply bracketed_bind; [apply bracketed_of_option|]. intros img.
  apply bracketed_bind; [apply bracketed_print|]. intros _.
  apply bracketed_ret.
Qed.

Lemma loadSVG_bracketed path : bracketed env (loadSVG env path).
Proof.
  unfold loadSVG. apply bracketed_open.
  apply bracketed_in_bind; [apply bracketed_in_read|]. intros _.
  apply bracketed_in_of.
  apply bracketed_bind; [apply bracketed_wrap, bracketed_of_option|]. intros svgData.
  apply bracketed_bind; [apply bracketed_print|]. intros _.
  apply bracketed_bind; [apply bracketed_wrap, bracketed_of_option|]. intros icon.
  apply bracketed_bind; [apply bracketed_print|]. intros _.
  apply bracketed_bind; [apply bracketed_of_option|]. intros img.
  apply bracketed_bind; [apply bracketed_print|]. intros _.
  apply bracketed_ret.
Qed.

Lemma LoadImage_bracketed path : bracketed env (LoadImage env path).
Proof.
  unfold LoadImage. destruct (String.eqb _ ".svg"); [apply loadSVG_bracketed|].
  apply bracketed_open_plain.
  apply bracketed_in_bind; [apply bracketed_in_read|]. intros _.
  apply bracketed_in_of.
  destruct (String.eqb _ ".png"); [apply bracketed_of_option|].
  destruct (_ || _); apply bracketed_of_option.
Qed.

Lemma saveImage_bracketed img outputPath quality :
  bracketed env (saveImage env img outputPath quality).
Proof.
  unfold saveImage.
  apply bracketed_bind; [apply bracketed_mkdir|]. intros _.
  apply bracketed_bind; [apply bracketed_check|]. intros _.
  apply bracketed_create.
  apply bracketed_in_bind.
  - destruct (String.eqb _ ".png").
    { apply bracketed_in_bind; [apply bracketed_in_write|]. intros _.
      apply bracketed_in_of, bracketed_check. }
    destruct (_ || _).
    { apply bracketed_in_bind; [apply bracketed_in_write|]. intros _.
      apply bracketed_in_of, bracketed_check. }
    destruct (String.eqb _ ".webp").
    { apply bracketed_in_bind; [apply bracketed_in_of, bracketed_check|]. intros _.
      apply bracketed_in_bind; [apply bracketed_in_write|]. intros _.
      apply bracketed_in_of, bracketed_check. }
    apply bracketed_in_of, bracketed_fail.
  - intros _. apply bracketed_in_bind; [apply bracketed_in_stat|]. intros _.
    apply bracketed_in_of.
    destruct (fs_stat env outputPath); [apply bracketed_print|apply bracketed_ret].
Qed.

(** X: whatever the files, the decoders and the encoders do, [ScaleImage]
    reads, writes and inspects a file only between its successful opening
    (or creation) and its closing, and every file it has opened or created
    is closed when it returns, also when it returns an error; the same for
    the [scale] command around it. *)
Theorem scale_closes_every_file inputPath outputPath factor width height
    algorithm quality svgScale hs :
  run env (trace (ScaleImage env inputPath outputPath factor width height
                    algorithm quality svgScale)) hs = Some hs /\
  run env (fst (Cli.scaleRun env inputPath outputPath factor width height
                    algorithm quality svgScale)) hs = Some hs.
Proof.
  assert (Hs : bracketed env (ScaleImage env inputPath outputPath factor width
                                height algorithm quality svgScale)).
  { unfold ScaleImage. apply bracketed_bind.
    - unfold loadInput. destruct (String.eqb _ _); apply bracketed_wrap;
        [apply loadSVGWithScale_bracketed|apply LoadImage_bracketed].
    - intros img. cbv zeta. destruct (default _ _) as [tw th].
      apply bracketed_bind; [apply bracketed_print|]. intros _.
      destruct (selectFilter env algorithm);
        [apply saveImage_bracketed|apply bracketed_fail]. }
  split; [apply Hs|].
  unfold Cli.scaleRun. destruct (Cli.validateScale _ _ _); [reflexivity|].
  specialize (Hs hs). unfold trace in Hs.
  destruct (ScaleImage _ _ _ _ _ _ _ _ _) as [tr [e|u]]; cbn in *; [exact Hs|].
  rewrite run_app, Hs. reflexivity.
Qed.

End HandleFacts.

(** ** The output format of [saveImage] *)

Section OutputFormat.
Import Float Orchestrator.
Variable env : Env.

Lemma saveImage_unsupported img outputPath quality :
  ~ List.In (ToLower env (GoStrings.Ext outputPath))
      [".png"; ".jpg"; ".jpeg"; ".webp"]%string ->
  mkdir_all env (path_dir env outputPath) = true ->
  fs_create env outputPath = true ->
  saveImage env img outputPath quality =
    ([EvMkdirAll (path_dir env outputPath); EvCreate outputPath;
      EvClose outputPath],
     inl (UnsupportedFormat (ToLower env (GoStrings.Ext outputPath)))).
Proof.
  intros Hn Hd Hc. unfold saveImage. cbv zeta. rewrite Hd, Hc.
  set (ext := ToLower env (GoStrings.Ext outputPath)) in *.
  destruct (String.eqb_spec ext ".png") as [E|_];
    [exfalso; apply Hn; rewrite E; cbn; tauto|].
  destruct (String.eqb_spec ext ".jpg") as [E|_];
    [exfalso; apply Hn; rewrite E; cbn; tauto|].
  destruct (String.eqb_spec ext ".jpeg") as [E|_];
    [exfalso; apply Hn; rewrite E; cbn; tauto|].
  destruct (String.eqb_spec ext ".webp") as [E|_];
    [exfalso; apply Hn; rewrite E; cbn; tauto|].
  reflexivity.
Qed.

(** X: when the output path has none of the extensions .png, .jpg, .jpeg,
    .webp (in any letter case), [ScaleImage] finds it out last: the input
    has been loaded and, when the directory and the file can be created,
    the output file exists, empty and closed, by the time the error
    "unsupported output format" is returned; nothing is written to it. *)
Theorem unsupported_format_leaves_empty_file inputPath outputPath factor
    width height algorithm quality svgScale img filter :
  outcome (loadInput env inputPath svgScale) = inr img ->
  selectFilter env algorithm = Some filter ->
  ~ List.In (ToLower env (GoStrings.Ext outputPath))
      [".png"; ".jpg"; ".jpeg"; ".webp"]%string ->
  mkdir_all env (path_dir env outputPath) = true ->
  fs_create env outputPath = true ->
  ScaleImage env inputPath outputPath factor width height algorithm
             quality svgScale =
    (trace (loadInput env inputPath svgScale) ++
       [EvPrint "Scaling from %dx%d to %dx%d\n";
        EvMkdirAll (path_dir env outputPath); EvCreate outputPath;
        EvClose outputPath],
     inl (UnsupportedFormat (ToLower env (GoStrings.Ext outputPath)))).
Proof.
  intros Hl Hf Hn Hd Hc. unfold ScaleImage.
  rewrite (bind_inr _ _ img Hl). cbv zeta.
  destruct (default _ _) as [tw th]. rewrite Hf.
  rewrite saveImage_unsupported by assumption. reflexivity.
Qed.

End OutputFormat.

Section OutputFormatWitness.
Import Float Orchestrator.

Lemma unsupported_format_leaves_empty_file_witness :
  ScaleImage sample_env "in.png" "out.gif" (f32 2 0) 0 0 "lanczos"
             (f32 90 0) (f32 2 0) =
    (trace (loadInput sample_env "in.png" (f32 2 0)) ++
       [EvPrint "Scaling from %dx%d to %dx%d\n";
        EvMkdirAll (path_dir sample_env "out.gif"); EvCreate "out.gif";
        EvClose "out.gif"],
     inl (UnsupportedFormat (ToLower sample_env (GoStrings.Ext "out.gif")))).
Proof.
  eapply (unsupported_format_leaves_empty_file sample_env "in.png" "out.gif"
            (f32 2 0) 0 0 "lanczos" (f32 90 0) (f32 2 0)).
  - reflexivity.
  - reflexivity.
  - vm_compute. intros [H|[H|[H|[H|H]]]]; try discriminate H; exact H.
  - reflexivity.
  - reflexivity.
Defined.

End OutputFormatWitness.

(** ** The fixed-scale loader *)

Section FixedScale.
Import Float Orchestrator Rasterizer Optimizer.
Variable env : Env.

Lemma clampScale_two : clampScale (f32 2 0) = f32 2 0.
Proof. reflexivity. Qed.

(** The [float32] scale 2 widens to the [float64] constant of [loadSVG]. *)
Lemma widen_two : f64_of_f32 (f32 2 0) = fixedScale.
Proof. reflexivity. Qed.

Lemma srcFixed_src v : srcFixed v = src v (f32 2 0).
Proof. unfold srcFixed, src. now rewrite widen_two. Qed.

Lemma sampleFixed_sample img rw rh y x acc :
  sampleFixed img rw rh y x acc = sample img (f32 2 0) rw rh y x acc.
Proof. unfold sampleFixed, sample. now rewrite !srcFixed_src. Qed.

Lemma for_lt_ext {St : Type} lo hi (f g : Z -> St -> St) s :
  (forall i t, f i t = g i t) -> for_lt lo hi f s = for_lt lo hi g s.
Proof.
  intros Hfg. unfold for_lt. generalize (seqZ lo (hi - lo)) as l. intros l.
  revert s. induction l as [|i l IH]; intros s; cbn; [reflexivity|].
  rewrite Hfg. apply IH.
Qed.

Lemma downsampleFixed_downsample img width height rw rh :
  downsampleFixed img width height rw rh =
    downsample img width height (f32 2 0) rw rh.
Proof.
  unfold downsampleFixed, downsample.
  destruct (to_int width) as [iw|]; [|reflexivity].
  destruct (to_int height) as [ih|]; [|reflexivity].
  cbn [Scaling.bind].
  destruct (image.NewRGBA (image.Rect 0 0 iw ih)) as [finalImg|];
    [|reflexivity].
  cbn [Scaling.bind]. apply for_lt_ext. intros y t.
  apply for_lt_ext. intros x acc. apply sampleFixed_sample.
Qed.

(** The steps of [loadSVG] compute what the steps of [loadSVGWithScale]
    compute for the scale 2. *)
Lemma renderFixed_render icon : renderFixed icon = render icon (f32 2 0).
Proof.
  unfold renderFixed, render, canvas, renderDimsFixed, renderDims, clear.
  rewrite widen_two.
  destruct (intrinsic icon) as [width height].
  destruct (to_int (mul64 width fixedScale)) as [rw|]; [|reflexivity].
  destruct (to_int (mul64 height fixedScale)) as [rh|]; [|reflexivity].
  cbn [Scaling.bind].
  destruct (image.NewRGBA (image.Rect 0 0 rw rh)) as [img|]; [|reflexivity].
  cbn [Scaling.bind].
  change (ne fixedScale (f64 1 0)) with true.
  change (ne (f32 2 0) one32) with true. cbv iota.
  apply downsampleFixed_downsample.
Qed.

Lemma loadSVG_scale_two path :
  outcome (loadSVG env path) = outcome (loadSVGWithScale env path (f32 2 0)) /\
  file_actions (trace (loadSVG env path)) =
    file_actions (trace (loadSVGWithScale env path (f32 2 0))).
Proof.
  unfold loadSVG, loadSVGWithScale, rasterize.
  rewrite clampScale_two.
  destruct (fs_open env path); [|split; reflexivity].
  destruct (fs_read_all env path) as [svgData|]; [|split; reflexivity].
  cbn [check wrap bind emit ret fail of_option defer app].
  destruct (svg_parse env svgData) as [icon|]; [|split; reflexivity].
  cbn [check wrap bind emit ret fail of_option defer app].
  rewrite renderFixed_render.
  destruct (render icon (f32 2 0)) as [img|]; split; reflexivity.
Qed.

(** X: the loader [loadSVG], which has its own copy of the rendering and
    downsampling steps written with the [float64] constant 2.0, agrees with
    the configurable loader at the [float32] scale 2: both perform the same
    actions on the file and return the same image or the same error; they
    differ in the wording of one progress message.  So [LoadImage] on a
    path with the extension .svg returns what [loadSVGWithScale] returns for
    the scale 2. *)
Theorem fixed_loader_is_scale_two path :
  outcome (loadSVG env path) = outcome (loadSVGWithScale env path (f32 2 0)) /\
  file_actions (trace (loadSVG env path)) =
    file_actions (trace (loadSVGWithScale env path (f32 2 0))) /\
  (ToLower env (GoStrings.Ext path) = ".svg"%string ->
   outcome (LoadImage env path) =
     outcome (loadSVGWithScale env path (f32 2 0))).
Proof.
  destruct (loadSVG_scale_two path) as [Ho Ht].
  split; [exact Ho|]. split; [exact Ht|].
  intros Hx. unfold LoadImage. rewrite Hx. cbn [String.eqb Ascii.eqb Bool.eqb].
  exact Ho.
Qed.

End FixedScale.

(** ** The optimizer *)

Section OptimizerFacts.
Import Float Orchestrator Handles Optimizer.
Variable env : Env.
Variable stat_ok : string -> bool.

Lemma saveAsWebP_handles img outputPath quality hs :
  run env (fst (saveAsWebP env stat_ok img outputPath quality)) hs = Some hs.
Proof.
  unfold saveAsWebP, andThen, finally, guard, act, pure. cbv zeta.
  destruct (mkdir_all env _); [|reflexivity].
  destruct (fs_create env outputPath) eqn:Ec,
           (webp_options env quality), (webp_encode env img quality),
           (stat_ok outputPath);
    repeat (cbn; rewrite ?Ec, ?String.eqb_refl); reflexivity.
Qed.

Lemma cropAndSave_handles img outputPath quality hs :
  run env (fst (cropAndSave env stat_ok img outputPath quality)) hs = Some hs.
Proof.
  unfold cropAndSave, andThen, need.
  destruct (Cropper.cropTransparentAreas img) as [c|]; [|reflexivity].
  pose proof (saveAsWebP_handles (image.of_RGBA c) outputPath quality hs) as H.
  destruct (saveAsWebP _ _ _ _ _) as [tr r]. exact H.
Qed.

Lemma optimizeRaster_handles inputPath outputPath quality hs :
  run env (fst (optimizeRaster env stat_ok inputPath outputPath quality)) hs
  = Some hs.
Proof.
  unfold optimizeRaster, andThen, finally, guard, act, need.
  destruct (fs_open env inputPath) eqn:Eo; [|cbn; now rewrite Eo].
  destruct (image_decode env inputPath) as [img|];
    [|repeat (cbn; rewrite ?Eo, ?String.eqb_refl); reflexivity].
  pose proof (cropAndSave_handles img outputPath quality (inputPath :: hs)) as H.
  destruct (cropAndSave _ _ _ _ _) as [tr r]. cbn in H |- *.
  rewrite Eo. cbn. rewrite String.eqb_refl. cbn. rewrite run_app, H. cbn.
  rewrite String.eqb_refl; reflexivity.
Qed.

Lemma lift_andThen_handles {A : Type} (m : M A) (k : A -> R unit) hs :
  bracketed env m -> (forall a, run env (fst (k a)) hs = Some hs) ->
  run env (fst (andThen (lift LoadSVGFailed m) k)) hs = Some hs.
Proof.
  intros Hm Hk. specialize (Hm hs). destruct m as [tr [e|a]]; cbn in *;
    [exact Hm|].
  specialize (Hk a). destruct (k a) as [tr' r]. cbn in *.
  now rewrite run_app, Hm.
Qed.

Lemma OptimizeImageWithScale_handles inputPath outputPath quality svgScale hs :
  run env (fst (OptimizeImageWithScale env stat_ok inputPath outputPath
                  quality svgScale)) hs = Some hs.
Proof.
  unfold OptimizeImageWithScale. destruct (String.eqb _ _).
  - apply lift_andThen_handles; [apply loadSVGWithScale_bracketed|].
    intros img. apply cropAndSave_handles.
  - apply optimizeRaster_handles.
Qed.

(** X: whatever the files, the decoders and the encoder do, the optimizer
    reads, writes and inspects a file only between its successful opening
    (or creation) and its closing, and closes every file it has opened or
    created on every path, also when it returns an error.  This holds for
    both entry points and for the [optimize] command around them. *)
Theorem optimize_closes_every_file inputPath outputPath quality svgScale hs :
  run env (fst (OptimizeImageWithScale env stat_ok inputPath outputPath
                  quality svgScale)) hs = Some hs /\
  run env (fst (OptimizeImage env stat_ok inputPath outputPath quality)) hs
    = Some hs /\
  run env (fst (Cli.optimizeRun env stat_ok inputPath outputPath
                  quality svgScale)) hs = Some hs.
Proof.
  split; [apply OptimizeImageWithScale_handles|]. split.
  - unfold OptimizeImage. destruct (String.eqb _ _).
    + apply lift_andThen_handles; [apply loadSVG_bracketed|].
      intros img. apply cropAndSave_handles.
    + apply optimizeRaster_handles.
  - unfold Cli.optimizeRun.
    pose proof (OptimizeImageWithScale_handles inputPath
                  (Cli.webpPath env outputPath) quality svgScale) as H.
    destruct (OptimizeImageWithScale _ _ _ _ _ _) as [tr [e|u]];
      destruct (negb _); repeat (cbn; rewrite ?run_app, ?H); reflexivity.
Qed.

Lemma saveAsWebP_touches img outputPath quality :
  ~ Forall (fun e => is_output e = false)
      (fst (saveAsWebP env stat_ok img outputPath quality)) /\
  forall e, snd (saveAsWebP env stat_ok img outputPath quality) = inl e ->
            ~ before_saving e.
Proof.
  unfold saveAsWebP, andThen, finally, guard, act, pure. cbv zeta.
  split.
  - intros H.
    destruct (mkdir_all env _); [|inversion H; discriminate].
    destruct (fs_create env outputPath); [|inversion H; discriminate].
    destruct (webp_options env quality); [|inversion H; discriminate].
    destruct (webp_encode env img quality); [|inversion H; discriminate].
    destruct (stat_ok outputPath); inversion H; discriminate.
  - intros e.
    destruct (mkdir_all env _); [|intros [= <-]; exact (fun x => x)].
    destruct (fs_create env outputPath); [|intros [= <-]; exact (fun x => x)].
    destruct (webp_options env quality); [|intros [= <-]; exact (fun x => x)].
    destruct (webp_encode env img quality); [|intros [= <-]; exact (fun x => x)].
    destruct (stat_ok outputPath); discriminate.
Qed.

Lemma cropAndSave_touches img outputPath quality :
  Forall (fun e => is_output e = false)
    (fst (cropAndSave env stat_ok img outputPath quality)) <->
  exists e, snd (cropAndSave env stat_ok img outputPath quality) = inl e /\
            before_saving e.
Proof.
  unfold cropAndSave, andThen, need.
  destruct (Cropper.cropTransparentAreas img) as [c|].
  - destruct (saveAsWebP_touches (image.of_RGBA c) outputPath quality)
      as [Ht He].
    destruct (saveAsWebP _ _ _ _ _) as [tr r]. cbn in *. split.
    + intros H. contradiction.
    + intros (e & -> & Hb). exfalso. exact (He e eq_refl Hb).
  - cbn. split; [intros _; exists CropPanicked; split; [reflexivity|exact I]|].
    intros _. constructor.
Qed.

Lemma loadSVGWithScale_quiet path scale :
  Forall (fun e => is_output e = false) (trace (loadSVGWithScale env path scale)).
Proof.
  unfold loadSVGWithScale.
  destruct (fs_open env path); [|repeat constructor].
  destruct (fs_read_all env path) as [svgData|]; [|repeat constructor].
  cbn [check wrap bind emit ret fail of_option defer app].
  destruct (svg_parse env svgData) as [icon|]; [|repeat constructor].
  cbn [check wrap bind emit ret fail of_option defer app].
  destruct (Rasterizer.rasterize icon scale) as [img|]; repeat constructor.
Qed.

(** X: the optimizer touches the output location (directory, file) exactly
    when the input has been loaded and cropped: a run that fails to open,
    read, parse, decode or crop its input performs no action on the output
    path, and every other run, successful or not, performs at least one
    action on it. *)
Theorem optimize_output_after_load inputPath outputPath quality svgScale :
  Forall (fun e => is_output e = false)
    (fst (OptimizeImageWithScale env stat_ok inputPath outputPath
            quality svgScale)) <->
  exists e,
    snd (OptimizeImageWithScale env stat_ok inputPath outputPath
           quality svgScale) = inl e /\ before_saving e.
Proof.
  unfold OptimizeImageWithScale. destruct (String.eqb _ _).
  - pose proof (loadSVGWithScale_quiet inputPath svgScale) as Hq.
    unfold trace in Hq.
    destruct (loadSVGWithScale env inputPath svgScale) as [tr [e|img]];
      cbn [lift andThen fst snd] in *.
    + split; [intros _; exists (LoadSVGFailed e); split; [reflexivity|exact I]|].
      intros _. exact Hq.
    + pose proof (cropAndSave_touches img outputPath quality) as Hc.
      destruct (cropAndSave _ _ _ _ _) as [tr' r]. cbn [fst snd] in *.
      rewrite <- Hc. split.
      * intros H. apply Forall_app in H. tauto.
      * intros H. apply Forall_app. tauto.
  - unfold optimizeRaster, andThen, finally, guard, act, need.
    destruct (fs_open env inputPath).
    + destruct (image_decode env inputPath) as [img|].
      * pose proof (cropAndSave_touches img outputPath quality) as Hc.
        destruct (cropAndSave _ _ _ _ _) as [tr' r]. cbn [fst snd app] in *.
        rewrite <- Hc. split.
        -- intros H. inversion H as [|? ? _ H1]; subst.
           inversion H1 as [|? ? _ H2]; subst.
           apply Forall_app in H2. tauto.
        -- intros H. repeat constructor.
           apply Forall_app. split; [exact H|repeat constructor].
      * cbn. split;
          [intros _; exists DecodeInputFailed; split; [reflexivity|exact I]|].
        intros _. repeat constructor.
    + cbn. split;
        [intros _; exists (OpenInputFailed inputPath); split; [reflexivity|exact I]|].
      intros _. repeat constructor.
Qed.

(** X: [OptimizeImage], which loads vector input through [loadSVG], agrees
    with [OptimizeImageWithScale] at the scale 2: for every input they
    return the same result or the same error and perform the same actions
    on files, in the same order. *)
Theorem optimize_fixed_is_scale_two inputPath outputPath quality :
  snd (OptimizeImage env stat_ok inputPath outputPath quality) =
    snd (OptimizeImageWithScale env stat_ok inputPath outputPath quality
           (f32 2 0)) /\
  file_actions (fst (OptimizeImage env stat_ok inputPath outputPath quality)) =
    file_actions (fst (OptimizeImageWithScale env stat_ok inputPath outputPath
                         quality (f32 2 0))).
Proof.
  unfold OptimizeImage, OptimizeImageWithScale.
  destruct (String.eqb _ _); [|split; reflexivity].
  destruct (loadSVG_scale_two env inputPath) as [Ho Ht].
  unfold outcome, trace in *.
  destruct (loadSVG env inputPath) as [tr r],
           (loadSVGWithScale env inputPath (f32 2 0)) as [tr' r'].
  cbn [fst snd] in *. subst r'.
  destruct r as [e|img]; cbn [lift andThen fst snd]; [split; [reflexivity|exact Ht]|].
  destruct (cropAndSave env stat_ok img outputPath quality) as [ts rs].
  cbn [fst snd]. split; [reflexivity|].
  unfold file_actions in *. rewrite !List.filter_app. now rewrite Ht.
Qed.

End OptimizerFacts.

(** ** The output path of the [optimize] command *)

Section WebpPath.
Import GoStrings GoSuffix Orchestrator Cli.
Variable env : Env.

Lemma chars_app s t : list_ascii_of_string (s ++ t) = list_ascii_of_string s ++ list_ascii_of_string t.
Proof. induction s as [|c s IH]; cbn; [reflexivity|now rewrite IH]. Qed.

Lemma str_app l k : string_of_list_ascii (l ++ k) = (string_of_list_ascii l ++ string_of_list_ascii k)%string.
Proof. induction l as [|c l IH]; cbn; [reflexivity|now rewrite IH]. Qed.

Lemma chars_lower_bytes s : list_ascii_of_string (lower_bytes s) = map lower_byte (list_ascii_of_string s).
Proof. induction s as [|c s IH]; cbn; [reflexivity|now rewrite IH]. Qed.

Lemma isASCII_chars s :
  isASCII s = true <-> Forall (fun c => is_ascii_byte c = true) (list_ascii_of_string s).
Proof.
  induction s as [|c s IH]; cbn.
  - split; [constructor|reflexivity].
  - rewrite andb_true_iff, IH. split.
    + intros [H1 H2]. now constructor.
    + intros H. inversion H; subst. now split.
Qed.

Lemma isASCII_str l :
  Forall (fun c => is_ascii_byte c = true) l -> isASCII (string_of_list_ascii l) = true.
Proof.
  intros H. apply isASCII_chars. now rewrite list_ascii_of_string_of_list_ascii.
Qed.

(** The extension of a path that ends in ".webp". *)
Lemma Ext_webp s : Ext (s ++ ".webp") = ".webp"%string.
Proof.
  unfold Ext. rewrite chars_app, rev_app_distr. reflexivity.
Qed.

(** A byte that [lower_byte] sends to a character of ".webp". *)
Lemma lower_byte_webp c d :
  lower_byte c = d ->
  List.In d (list_ascii_of_string ".webp") ->
  is_sep c = false /\ is_ascii_byte c = true /\ lower_byte d = d /\
  (byte_of c =? 46)%N = (byte_of d =? 46)%N.
Proof.
  intros <- Hin.
  destruct c as [[] [] [] [] [] [] [] []];
    (vm_compute in Hin;
     repeat match goal with
            | H : _ \/ _ |- _ => destruct H as [H|H]
            end; try discriminate; try contradiction);
    vm_compute; repeat split; reflexivity.
Qed.

Lemma HasSuffix_spec s suffix :
  HasSuffix s suffix = true <->
  exists l, list_ascii_of_string s = l ++ list_ascii_of_string suffix.
Proof.
  unfold HasSuffix. rewrite andb_true_iff, Nat.leb_le, String.eqb_eq. split.
  - intros [Hl He]. exists (take (length (list_ascii_of_string s) - length (list_ascii_of_string suffix)) (list_ascii_of_string s)).
    rewrite <- He at 2. rewrite list_ascii_of_string_of_list_ascii.
    now rewrite take_drop.
  - intros [l Hl]. rewrite Hl, length_app. split; [lia|].
    replace (length l + length (list_ascii_of_string suffix) - length (list_ascii_of_string suffix))%nat
      with (length l) by lia.
    rewrite drop_app_length. apply string_of_list_ascii_of_string.
Qed.

Lemma HasSuffix_app s suffix : HasSuffix (s ++ suffix) suffix = true.
Proof. apply HasSuffix_spec. exists (list_ascii_of_string s). apply chars_app. Qed.

(** A prefix of a path cut at a suffix. *)
Lemma TrimSuffix_prefix s suffix :
  exists k, list_ascii_of_string s = list_ascii_of_string (TrimSuffix s suffix) ++ k.
Proof.
  unfold TrimSuffix. destruct (HasSuffix s suffix).
  - exists (drop (length (list_ascii_of_string s) - length (list_ascii_of_string suffix)) (list_ascii_of_string s)).
    rewrite list_ascii_of_string_of_list_ascii. now rewrite take_drop.
  - exists []. now rewrite app_nil_r.
Qed.

Lemma ToLower_ascii s :
  isASCII s = true -> ToLower env s = lower_bytes s.
Proof. intros H. unfold ToLower, GoStrings.ToLower. now rewrite H. Qed.

Lemma lower_bytes_app s t :
  lower_bytes (s ++ t) = (lower_bytes s ++ lower_bytes t)%string.
Proof. induction s as [|c s IH]; cbn; [reflexivity|now rewrite IH]. Qed.

Lemma isASCII_app s t :
  isASCII (s ++ t) = isASCII s && isASCII t.
Proof.
  induction s as [|c s IH]; cbn; [reflexivity|].
  now rewrite IH, andb_assoc.
Qed.

(** A path whose lower-case form ends in ".webp" has an extension that is
    ".webp" in lower case. *)
Lemma Ext_of_webp_suffix p :
  isASCII p = true ->
  HasSuffix (lower_bytes p) ".webp" = true ->
  ToLower env (Ext p) = ".webp"%string.
Proof.
  intros Ha Hs. apply HasSuffix_spec in Hs. destruct Hs as [l Hl].
  rewrite chars_lower_bytes in Hl.
  assert (Hsplit : exists l0 c0 c1 c2 c3 c4,
             list_ascii_of_string p = l0 ++ [c0; c1; c2; c3; c4] /\
             map lower_byte [c0; c1; c2; c3; c4] = list_ascii_of_string ".webp").
  { apply map_eq_app in Hl. destruct Hl as (l0 & l1 & Hp & _ & H1).
    exists l0. destruct l1 as [|c0 [|c1 [|c2 [|c3 [|c4 [|? ?]]]]]];
      try discriminate H1.
    exists c0, c1, c2, c3, c4. split; assumption. }
  destruct Hsplit as (l0 & c0 & c1 & c2 & c3 & c4 & Hp & Hm).
  cbn in Hm. injection Hm as H0 H1 H2 H3 H4.
  destruct (lower_byte_webp c0 _ H0) as (S0 & A0 & L0 & D0); [cbn; tauto|].
  destruct (lower_byte_webp c1 _ H1) as (S1 & A1 & L1 & D1); [cbn; tauto|].
  destruct (lower_byte_webp c2 _ H2) as (S2 & A2 & L2 & D2); [cbn; tauto|].
  destruct (lower_byte_webp c3 _ H3) as (S3 & A3 & L3 & D3); [cbn; tauto|].
  destruct (lower_byte_webp c4 _ H4) as (S4 & A4 & L4 & D4); [cbn; tauto|].
  change ((byte_of "." =? 46)%N) with true in D0.
  change ((byte_of "w" =? 46)%N) with false in D1.
  change ((byte_of "e" =? 46)%N) with false in D2.
  change ((byte_of "b" =? 46)%N) with false in D3.
  change ((byte_of "p" =? 46)%N) with false in D4.
  unfold Ext. rewrite Hp, rev_app_distr. cbn [rev app ext_scan].
  rewrite S4, D4, S3, D3, S2, D2, S1, D1, S0, D0.
  unfold ToLower, GoStrings.ToLower. cbn [isASCII lower_bytes].
  rewrite A0, A1, A2, A3, A4. cbn [andb].
  now rewrite H0, H1, H2, H3, H4.
Qed.

Lemma webp_appended base :
  isASCII base = true ->
  ToLower env (Ext (base ++ ".webp")) = ".webp"%string /\
  HasSuffix (ToLower env (base ++ ".webp")) ".webp" = true.
Proof.
  intros Hb. split; [now rewrite Ext_webp|].
  rewrite ToLower_ascii by (rewrite isASCII_app, Hb; reflexivity).
  rewrite lower_bytes_app. apply (HasSuffix_app (lower_bytes base) ".webp").
Qed.

Lemma TrimSuffix_ascii s suffix :
  isASCII s = true -> isASCII (TrimSuffix s suffix) = true.
Proof.
  intros Hs. destruct (TrimSuffix_prefix s suffix) as [k Hk].
  apply isASCII_chars. apply isASCII_chars in Hs. rewrite Hk in Hs.
  apply Forall_app in Hs. tauto.
Qed.

(** X: for a path written in ASCII, the [optimize] command always writes to
    a path whose extension is ".webp" up to letter case: a path that
    already ends so is kept, any other extension is replaced and a path
    without extension gets ".webp" appended; applying the rule twice changes
    nothing more. *)
Theorem optimize_output_is_webp outputPath :
  isASCII outputPath = true ->
  ToLower env (Ext (webpPath env outputPath)) = ".webp"%string /\
  HasSuffix (ToLower env (webpPath env outputPath)) ".webp" = true /\
  webpPath env (webpPath env outputPath) = webpPath env outputPath /\
  webpPath env "photo.PNG" = "photo.webp"%string /\
  webpPath env "archive.tar.gz" = "archive.tar.webp"%string /\
  webpPath env "out" = "out.webp"%string /\
  webpPath env "dir.d/out" = "dir.d/out.webp"%string /\
  webpPath env "pic.WebP" = "pic.WebP"%string.
Proof.
  intros Ha.
  assert (H3 : ToLower env (Ext (webpPath env outputPath)) = ".webp"%string /\
               HasSuffix (ToLower env (webpPath env outputPath)) ".webp" = true).
  { unfold webpPath.
    destruct (HasSuffix (ToLower env outputPath) ".webp") eqn:Hs; cbn [negb].
    - split; [|exact Hs]. rewrite ToLower_ascii in Hs by exact Ha.
      now apply Ext_of_webp_suffix.
    - destruct (negb _); apply webp_appended;
        [now apply TrimSuffix_ascii|exact Ha]. }
  destruct H3 as [H1 H2]. split; [exact H1|]. split; [exact H2|].
  split; [|repeat split; reflexivity].
  unfold webpPath at 1. now rewrite H2.
Qed.

End WebpPath.

Section WebpPathWitness.
Import GoStrings GoSuffix Orchestrator Cli.

Lemma optimize_output_is_webp_witness :
  ToLower sample_env (Ext (webpPath sample_env "photo.PNG")) = ".webp"%string /\
  HasSuffix (ToLower sample_env (webpPath sample_env "photo.PNG")) ".webp" = true /\
  webpPath sample_env (webpPath sample_env "photo.PNG") =
    webpPath sample_env "photo.PNG" /\
  webpPath sample_env "photo.PNG" = "photo.webp"%string /\
  webpPath sample_env "archive.tar.gz" = "archive.tar.webp"%string /\
  webpPath sample_env "out" = "out.webp"%string /\
  webpPath sample_env "dir.d/out" = "dir.d/out.webp"%string /\
  webpPath sample_env "pic.WebP" = "pic.WebP"%string.
Proof. apply (optimize_output_is_webp sample_env "photo.PNG"). reflexivity. Defined.

End WebpPathWitness.

(** ** The JPEG quality outside 0..100 *)

Section QualityOutside.
Import Float Codec.

(** A [float32] above the smallest exponent has a full mantissa. *)
Lemma valid32_normal s m e :
  valid32 (S754_finite s m e) -> -149 < e -> 2 ^ 23 <= Zpos m.
Proof.
  unfold valid32, valid_binary, bounded, canonical_mantissa, fexp, emin,
    prec32, emax32.
  intros H He. apply andb_true_iff in H. destruct H as [H1 _].
  apply Z.eqb_eq in H1.
  assert (Hd : Zpos (digits2_pos m) = 24) by lia.
  pose proof (digits2_pos_lower m) as Hl. rewrite Hd in Hl. exact Hl.
Qed.

Lemma trunc_below_one q t :
  valid32 q -> lt q one32 = true -> trunc q = Some t -> t <= 0.
Proof.
  intros Hv Hlt Ht. rewrite one32_val in Hlt. unfold lt, SFltb in Hlt.
  destruct q as [s|s| |s m e]; cbn [SFcompare trunc] in *; try discriminate.
  - injection Ht as <-. lia.
  - injection Ht as <-.
    assert (Ha : 0 <= (if 0 <=? e then Zpos m * 2 ^ e else Zpos m / 2 ^ (- e))).
    { destruct (Z.leb_spec 0 e).
      - assert (0 < 2 ^ e) by (apply Z.pow_pos_nonneg; lia). nia.
      - apply Z.div_pos; [lia|]. apply Z.pow_pos_nonneg; lia. }
    destruct s; [lia|].
    destruct (valid32_mantissa _ _ _ Hv) as [Hm He].
    change (2 ^ 24) with 16777216 in Hm.
    destruct (Z.compare_spec e (-23)) as [->|Hl|Hg]; [| |discriminate].
    + assert (Hlt' : Zpos m < 8388608).
      { destruct (PosDef.Pos.compare_cont Eq m 8388608) eqn:Em;
          try discriminate Hlt.
        exact (proj1 (Pos.compare_lt_iff m 8388608) Em). }
      change (0 <=? -23) with false. change (2 ^ (- -23)) with 8388608.
      rewrite Z.div_small by lia. lia.
    + destruct (Z.leb_spec 0 e); [lia|].
      assert (Hp : 2 ^ 24 <= 2 ^ (- e)) by (apply Z.pow_le_mono_r; lia).
      change (2 ^ 24) with 16777216 in Hp.
      rewrite Z.div_small by lia. lia.
Qed.

Lemma trunc_above_hundred q t :
  valid32 q -> gt q (f32 100 0) = true -> trunc q = Some t -> 100 <= t.
Proof.
  intros Hv Hgt Ht. rewrite hundred_val in Hgt. unfold gt, SFltb in Hgt.
  destruct q as [s|s| |s m e]; cbn [SFcompare trunc] in *; try discriminate.
  destruct s; [discriminate|]. injection Ht as <-.
  destruct (Z.compare_spec (-17) e) as [<-|Hl|Hg]; [| |discriminate].
  - assert (Hlt' : 13107200 < Zpos m).
    { destruct (PosDef.Pos.compare_cont Eq 13107200 m) eqn:Em;
        try discriminate Hgt.
      exact (proj1 (Pos.compare_lt_iff 13107200 m) Em). }
    change (0 <=? -17) with false. change (2 ^ (- -17)) with 131072.
    apply Z.div_le_lower_bound; lia.
  - pose proof (valid32_normal _ _ _ Hv ltac:(lia)) as Hn.
    change (2 ^ 23) with 8388608 in Hn.
    destruct (Z.leb_spec 0 e).
    + assert (1 <= 2 ^ e) by (apply (Z.pow_le_mono_r 2 0 e); lia). nia.
    + assert (Hp : 2 ^ (- e) <= 2 ^ 16) by (apply Z.pow_le_mono_r; lia).
      assert (Hq : 0 < 2 ^ (- e)) by (apply Z.pow_pos_nonneg; lia).
      change (2 ^ 16) with 65536 in Hp.
      apply Z.div_le_lower_bound; [lia|]. nia.
Qed.

(** X: outside the range 0..100 the JPEG branch of [saveImage] behaves as
    follows, for every quality whose conversion to [int] is defined: a
    setting below 1, negative ones included, gives the default 90 and not
    the lower limit 1; a setting above 100 gives 100; in every case the
    encoder gets a quality between 1 and 100. *)
Theorem jpeg_quality_outside_range q t :
  valid32 q -> to_int q = Some t ->
  (lt q one32 = true -> jpegQuality q = Some 90) /\
  (gt q (f32 100 0) = true -> jpegQuality q = Some 100) /\
  (exists j, jpegQuality q = Some j /\ 1 <= j <= 100) /\
  jpegQuality (f32 (-5) 0) = Some 90 /\
  jpegQuality (f32 1 (-1)) = Some 90 /\
  jpegQuality (f32 250 0) = Some 100.
Proof.
  intros Hv Ht.
  assert (Htr : trunc q = Some t).
  { unfold to_int in Ht. destruct (trunc q) as [z|]; [|discriminate].
    destruct (_ && _); [exact Ht|discriminate]. }
  unfold jpegQuality. rewrite Ht.
  split; [|split; [|split; [|repeat split; reflexivity]]].
  - intros Hlt. pose proof (trunc_below_one q t Hv Hlt Htr) as Hle.
    destruct (Z.ltb_spec t 1); [reflexivity|lia].
  - intros Hgt. pose proof (trunc_above_hundred q t Hv Hgt Htr) as Hge.
    destruct (Z.ltb_spec t 1); [lia|].
    destruct (Z.gtb_spec t 100); [reflexivity|]. f_equal. lia.
  - destruct (Z.ltb_spec t 1).
    + exists 90. split; [reflexivity|lia].
    + destruct (Z.gtb_spec t 100).
      * exists 100. split; [reflexivity|lia].
      * exists t. split; [reflexivity|lia].
Qed.

Lemma jpeg_quality_outside_range_witness :
  (lt (f32 150 0) one32 = true -> jpegQuality (f32 150 0) = Some 90) /\
  (gt (f32 150 0) (f32 100 0) = true -> jpegQuality (f32 150 0) = Some 100) /\
  (exists j, jpegQuality (f32 150 0) = Some j /\ 1 <= j <= 100) /\
  jpegQuality (f32 (-5) 0) = Some 90 /\
  jpegQuality (f32 1 (-1)) = Some 90 /\
  jpegQuality (f32 250 0) = Some 100.
Proof.
  apply (jpeg_quality_outside_range (f32 150 0) 150).
  - reflexivity.
  - reflexivity.
Defined.

End QualityOutside.

(** ** The aspect ratio of the fit-to-width and fit-to-height modes *)

Section AspectRatio.
Import Float Scaling Cli.

(** The quotient of two [float32] with the same full mantissa is the power
    of two of the difference of their exponents. *)
Lemma div32_same_mantissa (M : positive) e1 e2 :
  Zpos (digits2_pos M) = 24 -> -125 <= e1 - e2 <= 127 ->
  div32 (S754_finite false M e1) (S754_finite false M e2) = f32 1 (e1 - e2).
Proof.
  intros Hd He. rewrite f32_pow2 by lia.
  unfold div32, SFdiv, SFdiv_core_binary. cbn [Zdigits2 xorb]. rewrite Hd.
  replace (24 + e1 - (24 + e2)) with (e1 - e2) by lia.
  assert (Hf : fexp prec32 emax32 (e1 - e2) = e1 - e2 - 24).
  { unfold fexp, emin, prec32, emax32. lia. }
  rewrite Hf.
  change (IntDef.Z.min (e1 - e2 - 24) (e1 - e2))
    with (Z.min (e1 - e2 - 24) (e1 - e2)).
  rewrite Z.min_l by lia.
  replace (e1 - e2 - (e1 - e2 - 24)) with 24 by lia. cbv iota.
  change (IntDef.Z.shiftl (Zpos M) 24) with (Z.shiftl (Zpos M) 24).
  rewrite Z.shiftl_mul_pow2 by lia.
  change (IntDef.Z.div_eucl (Zpos M * 2 ^ 24) (Zpos M))
    with (Z.div_eucl (Zpos M * 2 ^ 24) (Zpos M)).
  pose proof (Z.div_eucl_eq (Zpos M * 2 ^ 24) (Zpos M) ltac:(lia)) as Heq.
  pose proof (Z.mod_pos_bound (Zpos M * 2 ^ 24) (Zpos M) ltac:(lia)) as Hb.
  unfold Z.modulo in Hb.
  destruct (Z.div_eucl (Zpos M * 2 ^ 24) (Zpos M)) as [q r].
  change (2 ^ 24) with 16777216 in *.
  assert (Hr : r = 0).
  { assert (Hc : r = (16777216 - q) * Zpos M) by lia.
    destruct (Z.eq_dec q 16777216) as [->|Hne]; [lia|]. nia. }
  subst r. assert (Hq : q = 16777216) by nia. subst q.
  assert (Hl : new_location (Zpos M) 0 = loc_Exact).
  { unfold new_location, new_location_even, new_location_odd.
    destruct (IntDef.Z.even (Zpos M)); reflexivity. }
  rewrite Hl.
  rewrite (binary_round_aux_exact prec32 emax32 false 8388608 16777216
             (e1 - e2 - 24) 1).
  - f_equal. lia.
  - lia.
  - reflexivity.
  - reflexivity.
  - rewrite emin32_val. unfold prec32, emax32. lia.
Qed.

(** The two conversions of sides in the ratio 2^k have the same mantissa. *)
Lemma f32_of_int_ratio (a b : positive) k :
  Zpos a < 2 ^ 24 -> Zpos b < 2 ^ 24 -> 0 <= k -> Zpos b = Zpos a * 2 ^ k ->
  exists (M : positive) e,
    f32_of_int (Zpos a) = S754_finite false M e /\
    f32_of_int (Zpos b) = S754_finite false M (e + k) /\
    Zpos (digits2_pos M) = 24 /\ k <= 24.
Proof.
  intros Ha Hb Hk Hab.
  destruct (f32_of_int_pos a Ha) as (Ma & HMa & Hva & Hda & Hra).
  destruct (f32_of_int_pos b Hb) as (Mb & HMb & Hvb & Hdb & Hrb).
  pose proof (digits2_pos_shift a k b Hk Hab) as Hs.
  exists Ma, (Zpos (digits2_pos a) - 24).
  split; [exact HMa|]. split; [|split; [exact Hda|lia]].
  rewrite HMb. f_equal; [|lia].
  assert (Zpos Mb = Zpos Ma); [|congruence].
  rewrite Hvb, Hva, Hab, Hs, <- Z.mul_assoc, <- Z.pow_add_r by lia.
  do 2 f_equal. lia.
Qed.

(** The aspect ratio of sides in the ratio 2^k. *)
Lemma aspect_pow2 W H k :
  0 < W < 2 ^ 24 -> 0 < H < 2 ^ 24 ->
  (0 <= k /\ H = W * 2 ^ k) \/ (k < 0 /\ W = H * 2 ^ (- k)) ->
  -24 <= k <= 24 /\
  div32 (f32_of_int H) (f32_of_int W) = f32 1 k /\
  div32 (f32_of_int W) (f32_of_int H) = f32 1 (- k).
Proof.
  intros HW HH Hr.
  destruct W as [|a|a]; try lia. destruct H as [|b|b]; try lia.
  destruct Hr as [[Hk Hr]|[Hk Hr]].
  - destruct (f32_of_int_ratio a b k) as (M & e & Ea & Eb & Hd & Hk');
      try lia.
    rewrite Ea, Eb. split; [lia|]. split.
    + rewrite div32_same_mantissa by (assumption || lia). f_equal. lia.
    + rewrite div32_same_mantissa by (assumption || lia). f_equal. lia.
  - destruct (f32_of_int_ratio b a (- k)) as (M & e & Eb & Ea & Hd & Hk');
      try lia.
    rewrite Ea, Eb. split; [lia|]. split.
    + rewrite div32_same_mantissa by (assumption || lia). f_equal. lia.
    + rewrite div32_same_mantissa by (assumption || lia). f_equal. lia.
Qed.

(** X: when the sides of the original are in a ratio that is a power of
    two, height = width * 2^k or width = height * 2^-k (k = 0 is a square),
    fitting to a width w below 2^24 gives exactly the height w * 2^k and
    fitting to a height h gives exactly the width h * 2^-k, rounded down
    where the power is negative.  For other ratios the single-precision
    quotient can lose a pixel: a 7x31 original fitted to its own width 7
    gets the height 30, and a 3x7 original fitted to the width 27 gets the
    height 62 instead of 63. *)
Theorem aspect_power_of_two_exact W H k w h :
  0 < W < 2 ^ 24 -> 0 < H < 2 ^ 24 -> 0 < w < 2 ^ 24 -> 0 < h < 2 ^ 24 ->
  (0 <= k /\ H = W * 2 ^ k) \/ (k < 0 /\ W = H * 2 ^ (- k)) ->
  targetDims W H zero w 0 = Some (w, scale_pow2 w k) /\
  targetDims W H zero 0 h = Some (scale_pow2 h (- k), h) /\
  targetDims 7 31 zero 7 0 = Some (7, 30) /\
  targetDims 3 7 zero 27 0 = Some (27, 62).
Proof.
  intros HW HH Hw Hh Hr.
  destruct (aspect_pow2 W H k HW HH Hr) as (Hk & Hd1 & Hd2).
  split; [|split; [|split; reflexivity]].
  - unfold targetDims. rewrite ne_zero_zero.
    destruct (Z.eqb_spec w 0); [lia|]. cbn [negb andb Z.eqb].
    rewrite Hd1, mul32_pow2 by (assumption || lia). reflexivity.
  - unfold targetDims. rewrite ne_zero_zero.
    destruct (Z.eqb_spec h 0); [lia|]. cbn [negb andb Z.eqb].
    rewrite Hd2, mul32_pow2 by (assumption || lia). reflexivity.
Qed.

Lemma aspect_power_of_two_exact_witness :
  targetDims 512 1024 zero 300 0 = Some (300, scale_pow2 300 1) /\
  targetDims 512 1024 zero 0 301 = Some (scale_pow2 301 (- 1), 301) /\
  targetDims 7 31 zero 7 0 = Some (7, 30) /\
  targetDims 3 7 zero 27 0 = Some (27, 62).
Proof.
  apply (aspect_power_of_two_exact 512 1024 1 300 301).
  - vm_compute; split; reflexivity.
  - vm_compute; split; reflexivity.
  - vm_compute; split; reflexivity.
  - vm_compute; split; reflexivity.
  - left. split; [lia|reflexivity].
Defined.

End AspectRatio.
